(** * iPodLoader2 storage stack: ATA block driver and FAT16/FAT32 reader

    A shallow embedding of [ipodloader2/ata2.c] and [ipodloader2/fat32.c].
    C integers are [Z] with the wrap-around of their width written out,
    arrays are lists indexed with stdpp's lookup and insert, the process-wide
    statics of each file are the fields of one state record that every
    function takes and returns, and a fatal halt is the [Halt] result. *)

From Stdlib Require Import ZArith List Lia Bool Ascii String.
From stdpp Require Import base list functions.
Import ListNotations.

Local Open Scope Z_scope.

(** ** Machine integers *)

Definition u8 (x : Z) : Z := x mod 2 ^ 8.
Definition u16 (x : Z) : Z := x mod 2 ^ 16.
Definition u32 (x : Z) : Z := x mod 2 ^ 32.

(** A 32-bit [long] (arm-none-eabi): the value of the low 32 bits read as
    two's complement. *)
Definition s32 (x : Z) : Z := (x + 2 ^ 31) mod 2 ^ 32 - 2 ^ 31.

(** [~x] on a 32-bit unsigned operand. *)
Definition not32 (x : Z) : Z := u32 (Z.lnot x).

(** ** Results of code that may halt *)

(** Modelled from the spec: [mlc_show_fatal_error] and
    [mlc_show_critical_error] live in minilibc.c, which is not part of the
    sources at hand.  The specification says of every fatal condition that it
    prints a diagnostic and halts execution, with no retry; a call to either
    function therefore ends the run with the diagnostic as its result. *)
Inductive diagnostic : Type :=
  | Diag_ata_io_error (status error : Z)
  | Diag_unexpected_bytes (expected actual : Z)
  | Diag_invalid_cache_index (index : Z)
  | Diag_out_of_bounds_read (sector : Z)
  | Diag_identify_checksum (integrity_word sum : Z)
  | Diag_not_fat_superblock
  | Diag_invalid_BytsPerSec (value : Z)
  | Diag_invalid_SecPerClus (value : Z)
  | Diag_fat12 (clusters : Z)
  | Diag_invalid_bits_per_fat_entry (value : Z)
  | Diag_null_handle (fd : Z).

(** A run over the statics [S] either returns a value and the state after
    it, or halts with a diagnostic in the state reached. *)
Inductive res (S A : Type) : Type :=
  | Ok (a : A) (s : S)
  | Halt (d : diagnostic) (s : S).
Arguments Ok {S A} a s.
Arguments Halt {S A} d s.

Definition M (S A : Type) : Type := S -> res S A.

Definition ret {S A : Type} (a : A) : M S A := fun s => Ok a s.

Definition bind {S A B : Type} (m : M S A) (k : A -> M S B) : M S B :=
  fun s =>
    match m s with
    | Ok a s' => k a s'
    | Halt d s' => Halt d s'
    end.

Definition halt {S A : Type} (d : diagnostic) : M S A := fun s => Halt d s.
Definition get {S : Type} : M S S := fun s => Ok s s.
Definition gets {S A : Type} (f : S -> A) : M S A := fun s => Ok (f s) s.
Definition modify {S : Type} (f : S -> S) : M S unit := fun s => Ok tt (f s).

(** [if (b) { m }] with no else branch. *)
Definition when {S : Type} (b : bool) (m : M S unit) : M S unit :=
  if b then m else ret tt.

Notation "'do' x <- m ; k" := (bind m (fun x => k))
  (at level 60, m at next level, right associativity).
Notation "'do' ( x , y ) <- m ; k" :=
  (bind m (fun xy => let '(x, y) := xy in k))
  (at level 60, x name, y name, m at next level, right associativity).
Notation "'do' ( x , y , z ) <- m ; k" :=
  (bind m (fun xyz => let '(x, y, z) := xyz in k))
  (at level 60, x name, y name, z name, m at next level, right associativity).
Notation "'do' m ; k" := (bind m (fun _ => k))
  (at level 60, right associativity).

(** The state a run ends in, halted or not. *)
Definition final {S A : Type} (r : res S A) : S :=
  match r with Ok _ s => s | Halt _ s => s end.

(** The value a run returns, [d] if it halts. *)
Definition value_of {S A : Type} (r : res S A) (d : A) : A :=
  match r with Ok a _ => a | Halt _ _ => d end.

Definition is_ok {S A : Type} (r : res S A) : bool :=
  match r with Ok _ _ => true | Halt _ _ => false end.

(** [m] keeps the property [P] of the state, whether it returns or
    halts. *)
Definition preserves {S A : Type} (P : S -> Prop) (m : M S A) : Prop :=
  forall s, P s -> P (final (m s)).

(** From a state with [P], [m] ends, returning or halting, in a state
    with [Q]. *)
Definition hoare {S A : Type} (P : S -> Prop) (m : M S A) (Q : S -> Prop)
  : Prop :=
  forall s, P s -> Q (final (m s)).

(** ** Byte buffers *)

(** The character codes of a string literal, without the terminating NUL. *)
Definition chars (s : string) : list Z :=
  map (fun c => Z.of_N (N_of_ascii c)) (list_ascii_of_string s).

(** [memcpy] into the buffer [buf] at byte offset [off]: [n] bytes of [src].
    A destination range that runs past the end of the buffer is undefined in
    C; here the list grows, which no theorem below depends on. *)
Definition memcpy (buf : list Z) (off : nat) (src : list Z) (n : nat) : list Z :=
  take off buf ++ take n src ++ drop (off + n)%nat buf.

(** The sum of a list of numbers. *)
Definition sum_of (l : list Z) : Z := fold_right Z.add 0 l.

(** The byte at index [i] of a buffer, [p[i]] in C. *)
Definition byte_at (p : list Z) (i : nat) : Z := p !!! i.

(** The [uint16] at index [i] of a buffer viewed as [uint16*] on the
    little-endian ARM core. *)
Definition word_at (p : list Z) (i : nat) : Z :=
  byte_at p (2 * i) + 2 ^ 8 * byte_at p (2 * i + 1).

(** * The ATA driver (ata2.c) *)

Module ATA.

Definition BLOCK_SIZE : Z := 512.
Definition BLOCKS_PER_MB : Z := 2048.
Definition CACHE_NUMBLOCKS : nat := 16.

(** Register indices of ata2_definitions.h. *)
Definition REG_DATA : nat := 0.
Definition REG_FEATURES : nat := 1.
Definition REG_SECT_COUNT : nat := 2.
Definition REG_SECT : nat := 3.
Definition REG_CYL_LOW : nat := 4.
Definition REG_CYL_HIGH : nat := 5.
Definition REG_DEVICEHEAD : nat := 6.
Definition REG_COMMAND : nat := 7.
Definition REG_CONTROL : nat := 8.
Definition REG_SECCOUNT_LOW : nat := 2.
Definition REG_LBA0 : nat := 3.
Definition REG_LBA1 : nat := 4.
Definition REG_LBA2 : nat := 5.
Definition REG_SECCOUNT_HIGH : nat := 10.
Definition REG_LBA3 : nat := 11.
Definition REG_LBA4 : nat := 12.
Definition REG_LBA5 : nat := 13.

Definition CONTROL_NIEN : Z := 0x02.
Definition COMMAND_IDENTIFY_DEVICE : Z := 0xEC.
Definition COMMAND_READ_SECTORS : Z := 0x20.
Definition COMMAND_READ_SECTORS_EXT : Z := 0x24.
Definition DEVICE_0 : Z := 0x00.
Definition LBA_ADDRESSING : Z := 0x40.

(** ** The drive behind the registers

    The driver reaches the drive only through [pio_outbyte] on the fourteen
    task-file registers and through the data register.  The drive below is
    the test double the specification asks for: a medium that answers every
    command without BSY and without ERR, and that records each command
    it latches, decoded from the registers as ATA-6 defines them. *)

Inductive pending : Type :=
  | NoData
  | IdentData
  | DiskData (lba remaining : Z).

Record hw_cmd : Type := mk_cmd {
  cmd_opcode : Z;
  cmd_lba : Z;
  cmd_count : Z
}.

Record hw_state : Type := mk_hw {
  hw_disk : Z -> list Z;
  hw_ident : list Z;
  hw_regs : nat -> Z;
  hw_pending : pending;
  hw_log : list hw_cmd
}.

Definition reg (h : hw_state) (r : nat) : Z := hw_regs h r.

(** READ SECTOR(S): 28-bit address, count register 0 means 256. *)
Definition decode_lba28 (h : hw_state) : Z :=
  Z.land (reg h REG_DEVICEHEAD) 0x0F * 2 ^ 24
  + reg h REG_LBA2 * 2 ^ 16 + reg h REG_LBA1 * 2 ^ 8 + reg h REG_LBA0.

Definition decode_count28 (h : hw_state) : Z :=
  if reg h REG_SECCOUNT_LOW =? 0 then 256 else reg h REG_SECCOUNT_LOW.

(** READ SECTOR(S) EXT: 48-bit address, count 0 means 65536. *)
Definition decode_lba48 (h : hw_state) : Z :=
  reg h REG_LBA5 * 2 ^ 40 + reg h REG_LBA4 * 2 ^ 32 + reg h REG_LBA3 * 2 ^ 24
  + reg h REG_LBA2 * 2 ^ 16 + reg h REG_LBA1 * 2 ^ 8 + reg h REG_LBA0.

Definition decode_count48 (h : hw_state) : Z :=
  let c := reg h REG_SECCOUNT_HIGH * 2 ^ 8 + reg h REG_SECCOUNT_LOW in
  if c =? 0 then 65536 else c.

Definition hw_latch (h : hw_state) (cmd : Z) : hw_state :=
  let '(p, c) :=
    if cmd =? COMMAND_READ_SECTORS then
      (DiskData (decode_lba28 h) (decode_count28 h),
       mk_cmd cmd (decode_lba28 h) (decode_count28 h))
    else if cmd =? COMMAND_READ_SECTORS_EXT then
      (DiskData (decode_lba48 h) (decode_count48 h),
       mk_cmd cmd (decode_lba48 h) (decode_count48 h))
    else if cmd =? COMMAND_IDENTIFY_DEVICE then (IdentData, mk_cmd cmd 0 0)
    else (NoData, mk_cmd cmd 0 0) in
  mk_hw (hw_disk h) (hw_ident h) (hw_regs h) p (c :: hw_log h).

(** [pio_outbyte]: the data is an [unsigned char]; a write to the command
    register starts the command. *)
Definition pio_outbyte (addr : nat) (data : Z) (h : hw_state) : hw_state :=
  if Nat.eqb addr REG_COMMAND then hw_latch h (u8 data)
  else mk_hw (hw_disk h) (hw_ident h) (<[addr := u8 data]> (hw_regs h))
         (hw_pending h) (hw_log h).

(** One 512-byte block out of the data register, if the drive raises DRQ. *)
Definition hw_next_block (h : hw_state) : option (list Z * hw_state) :=
  match hw_pending h with
  | NoData => None
  | IdentData =>
      Some (hw_ident h,
            mk_hw (hw_disk h) (hw_ident h) (hw_regs h) NoData (hw_log h))
  | DiskData lba remaining =>
      if 0 <? remaining then
        Some (hw_disk h lba,
              mk_hw (hw_disk h) (hw_ident h) (hw_regs h)
                (DiskData (lba + 1) (remaining - 1)) (hw_log h))
      else None
  end.

(** The read commands among the latched ones. *)
Definition is_read_cmd (c : hw_cmd) : bool :=
  (cmd_opcode c =? COMMAND_READ_SECTORS)
  || (cmd_opcode c =? COMMAND_READ_SECTORS_EXT).

(** ** Driver state: the statics of ata2.c *)

Record ATAdev_t : Type := mk_dev {
  chs : list Z;
  lba48 : Z;
  alignment_log2 : Z;
  sectors : Z
}.

Record ata_state : Type := mk_ata {
  cachedata : list (list Z);
  cacheaddr : list Z;
  cachetick : list Z;
  cacheticks : Z;
  last_command : Z;
  last_sector : Z;
  last_sector_count : Z;
  ATAdev : ATAdev_t;
  hw : hw_state
}.

Definition with_hw (st : ata_state) (h : hw_state) : ata_state :=
  mk_ata (cachedata st) (cacheaddr st) (cachetick st) (cacheticks st)
    (last_command st) (last_sector st) (last_sector_count st) (ATAdev st) h.

Definition with_cache (st : ata_state) (addr tick : list Z) (ticks : Z)
  : ata_state :=
  mk_ata (cachedata st) addr tick ticks
    (last_command st) (last_sector st) (last_sector_count st) (ATAdev st)
    (hw st).

Definition with_cachedata (st : ata_state) (data : list (list Z)) : ata_state :=
  mk_ata data (cacheaddr st) (cachetick st) (cacheticks st)
    (last_command st) (last_sector st) (last_sector_count st) (ATAdev st)
    (hw st).

Definition with_dev (st : ata_state) (d : ATAdev_t) : ata_state :=
  mk_ata (cachedata st) (cacheaddr st) (cachetick st) (cacheticks st)
    (last_command st) (last_sector st) (last_sector_count st) d (hw st).

Definition outb (addr : nat) (data : Z) : M ata_state unit :=
  modify (fun st => with_hw st (pio_outbyte addr data (hw st))).

Definition ata_command (cmd : Z) : M ata_state unit :=
  do modify (fun st =>
    mk_ata (cachedata st) (cacheaddr st) (cachetick st) (cacheticks st)
      (u8 cmd) (last_sector st) (last_sector_count st) (ATAdev st) (hw st));
  outb REG_COMMAND cmd.

(** ** Sending a read command *)

Definition ata_send_read_command (lba count : Z) : M ata_state unit :=
  do modify (fun st =>
    mk_ata (cachedata st) (cacheaddr st) (cachetick st) (cacheticks st)
      (last_command st) lba count (ATAdev st) (hw st));
  do is48 <- gets (fun st => negb (lba48 (ATAdev st) =? 0));
  let head := if is48 then 0 else Z.shiftr (Z.land lba 0x0F000000) 24 in
  do outb REG_DEVICEHEAD
       (Z.lor (Z.lor (Z.lor 0xA0 LBA_ADDRESSING) DEVICE_0) head);
  do outb REG_FEATURES 0;
  do outb REG_CONTROL (Z.lor CONTROL_NIEN 0x08);
  do when is48
       (do outb REG_SECCOUNT_HIGH (Z.shiftr (Z.land count 0x0000FF00) 8);
        do outb REG_LBA3 (Z.shiftr (Z.land lba 0xFF000000) 24);
        do outb REG_LBA4 0;
        outb REG_LBA5 0);
  do outb REG_SECCOUNT_LOW (Z.shiftr (Z.land count 0x000000FF) 0);
  do outb REG_LBA0 (Z.shiftr (Z.land lba 0x000000FF) 0);
  do outb REG_LBA1 (Z.shiftr (Z.land lba 0x0000FF00) 8);
  do outb REG_LBA2 (Z.shiftr (Z.land lba 0x00FF0000) 16);
  if is48 then ata_command COMMAND_READ_SECTORS_EXT
  else ata_command COMMAND_READ_SECTORS.

(** ** Receiving data *)

(** [ata_transfer_block]: up to [count] blocks, stopping when the drive no
    longer raises DRQ; the blocks received, in order. *)
Fixpoint ata_transfer_block (count : nat) (h : hw_state)
  : list (list Z) * hw_state :=
  match count with
  | O => ([], h)
  | S n =>
      match hw_next_block h with
      | None => ([], h)
      | Some (b, h') =>
          let '(bs, h'') := ata_transfer_block n h' in (b :: bs, h'')
      end
  end.

(** [ata_receive_read_data]: the blocks received; fatal when fewer bytes
    than [count * BLOCK_SIZE] arrived. *)
Definition ata_receive_read_data (count : Z) : M ata_state (list (list Z)) :=
  fun st =>
    let '(bs, h) := ata_transfer_block (Z.to_nat count) (hw st) in
    let bytesread := Z.of_nat (length bs) * BLOCK_SIZE in
    if bytesread =? u32 (count * BLOCK_SIZE) then Ok bs (with_hw st h)
    else
      Halt (Diag_unexpected_bytes (u32 (count * BLOCK_SIZE)) bytesread)
        (with_hw st h).

(** ** The block cache *)

Definition clear_cache : M ata_state unit :=
  modify (fun st =>
    with_cache st (replicate CACHE_NUMBLOCKS (not32 0))
      (replicate CACHE_NUMBLOCKS 0) 0).

(** The scan of [find_cache_entry]: the first index in [i, i+n) whose
    address equals [sector]. *)
Fixpoint scan_addr (addr : list Z) (sector : Z) (i n : nat) : option nat :=
  match n with
  | O => None
  | S n' =>
      if addr !!! i =? sector then Some i
      else scan_addr addr sector (S i) n'
  end.

Definition find_cache_entry (sector : Z) : M ata_state Z :=
  fun st =>
    if sector =? not32 0 then Ok (-1) st
    else
      match scan_addr (cacheaddr st) sector 0 CACHE_NUMBLOCKS with
      | Some i =>
          let t := u32 (cacheticks st + 1) in
          Ok (Z.of_nat i)
            (with_cache st (cacheaddr st) (<[i := t]> (cachetick st)) t)
      | None => Ok (-1) st
      end.

(** The eviction scan of [create_cache_entry]: starting from slot 0, move to
    slot [i] whenever its tick is strictly lower. *)
Definition lowest_tick (tick : list Z) : nat :=
  fold_left (fun best i => if tick !!! i <? tick !!! best then i else best)
    (seq 0 CACHE_NUMBLOCKS) 0%nat.

Definition create_cache_entry (sector : Z) : M ata_state Z :=
  do found <- find_cache_entry sector;
  do tick <- gets cachetick;
  let cacheindex :=
    if found <? 0 then Z.of_nat (lowest_tick tick) else found in
  do modify (fun st =>
    with_cache st (<[Z.to_nat cacheindex := sector]> (cacheaddr st))
      (<[Z.to_nat cacheindex := cacheticks st]> (cachetick st))
      (cacheticks st));
  ret cacheindex.

(** [get_cache_entry_buffer]: the slot's buffer, fatal outside the table. *)
Definition get_cache_entry_buffer (cacheindex : Z) : M ata_state nat :=
  if (0 <=? cacheindex) && (cacheindex <? Z.of_nat CACHE_NUMBLOCKS)
  then ret (Z.to_nat cacheindex)
  else halt (Diag_invalid_cache_index cacheindex).

(** [ata_init], after the controller bring-up writes that have no effect
    on the drive model: the presence probe through two scratch registers,
    then the allocation of the cache arrays (taken zero-filled) and
    [clear_cache].  Returns 1 when no controller answers. *)
Definition ata_init : M ata_state Z :=
  do outb REG_DEVICEHEAD (Z.lor 0xA0 DEVICE_0);
  do outb REG_SECT_COUNT 0x55;
  do outb REG_SECT 0xAA;
  do outb REG_SECT_COUNT 0xAA;
  do outb REG_SECT 0x55;
  do outb REG_SECT_COUNT 0x55;
  do outb REG_SECT 0xAA;
  do h <- gets hw;
  if negb (reg h REG_SECT_COUNT =? 0x55) || negb (reg h REG_SECT =? 0xAA)
  then ret 1
  else
    do modify (fun st =>
      with_cachedata st
        (replicate CACHE_NUMBLOCKS (replicate (Z.to_nat BLOCK_SIZE) 0)));
    do clear_cache;
    ret 0.

(** ** Reading one block *)

(** The cached loop of [ata_readblock2] over the sectors [i] of the run:
    each block goes into a cache slot, and the requested one is copied out
    to [dst]. *)
Fixpoint fill_cached (run : list Z) (sector : Z) (dst : list Z) (off : nat)
  : M ata_state (list Z) :=
  match run with
  | [] => ret dst
  | i :: run' =>
      do cacheindex <- create_cache_entry i;
      do slot <- get_cache_entry_buffer cacheindex;
      do bs <- ata_receive_read_data 1;
      do modify (fun st =>
        with_cachedata st (<[slot := concat bs]> (cachedata st)));
      let bytesread := (length bs * Z.to_nat BLOCK_SIZE)%nat in
      do cachedst <- gets (fun st => cachedata st !!! slot);
      fill_cached run' sector
        (if i =? sector then memcpy dst off cachedst bytesread else dst) off
  end.

(** The uncached loop: the requested block goes to [dst], the others are
    read and dropped. *)
Fixpoint fill_uncached (run : list Z) (sector : Z) (dst : list Z) (off : nat)
  : M ata_state (list Z) :=
  match run with
  | [] => ret dst
  | i :: run' =>
      do bs <- ata_receive_read_data 1;
      fill_uncached run' sector
        (if i =? sector
         then memcpy dst off (concat bs) (length bs * Z.to_nat BLOCK_SIZE)
         else dst) off
  end.

(** [1u << ATAdev.alignment_log2]; the shift is defined in C for a shift
    count below 32, the only counts the theorems below use. *)
Definition one_shl (k : Z) : Z := u32 (Z.shiftl 1 k).

Definition read_size_of (dev : ATAdev_t) : Z :=
  u16 (one_shl (alignment_log2 dev)).

Definition sector_mask_of (dev : ATAdev_t) : Z :=
  not32 (u32 (one_shl (alignment_log2 dev) - 1)).

(** The sectors [for (uint32 i = lo; i < hi; i++)] visits. *)
Definition for_range (lo hi : Z) : list Z := seqZ lo (hi - lo).

(** [ata_readblock2 (dst + off, sector, useCache)]: the return value and the
    destination buffer afterwards. *)
Definition ata_readblock2 (dst : list Z) (off : nat) (sector : Z)
    (useCache : bool) : M ata_state (Z * list Z) :=
  do cacheindex <- (if useCache then find_cache_entry sector else ret (-1));
  if useCache && (0 <=? cacheindex) then
    do slot <- get_cache_entry_buffer cacheindex;
    do cachedsrc <- gets (fun st => cachedata st !!! slot);
    ret (0, memcpy dst off cachedsrc (Z.to_nat BLOCK_SIZE))
  else
    do dev <- gets ATAdev;
    if (lba48 dev =? 0) && (0x0FFFFFFF <? sector) then
      halt (Diag_out_of_bounds_read sector)
    else
      let read_size := read_size_of dev in
      let sector_to_read := Z.land sector (sector_mask_of dev) in
      do ata_send_read_command sector_to_read read_size;
      let run := for_range sector_to_read (u32 (sector_to_read + read_size)) in
      if useCache then
        do dst <- fill_cached run sector dst off;
        do modify (fun st =>
          with_cache st (cacheaddr st) (cachetick st)
            (u32 (cacheticks st + 1)));
        ret (0, dst)
      else
        do dst <- fill_uncached run sector dst off;
        ret (0, dst).

Definition ata_readblock (dst : list Z) (sector : Z) : M ata_state (Z * list Z) :=
  ata_readblock2 dst 0 sector true.

(** The loop shared by [ata_readblocks] and [ata_readblocks_uncached]:
    [while (count-- > 0)] runs [count] times, stepping the destination by one
    block and the sector by one. *)
Fixpoint readblocks_loop (count : nat) (useCache : bool) (dst : list Z)
    (off : nat) (sector : Z) : M ata_state (Z * list Z) :=
  match count with
  | O => ret (0, dst)
  | S count' =>
      do (err, dst) <- ata_readblock2 dst off sector useCache;
      if negb (err =? 0) then ret (err, dst)
      else readblocks_loop count' useCache dst (off + Z.to_nat BLOCK_SIZE)
             (u32 (sector + 1))
  end.

Definition ata_readblocks (dst : list Z) (off : nat) (sector count : Z)
  : M ata_state (Z * list Z) :=
  readblocks_loop (Z.to_nat count) true dst off sector.

Definition ata_readblocks_uncached (dst : list Z) (off : nat)
    (sector count : Z) : M ata_state (Z * list Z) :=
  readblocks_loop (Z.to_nat count) false dst off sector.

(** ** Device identification *)

(** [strncmp_be16]: [str1] is a C string (its characters, NUL after them),
    [str2] an array of big-endian character pairs. *)
Fixpoint strncmp_be16 (str1 : list Z) (str1_start : nat) (str2 : nat -> Z)
    (str2_start : nat) (length : nat) (result : Z) : Z :=
  match length with
  | O => result
  | S length' =>
      let lc := nth str1_start str1 0 in
      let rc :=
        if Nat.odd str2_start
        then u8 (Z.land (str2 (Nat.div str2_start 2)) 0xFF)
        else u8 (Z.shiftr (str2 (Nat.div str2_start 2)) 8) in
      let result := lc - rc in
      if negb (result =? 0) || (lc =? 0) || (rc =? 0) then result
      else strncmp_be16 str1 (S str1_start) str2 (S str2_start) length' result
  end.

(** The checksum loop: both bytes of each of the 256 words are added into a
    [uint8]. *)
Definition identify_sum (buff : list Z) : Z :=
  fold_left
    (fun calculated_sum i =>
       let calculated_sum := u8 (calculated_sum + Z.land (word_at buff i) 0x00FF) in
       u8 (calculated_sum + Z.shiftr (word_at buff i) 8))
    (seq 0 256) 0.

Definition identify_sectors (lba48 : Z) (buff : list Z) : Z :=
  if negb (lba48 =? 0) then
    Z.lor (Z.lor (Z.lor (Z.shiftl (word_at buff 103) 48)
                        (Z.shiftl (word_at buff 102) 32))
                 (Z.shiftl (word_at buff 101) 16))
          (Z.shiftl (word_at buff 100) 0)
  else
    Z.lor (Z.shiftl (word_at buff 61) 16) (Z.shiftl (word_at buff 60) 0).

Definition identify_alignment (buff : list Z) (sectors : Z) : Z :=
  let hdd_model := fun j => word_at buff (27 + j) in
  let size_mb := sectors / BLOCKS_PER_MB in
  if (strncmp_be16 (chars "TOSHIBA ") 0 hdd_model 0 8 0 =? 0)
     && (strncmp_be16 (chars "10GAH") 0 hdd_model 12 5 0 =? 0)
  then 1
  else if 127 * 1024 <? size_mb then 3
  else 0.

(** The first half of [ata_identify]: the task-file writes and the
    IDENTIFY DEVICE command. *)
Definition identify_command : M ata_state unit :=
  do outb REG_DEVICEHEAD (Z.lor 0xA0 DEVICE_0);
  do outb REG_FEATURES 0;
  do outb REG_CONTROL CONTROL_NIEN;
  do outb REG_SECT_COUNT 0;
  do outb REG_SECT 0;
  do outb REG_CYL_LOW 0;
  do outb REG_CYL_HIGH 0;
  ata_command COMMAND_IDENTIFY_DEVICE.

(** The integrity test on the 256 words received. *)
Definition identify_check (buff : list Z) : M ata_state unit :=
  when (Z.land (word_at buff 255) 0x00FF =? 0xA5)
    (let calculated_sum := identify_sum buff in
     if negb (calculated_sum =? 0)
     then halt (Diag_identify_checksum (word_at buff 255) calculated_sum)
     else ret tt).

(** [ata_identify]: the console output is left out; what remains is the
    command, the checksum test and the fields of [ATAdev]. *)
Definition ata_identify : M ata_state unit :=
  do identify_command;
  do bs <- ata_receive_read_data 1;
  let buff := concat bs in
  do identify_check buff;
  let lba48 := if Z.land (word_at buff 83) (Z.shiftl 1 10) =? 0 then 0 else 1 in
  let sectors := identify_sectors lba48 buff in
  modify (fun st =>
    with_dev st
      (mk_dev [word_at buff 1; word_at buff 3; word_at buff 6] lba48
         (identify_alignment buff sectors) sectors)).

End ATA.

(** * The FAT driver (fat32.c) *)

Module FAT32.

Definition MAX_HANDLES : Z := 10.

Record fat32_file : Type := mk_file {
  cluster : Z;
  opened : Z;
  position : Z;
  file_length : Z
}.

(** [fat_t]; an entry of [filehandles] is a pointer to a [fat32_file] that
    [fat32_findfile] allocated and nothing frees, so no two entries alias and
    the entry holds the file itself, [None] for the null pointer. *)
Record fat_t : Type := mk_fat {
  offset : Z;
  sectors_per_fat : Z;
  root_dir_first_cluster : Z;
  data_area_offset : Z;
  bytes_per_cluster : Z;
  bytes_per_sector : Z;
  blks_per_sector : Z;
  blks_per_cluster : Z;
  number_of_reserved_sectors : Z;
  sectors_per_cluster : Z;
  entries_in_rootdir : Z;
  entries_per_sector : Z;
  number_of_fats : Z;
  bits_per_fat_entry : Z;
  filehandles : list (option fat32_file);
  numHandles : Z
}.

(** [memset (&fat, 0, sizeof(fat))]. *)
Definition fat_zero : fat_t :=
  mk_fat 0 0 0 0 0 0 0 0 0 0 0 0 0 0 (replicate (Z.to_nat MAX_HANDLES) None) 0.

(** The [filesystem] record handed to [vfs_registerfs]: the partition number
    and the type tag; the function pointers are the five operations below. *)
Inductive fs_type : Type := FAT32_tag.

Record fs_state : Type := mk_fs {
  fat : fat_t;
  clusterBuffer : option (list Z);
  gFATSectorBuf : option (list Z);
  gSecNumInFATBuf : Z;
  longname : list Z;
  registered : list (Z * fs_type);
  ata : ATA.ata_state
}.

Definition with_fat (s : fs_state) (f : fat_t) : fs_state :=
  mk_fs f (clusterBuffer s) (gFATSectorBuf s) (gSecNumInFATBuf s)
    (longname s) (registered s) (ata s).

Definition with_ata (s : fs_state) (a : ATA.ata_state) : fs_state :=
  mk_fs (fat s) (clusterBuffer s) (gFATSectorBuf s) (gSecNumInFATBuf s)
    (longname s) (registered s) a.

Definition with_clusterBuffer (s : fs_state) (b : option (list Z)) : fs_state :=
  mk_fs (fat s) b (gFATSectorBuf s) (gSecNumInFATBuf s)
    (longname s) (registered s) (ata s).

Definition with_FATSectorBuf (s : fs_state) (b : option (list Z)) (n : Z)
  : fs_state :=
  mk_fs (fat s) (clusterBuffer s) b n (longname s) (registered s) (ata s).

Definition with_longname (s : fs_state) (l : list Z) : fs_state :=
  mk_fs (fat s) (clusterBuffer s) (gFATSectorBuf s) (gSecNumInFATBuf s)
    l (registered s) (ata s).

Definition with_registered (s : fs_state) (r : list (Z * fs_type)) : fs_state :=
  mk_fs (fat s) (clusterBuffer s) (gFATSectorBuf s) (gSecNumInFATBuf s)
    (longname s) r (ata s).

(** A call into the block driver. *)
Definition lift_ata {A : Type} (m : M ATA.ata_state A) : M fs_state A :=
  fun s =>
    match m (ata s) with
    | Ok a st => Ok a (with_ata s st)
    | Halt d st => Halt d (with_ata s st)
    end.

(** The bytes behind a buffer pointer; a null pointer has none. *)
Definition bytes_of (b : option (list Z)) : list Z :=
  match b with Some l => l | None => [] end.

Definition readToSectorBuf (sector : Z) : M fs_state unit :=
  do cur <- gets gSecNumInFATBuf;
  if negb (cur =? sector) then
    do f <- gets fat;
    do buf <- gets (fun s => bytes_of (gFATSectorBuf s));
    do (_, buf) <- lift_ata
      (ATA.ata_readblocks buf 0 (u32 (sector * blks_per_sector f))
         (blks_per_sector f));
    modify (fun s => with_FATSectorBuf s (Some buf) sector)
  else ret tt.

Definition getLE32 (p : list Z) (off : nat) : Z :=
  u32 (Z.lor (Z.lor (Z.lor (byte_at p off) (Z.shiftl (byte_at p (off + 1)) 8))
                    (Z.shiftl (byte_at p (off + 2)) 16))
             (Z.shiftl (byte_at p (off + 3)) 24)).

Definition getLE16 (p : list Z) (off : nat) : Z :=
  u16 (Z.lor (byte_at p off) (Z.shiftl (byte_at p (off + 1)) 8)).

Definition fat32_findnextcluster (prev_cluster : Z) : M fs_state Z :=
  do f <- gets fat;
  if negb ((bits_per_fat_entry f =? 16) || (bits_per_fat_entry f =? 32)) then
    halt (Diag_invalid_bits_per_fat_entry (bits_per_fat_entry f))
  else
    let fatOffset :=
      if bits_per_fat_entry f =? 16 then u32 (prev_cluster * 2)
      else u32 (prev_cluster * 4) in
    let sector :=
      u32 (offset f / blks_per_sector f
           + (number_of_reserved_sectors f + fatOffset / bytes_per_sector f)) in
    let offset := fatOffset mod bytes_per_sector f in
    do readToSectorBuf sector;
    do buf <- gets (fun s => bytes_of (gFATSectorBuf s));
    if bits_per_fat_entry f =? 16 then
      let ret_ := getLE16 buf (Z.to_nat offset) in
      ret (if (ret_ <? 2) || (0xFFF0 <=? ret_) then 0 else ret_)
    else
      let ret_ := Z.land (getLE32 buf (Z.to_nat offset)) 0x0FFFFFFF in
      ret (if (ret_ <? 2) || (0x0FFFFFF0 <=? ret_) then 0 else ret_).

(** [calc_lba]: all operands are promoted to [uint32], so the sum is taken
    modulo 2^32 once. *)
Definition calc_lba (f : fat_t) (start : Z) (isRootDir : Z) : Z :=
  u32 (offset f
       + (number_of_reserved_sectors f + number_of_fats f * sectors_per_fat f
          + (start - 2) * sectors_per_cluster f
          + (if negb (isRootDir =? 0) then 0 else data_area_offset f))
         * blks_per_sector f).

Definition lfn_checksum (entryName : list Z) : Z :=
  fold_left
    (fun sum c =>
       u8 ((if negb (Z.land sum 1 =? 0) then 0x80 else 0) + Z.shiftr sum 1 + c))
    (take 11 entryName) 0.

Record dir_state : Type := mk_dir {
  isRoot : Z;
  entryIdx : Z;
  dir_cluster : Z
}.

(** [getNextRawEntry]: the 32 bytes of the next directory entry, or [None]
    for the null pointer at the end of the directory.  [state->buffer] is
    always [clusterBuffer]. *)
Definition getNextRawEntry (state : dir_state)
  : M fs_state (option (list Z) * dir_state) :=
  do f <- gets fat;
  let idx := entryIdx state in
  let state := mk_dir (isRoot state) (u16 (idx + 1)) (dir_cluster state) in
  if negb (idx mod entries_per_sector f =? 0) then
    do buf <- gets (fun s => bytes_of (clusterBuffer s));
    ret (Some (take 32 (drop (Z.to_nat (Z.shiftl (idx mod entries_per_sector f) 5)) buf)),
         state)
  else
    let sectorIdx := u16 (idx / entries_per_sector f) in
    let read_sector (state : dir_state) (sectorIdx : Z) :=
      let cluster_lba := calc_lba f (dir_cluster state) (isRoot state) in
      do buf <- gets (fun s => bytes_of (clusterBuffer s));
      do (_, buf) <- lift_ata
        (ATA.ata_readblocks buf 0
           (u32 (cluster_lba + sectorIdx * blks_per_sector f))
           (blks_per_sector f));
      do modify (fun s => with_clusterBuffer s (Some buf));
      ret (Some (take 32 buf), state) in
    if negb (isRoot state =? 0) && (0 <? entries_in_rootdir f) then
      if entries_in_rootdir f <=? idx then ret (None, state)
      else read_sector state sectorIdx
    else
      let sectorIdx := u16 (sectorIdx mod sectors_per_cluster f) in
      if (sectorIdx =? 0) && (0 <? idx) then
        do next <- fat32_findnextcluster (dir_cluster state);
        let state := mk_dir (isRoot state) (entryIdx state) next in
        if next <=? 0 then ret (None, state)
        else read_sector state sectorIdx
      else read_sector state sectorIdx.

(** ** C strings *)

(** The characters of the C string that starts a buffer: those before the
    first NUL. *)
Fixpoint cstr (buf : list Z) : list Z :=
  match buf with
  | [] => []
  | c :: buf' => if c =? 0 then [] else c :: cstr buf'
  end.

(** Modelled from the spec: [mlc_strlcpy] and [mlc_strlcat] are defined in
    minilibc.c, which is missing; the specification only says that a normal
    entry encodes its short name in bytes 0-10.  They are taken with the
    semantics of the BSD functions they are named after: at most [size - 1]
    characters, always NUL-terminated. *)
Definition mlc_strlcpy (src : list Z) (size : nat) : list Z :=
  cstr (take (size - 1) src).

Definition mlc_strlcat (dst src : list Z) (size : nat) : list Z :=
  dst ++ take (size - 1 - length dst) (cstr src).

(** [trimr]: cut the trailing spaces. *)
Fixpoint trimr (s : list Z) : list Z :=
  match s with
  | [] => []
  | c :: s' =>
      match trimr s' with
      | [] => if c =? 32 then [] else [c]
      | t => c :: t
      end
  end.

(** [ucs2cpy]: the characters written to [dest] and the count of unmappable
    code points. *)
Fixpoint ucs2cpy (ucs2src : list Z) (chars : nat) : list Z * Z :=
  match chars with
  | O => ([], 0)
  | S chars' =>
      let current_ucs2 :=
        u16 (Z.lor (byte_at ucs2src 0) (Z.shiftl (byte_at ucs2src 1) 8)) in
      let '(c, unknown) :=
        if current_ucs2 =? 0x0000 then (0, 0)
        else if current_ucs2 =? 0xFFFF then (0, 0)
        else if (0x0020 <=? current_ucs2) && (current_ucs2 <=? 0x007E)
        then (Z.land current_ucs2 0x00FF, 0)
        else (95, 1) in
      let '(dest, unknown_chars) := ucs2cpy (drop 2 ucs2src) chars' in
      (c :: dest, unknown + unknown_chars)
  end.

(** ** Directory entries *)

(** The locals [chksum] and [namegood] of [getNextCompleteEntry]. *)
Record lfn_locals : Type := mk_lfn {
  chksum : Z;
  namegood : Z
}.

(** The branch for a long-file-name slot ([entry[0x0B] == 0x0F]): the locals
    and the static [longname] buffer afterwards.  The slot fields are
    [seq] at 0, [name0_4] at 1, [alias_checksum] at 13, [name5_10] at 14
    and [name11_12] at 28. *)
Definition lfn_slot (entry : list Z) (loc : lfn_locals) (longname : list Z)
  : lfn_locals * list Z :=
  let seq := byte_at entry 0 in
  let offset := 13 * (Z.land seq 0x1F - 1) in
  if (0 <=? offset) && (offset <? 256 - 1 - 13) && (Z.land seq 0x80 =? 0) then
    let '(loc, longname) :=
      if negb (Z.land seq 0x40 =? 0)
      then (mk_lfn (byte_at entry 13) 1, replicate 256 0)
      else (loc, longname) in
    if negb (namegood loc =? 0) then
      let '(n0, i0) := ucs2cpy (take 10 (drop 1 entry)) 5 in
      let '(n5, i5) := ucs2cpy (take 12 (drop 14 entry)) 6 in
      let '(n11, i11) := ucs2cpy (take 4 (drop 28 entry)) 2 in
      let longname := memcpy longname (Z.to_nat offset) (n0 ++ n5 ++ n11) 13 in
      let invalid_chars := i0 + i5 + i11 in
      (if 0 <? invalid_chars then mk_lfn (chksum loc) 0 else loc, longname)
    else (loc, longname)
  else (mk_lfn (chksum loc) 0, longname).

(** What [getNextCompleteEntry] hands back for one entry. *)
Record dir_entry : Type := mk_entry {
  e_shortname : list Z;
  e_longname : list Z;
  e_cluster : Z;
  e_flength : Z;
  e_ftype : Z
}.

Definition short_name_of (entry : list Z) (ftype : Z) : list Z :=
  if negb (Z.land ftype 8 =? 0) then trimr (mlc_strlcpy entry (11 + 1))
  else
    let shortname := trimr (mlc_strlcpy entry (8 + 1)) in
    let ext := trimr (mlc_strlcpy (drop 8 entry) 4) in
    let shortname :=
      if negb (nth 0 ext 0 =? 0)
      then mlc_strlcat (mlc_strlcat shortname (chars ".") 13) ext 13
      else shortname in
    trimr shortname.

(** The branch for a normal entry: the [longname] buffer afterwards and the
    values stored through the out-parameters. *)
Definition normal_entry (f : fat_t) (entry : list Z) (loc : lfn_locals)
    (longname : list Z) : list Z * dir_entry :=
  let ftype := byte_at entry 0x0B in
  let longname :=
    if (namegood loc =? 0) || negb (chksum loc =? lfn_checksum entry)
    then <[0%nat := 0]> longname
    else longname in
  let cl := getLE16 entry 0x1A in
  let cl :=
    if bits_per_fat_entry f =? 32
    then u32 (Z.lor cl (Z.shiftl (getLE16 entry 0x14) 16))
    else cl in
  (longname,
   mk_entry (short_name_of entry ftype) (cstr longname) cl
     (getLE32 entry 0x1C) ftype).

(** The three ways the loop of [getNextCompleteEntry] can be left: it
    returns 0, it returns 1 with an entry, or the turns given ran out before
    either (a directory whose cluster chain loops over deleted entries and
    name slots never ends). *)
Inductive dir_result : Type :=
  | EndOfDir
  | Entry (e : dir_entry)
  | OutOfTurns.

Fixpoint getNextCompleteEntry_loop (turns : nat) (dstate : dir_state)
    (loc : lfn_locals) : M fs_state (dir_result * dir_state) :=
  match turns with
  | O => ret (OutOfTurns, dstate)
  | S turns' =>
      do (raw, dstate) <- getNextRawEntry dstate;
      match raw with
      | None => ret (EndOfDir, dstate)
      | Some entry =>
          if byte_at entry 0 =? 0 then ret (EndOfDir, dstate)
          else if byte_at entry 0 =? 0xE5 then
            getNextCompleteEntry_loop turns' dstate loc
          else if byte_at entry 0x0B =? 0x0F then
            do buf <- gets longname;
            let '(loc, buf) := lfn_slot entry loc buf in
            do modify (fun s => with_longname s buf);
            getNextCompleteEntry_loop turns' dstate loc
          else
            do f <- gets fat;
            do buf <- gets longname;
            let '(buf, e) := normal_entry f entry loc buf in
            do modify (fun s => with_longname s buf);
            ret (Entry e, dstate)
      end
  end.

Definition getNextCompleteEntry (turns : nat) (dstate : dir_state)
  : M fs_state (dir_result * dir_state) :=
  getNextCompleteEntry_loop turns dstate (mk_lfn 0 0).

(** ** File handles *)

(** [fs->filehandles[fd]]: following a null pointer, or indexing outside the
    table, is undefined in C; the model halts there. *)
Definition handle (fd : Z) : M fs_state fat32_file :=
  do f <- gets fat;
  match (if 0 <=? fd then filehandles f !! Z.to_nat fd else None) with
  | Some (Some h) => ret h
  | _ => halt (Diag_null_handle fd)
  end.

Definition set_handles (f : fat_t) (hs : list (option fat32_file)) (n : Z)
  : fat_t :=
  mk_fat (offset f) (sectors_per_fat f) (root_dir_first_cluster f)
    (data_area_offset f) (bytes_per_cluster f) (bytes_per_sector f)
    (blks_per_sector f) (blks_per_cluster f) (number_of_reserved_sectors f)
    (sectors_per_cluster f) (entries_in_rootdir f) (entries_per_sector f)
    (number_of_fats f) (bits_per_fat_entry f) hs n.

(** [fs->filehandles[fd]->position = pos]. *)
Definition set_position (fd : Z) (pos : Z) : M fs_state unit :=
  do h <- handle fd;
  modify (fun s =>
    with_fat s
      (set_handles (fat s)
         (<[Z.to_nat fd :=
              Some (mk_file (cluster h) (opened h) pos (file_length h))]>
            (filehandles (fat s)))
         (numHandles (fat s)))).

(** [fat32_open], from the point where [fat32_findfile] has returned
    [file]. *)
Definition fat32_open (file : option fat32_file) : M fs_state Z :=
  match file with
  | Some h =>
      do f <- gets fat;
      if numHandles f <? MAX_HANDLES then
        do modify (fun s =>
          with_fat s
            (set_handles (fat s)
               (<[Z.to_nat (numHandles f) := Some h]> (filehandles (fat s)))
               (u32 (numHandles f + 1))));
        do f <- gets fat;
        ret (s32 (numHandles f - 1))
      else ret (-1)
  | None => ret (-1)
  end.

(** [fat32_close]: [fd] is an [int] compared with the [uint32] expression
    [fs->numHandles-1], so both sides are taken modulo 2^32. *)
Definition fat32_close (fd : Z) : M fs_state unit :=
  do f <- gets fat;
  if u32 fd =? u32 (numHandles f - 1) then
    modify (fun s =>
      with_fat s
        (set_handles (fat s) (filehandles (fat s)) (u32 (numHandles f - 1))))
  else ret tt.

(** The fast-forward loop of [fat32_read]. *)
Fixpoint ffwd (clusterNum : nat) (cluster : Z) : M fs_state Z :=
  match clusterNum with
  | O => ret cluster
  | S n =>
      do cluster <- fat32_findnextcluster cluster;
      ffwd n cluster
  end.

(** [ata_readblocks (clusterBuffer, lba, count)]. *)
Definition read_clusterBuffer (lba count : Z) : M fs_state (list Z) :=
  do buf <- gets (fun s => bytes_of (clusterBuffer s));
  do (_, buf) <- lift_ata (ATA.ata_readblocks buf 0 lba count);
  do modify (fun s => with_clusterBuffer s (Some buf));
  ret buf.

(** The loop over the complete clusters: [while (read < bound)], where a
    turn adds [bytes_per_cluster] to [read]. *)
Fixpoint complete_clusters (turns : nat) (bound read cluster : Z)
    (ptr : list Z) : M fs_state (Z * Z * list Z) :=
  match turns with
  | O => ret (read, cluster, ptr)
  | S turns' =>
      if read <? bound then
        do f <- gets fat;
        do cluster <- fat32_findnextcluster cluster;
        let lba := calc_lba f cluster 0 in
        do buf <- read_clusterBuffer lba (blks_per_cluster f);
        let ptr :=
          memcpy ptr (Z.to_nat read) buf (Z.to_nat (bytes_per_cluster f)) in
        complete_clusters turns' bound (u32 (read + bytes_per_cluster f))
          cluster ptr
      else ret (read, cluster, ptr)
  end.

(** [fat32_read (fsdata, ptr, size, nmemb, fd)]: the return value and the
    destination buffer afterwards.  The loop over complete clusters gets
    [toRead / bytes_per_cluster + 1] turns, more than it can use on a
    mounted volume. *)
Definition fat32_read (ptr : list Z) (size nmemb : Z) (fd : Z)
  : M fs_state (Z * list Z) :=
  do h <- handle fd;
  do f <- gets fat;
  let read := 0 in
  let toRead := u32 (size * nmemb) in
  let toRead :=
    if u32 (file_length h + position h) <? toRead
    then u32 (file_length h + position h)
    else toRead in
  let clusterNum := position h / bytes_per_cluster f in
  do cluster <- ffwd (Z.to_nat clusterNum) (cluster h);
  let offsetInCluster := position h mod bytes_per_cluster f in
  let lba := calc_lba f cluster 0 in
  let toReadInCluster := u32 (bytes_per_cluster f - offsetInCluster) in
  do buf <- read_clusterBuffer lba
    (u32 (u32 (toReadInCluster + bytes_per_sector f - 1) / bytes_per_sector f
          * blks_per_sector f));
  let toReadInCluster :=
    if toRead <? toReadInCluster then toRead else toReadInCluster in
  let ptr :=
    memcpy ptr (Z.to_nat read) (drop (Z.to_nat offsetInCluster) buf)
      (Z.to_nat toReadInCluster) in
  let read := u32 (read + toReadInCluster) in
  do (read, cluster, ptr) <-
    complete_clusters (Z.to_nat (toRead / bytes_per_cluster f) + 1)
      (u32 (toRead / bytes_per_cluster f * bytes_per_cluster f))
      read cluster ptr;
  do (read, ptr) <-
    (if read <? toRead then
       do cluster <- fat32_findnextcluster cluster;
       let lba := calc_lba f cluster 0 in
       do buf <- read_clusterBuffer lba (blks_per_cluster f);
       ret (toRead, memcpy ptr (Z.to_nat read) buf (Z.to_nat (toRead - read)))
     else ret (read, ptr));
  do set_position fd (u32 (position h + toRead));
  ret (read / size, ptr).

Definition fat32_tell (fd : Z) : M fs_state Z :=
  do h <- handle fd;
  ret (s32 (position h)).

(** The [whence] argument of [fat32_seek]: the three constants of vfs.h,
    whose numeric values are not in the sources, and any other value. *)
Inductive whence_t : Type :=
  | VFS_SEEK_CUR
  | VFS_SEEK_SET
  | VFS_SEEK_END
  | VFS_SEEK_other (w : Z).

(** The [long offset] after the [switch] of [fat32_seek]. *)
Definition seek_target (h : fat32_file) (offset : Z) (whence : whence_t) : Z :=
  match whence with
  | VFS_SEEK_CUR => s32 (offset + position h)
  | VFS_SEEK_SET => offset
  | VFS_SEEK_END => s32 (offset + file_length h)
  | VFS_SEEK_other _ => offset
  end.

(** [fat32_seek]: [offset] is a [long]; in [offset > length] it is converted
    to the unsigned type of [length]. *)
Definition fat32_seek (fd : Z) (offset : Z) (whence : whence_t) : M fs_state Z :=
  match whence with
  | VFS_SEEK_other _ => ret (-2)
  | _ =>
      do h <- handle fd;
      let offset := seek_target h offset whence in
      if (offset <? 0) || (file_length h <? u32 offset) then ret (-1)
      else
        do set_position fd (u32 offset);
        ret 0
  end.

(** ** Mounting *)

(** The fields of the BPB that [fat32_newfs] reads. *)
Definition BPB_BytsPerSec (bpb : list Z) : Z := getLE16 bpb 11.
Definition BPB_SecPerClus (bpb : list Z) : Z := byte_at bpb 13.
Definition BPB_ResvdSecCnt (bpb : list Z) : Z := getLE16 bpb 14.
Definition BPB_NumFATs (bpb : list Z) : Z := byte_at bpb 16.
Definition BPB_RootEntCnt (bpb : list Z) : Z := getLE16 bpb 17.
Definition BPB_TotSec16 (bpb : list Z) : Z := getLE16 bpb 19.
Definition BPB_FATSz16 (bpb : list Z) : Z := getLE16 bpb 22.
Definition BPB_TotSec32 (bpb : list Z) : Z := getLE32 bpb 32.
Definition BPB_FATSz32 (bpb : list Z) : Z := getLE32 bpb 36.
Definition BPB_RootClus (bpb : list Z) : Z := getLE32 bpb 44.

Definition rootDirSectors (bpb : list Z) : Z :=
  u32 ((BPB_RootEntCnt bpb * 32 + (BPB_BytsPerSec bpb - 1))
       / BPB_BytsPerSec bpb).

Definition fatSz (bpb : list Z) : Z :=
  if negb (BPB_FATSz16 bpb =? 0) then BPB_FATSz16 bpb else BPB_FATSz32 bpb.

Definition totSec (bpb : list Z) : Z :=
  if negb (BPB_TotSec16 bpb =? 0) then BPB_TotSec16 bpb else BPB_TotSec32 bpb.

Definition firstDataSector (bpb : list Z) : Z :=
  u32 (BPB_ResvdSecCnt bpb + BPB_NumFATs bpb * fatSz bpb + rootDirSectors bpb).

Definition countofClusters (bpb : list Z) : Z :=
  u32 (totSec bpb - firstDataSector bpb) / BPB_SecPerClus bpb.

(** The two [switch] statements over the legal values. *)
Definition legal_BytsPerSec (v : Z) : bool :=
  (v =? 512) || (v =? 1024) || (v =? 2048) || (v =? 4096).

Definition legal_SecPerClus (v : Z) : bool :=
  (v =? 1) || (v =? 2) || (v =? 4) || (v =? 8) || (v =? 16) || (v =? 32)
  || (v =? 64) || (v =? 128).

(** [fat] after the block of assignments that follows the BPB arithmetic;
    [bits_per_fat_entry] and [root_dir_first_cluster] are still zero
    there. *)
Definition fat_geometry (offset : Z) (bpb : list Z) : fat_t :=
  mk_fat offset (fatSz bpb) 0 (rootDirSectors bpb)
    (u32 (BPB_BytsPerSec bpb * BPB_SecPerClus bpb))
    (BPB_BytsPerSec bpb)
    (u16 (BPB_BytsPerSec bpb / 512))
    (u16 (u32 (BPB_BytsPerSec bpb * BPB_SecPerClus bpb) / 512))
    (BPB_ResvdSecCnt bpb)
    (BPB_SecPerClus bpb)
    (BPB_RootEntCnt bpb)
    (u16 (BPB_BytsPerSec bpb / 32))
    (u8 (BPB_NumFATs bpb))
    0 (filehandles fat_zero) (numHandles fat_zero).

Definition set_fat_type (f : fat_t) (bits root : Z) : fat_t :=
  mk_fat (offset f) (sectors_per_fat f) root
    (data_area_offset f) (bytes_per_cluster f) (bytes_per_sector f)
    (blks_per_sector f) (blks_per_cluster f) (number_of_reserved_sectors f)
    (sectors_per_cluster f) (entries_in_rootdir f) (entries_per_sector f)
    (number_of_fats f) bits (filehandles f) (numHandles f).

(** [fat32_newfs (part, offset)].  [bpb] is a fresh 4096-byte allocation,
    taken zero-filled; [vfs_registerfs] (vfs.c, not in the sources) is
    recorded as the pair it is handed. *)
Definition fat32_newfs (part offset : Z) : M fs_state unit :=
  do modify (fun s =>
    with_fat s (mk_fat offset 0 0 0 0 0 0 0 0 0 0 0 0 0
                  (filehandles fat_zero) (numHandles fat_zero)));
  do (_, bpb) <- lift_ata
    (ATA.ata_readblocks (replicate 4096 0) 0 offset 1);
  if negb (getLE16 bpb 510 =? 0xAA55) then halt Diag_not_fat_superblock
  else if negb (legal_BytsPerSec (BPB_BytsPerSec bpb)) then
    halt (Diag_invalid_BytsPerSec (BPB_BytsPerSec bpb))
  else
    do modify (fun s =>
      with_fat s (mk_fat offset 0 0 0 0 (BPB_BytsPerSec bpb) 0 0 0 0 0 0 0 0
                    (filehandles fat_zero) (numHandles fat_zero)));
    if negb (legal_SecPerClus (BPB_SecPerClus bpb)) then
      halt (Diag_invalid_SecPerClus (BPB_SecPerClus bpb))
    else
      do modify (fun s => with_fat s (fat_geometry offset bpb));
      if countofClusters bpb <? 4085 then
        halt (Diag_fat12 (countofClusters bpb))
      else
        do modify (fun s =>
          with_fat s
            (if countofClusters bpb <? 65525 then
               set_fat_type (fat s) 16
                 (u16 (BPB_ResvdSecCnt bpb
                       + BPB_NumFATs bpb * BPB_FATSz16 bpb))
             else set_fat_type (fat s) 32 (BPB_RootClus bpb)));
        do modify (fun s =>
          mk_fs (fat s)
            (match clusterBuffer s with
             | None =>
                 Some (replicate (Z.to_nat (bytes_per_cluster (fat s))) 0)
             | Some b => Some b
             end)
            (Some bpb) (gSecNumInFATBuf s) (longname s) (registered s)
            (ata s));
        modify (fun s => with_registered s ((u8 part, FAT32_tag) :: registered s)).

End FAT32.

(** * Requests to the block driver *)

Module Requests.
Import ATA.

(** The three entry points callers read through. *)
Inductive request : Type :=
  | ReadBlock (sector : Z)
  | ReadBlocks (sector count : Z)
  | ReadBlocksUncached (sector count : Z).

Definition is_cached (r : request) : bool :=
  match r with ReadBlocksUncached _ _ => false | _ => true end.

(** One request, read into a fresh zero-filled buffer of the size asked
    for. *)
Definition serve (r : request) : M ata_state (Z * list Z) :=
  match r with
  | ReadBlock sector =>
      ata_readblock (replicate (Z.to_nat BLOCK_SIZE) 0) sector
  | ReadBlocks sector count =>
      ata_readblocks (replicate (Z.to_nat (count * BLOCK_SIZE)) 0) 0 sector count
  | ReadBlocksUncached sector count =>
      ata_readblocks_uncached (replicate (Z.to_nat (count * BLOCK_SIZE)) 0) 0
        sector count
  end.

Fixpoint serve_all (rs : list request) : M ata_state unit :=
  match rs with
  | [] => ret tt
  | r :: rs' => do serve r; serve_all rs'
  end.

(** The checksum as the IDENTIFY comment of ata2.c words it: the sum of
    all 512 bytes of the response. *)
Definition sum_of_bytes (buff : list Z) : Z := sum_of (take 512 buff).

(** The checksum as the specification words it: the sum of all 256 16-bit
    words of the response. *)
Definition sum_of_words (buff : list Z) : Z :=
  sum_of (map (word_at buff) (seq 0 256)).

(** A buffer of bytes. *)
Definition all_bytes (buff : list Z) : Prop :=
  Forall (fun b => 0 <= b < 2 ^ 8) buff.

(** A read command whose start and length are multiples of [2^k]. *)
Definition aligned (k : Z) (c : hw_cmd) : Prop :=
  is_read_cmd c = true /\ cmd_lba c mod 2 ^ k = 0 /\ cmd_count c mod 2 ^ k = 0.

(** The commands a run latched on top of those of the state it started
    from are all aligned reads. *)
Definition issues_aligned {A : Type} (k : Z) (st : ata_state)
    (r : res ata_state A) : Prop :=
  exists new, hw_log (hw (final r)) = new ++ hw_log (hw st)
              /\ Forall (aligned k) new.

(** Since the log was [L], only aligned reads were latched, on a drive
    configured with [alignment_log2 = k]. *)
Definition aligned_since (k : Z) (L : list hw_cmd) (st : ata_state) : Prop :=
  alignment_log2 (ATAdev st) = k
  /\ exists new, hw_log (hw st) = new ++ L /\ Forall (aligned k) new.

(** At most one slot of the cache maps a valid sector. *)
Definition one_slot_per_sector (st : ata_state) : Prop :=
  forall i j : nat,
    (i < CACHE_NUMBLOCKS)%nat -> (j < CACHE_NUMBLOCKS)%nat ->
    cacheaddr st !!! i = cacheaddr st !!! j ->
    cacheaddr st !!! i <> not32 0 ->
    i = j.

(** The same cache and the same device description. *)
Definition same_driver (st st' : ata_state) : Prop :=
  cachedata st' = cachedata st /\ cacheaddr st' = cacheaddr st
  /\ cachetick st' = cachetick st /\ cacheticks st' = cacheticks st
  /\ ATAdev st' = ATAdev st.

(** The log of latched commands and the device description are the given
    ones. *)
Definition quiet (L : list hw_cmd) (D : ATAdev_t) (st : ata_state) : Prop :=
  hw_log (hw st) = L /\ ATAdev st = D.

(** From [st] to [st'] the device description is kept and at most one
    command, a read, is latched. *)
Definition log_step (st st' : ata_state) : Prop :=
  ATAdev st' = ATAdev st
  /\ (hw_log (hw st') = hw_log (hw st)
      \/ exists c, is_read_cmd c = true /\ hw_log (hw st') = c :: hw_log (hw st)).

(** The address and tick tables have their sixteen entries. *)
Definition cache_shape (st : ata_state) : Prop :=
  length (cacheaddr st) = CACHE_NUMBLOCKS
  /\ length (cachetick st) = CACHE_NUMBLOCKS.

Definition cache_inv (st : ata_state) : Prop :=
  cache_shape st /\ one_slot_per_sector st.

(** The tick counter lies between [lo] and [hi]. *)
Definition ticks_in (lo hi : Z) (st : ata_state) : Prop :=
  lo <= cacheticks st <= hi.

(** The sector [s] is in no slot. *)
Definition absent (s : Z) (st : ata_state) : Prop :=
  forall v, (v < CACHE_NUMBLOCKS)%nat -> cacheaddr st !!! v <> s.

(** Every slot that maps [s] holds the bytes [B]. *)
Definition holds (s : Z) (B : list Z) (st : ata_state) : Prop :=
  forall v, (v < CACHE_NUMBLOCKS)%nat ->
            cacheaddr st !!! v = s -> cachedata st !!! v = B.

Definition data_shape (st : ata_state) : Prop :=
  length (cachedata st) = CACHE_NUMBLOCKS.

(** The slots whose tick is below the tick counter. *)
Definition older_slots (st : ata_state) : list nat :=
  List.filter (fun v => cachetick st !!! v <? cacheticks st)
    (seq 0 CACHE_NUMBLOCKS).

(** Sixteen ticks, none above the tick counter, which lies between [lo]
    and [hi]. *)
Definition ticks_below (lo hi : Z) (st : ata_state) : Prop :=
  length (cachetick st) = CACHE_NUMBLOCKS
  /\ (forall v, (v < CACHE_NUMBLOCKS)%nat ->
                cachetick st !!! v <= cacheticks st)
  /\ ticks_in lo hi st.

End Requests.

(** * Properties of the FAT driver state *)

Module FAT_props.
Import FAT32.

(** The origin an offset is relative to. *)
Definition seek_base (h : fat32_file) (whence : whence_t) : Z :=
  match whence with
  | VFS_SEEK_CUR => position h
  | VFS_SEEK_SET => 0
  | VFS_SEEK_END => file_length h
  | VFS_SEEK_other _ => 0
  end.

(** The handle with its position moved. *)
Definition moved (h : fat32_file) (pos : Z) : fat32_file :=
  mk_file (cluster h) (opened h) pos (file_length h).

(** The state with the handle in slot [fd] replaced. *)
Definition with_handle (s : fs_state) (fd : Z) (h : fat32_file) : fs_state :=
  with_fat s
    (set_handles (fat s) (<[Z.to_nat fd := Some h]> (filehandles (fat s)))
       (numHandles (fat s))).

(** The state with the count of open handles replaced and nothing else. *)
Definition set_count (n : Z) (s : fs_state) : fs_state :=
  with_fat s (set_handles (fat s) (filehandles (fat s)) n).

(** A run carried over to states changed by [f]. *)
Definition map_state {S A : Type} (f : S -> S) (r : res S A) : res S A :=
  match r with
  | Ok a s => Ok a (f s)
  | Halt d s => Halt d (f s)
  end.

(** [m] neither reads nor writes what [f] changes: run after [f], it does
    what it does without, and [f] can be applied afterwards. *)
Definition blind_to {A : Type} (f : fs_state -> fs_state) (m : M fs_state A)
  : Prop :=
  forall s, m (f s) = map_state f (m s).

(** [f] keeps the geometry of the volume, the buffers and the block driver,
    and commutes with the writes to them. *)
Record frame (f : fs_state -> fs_state) : Prop := mk_frame {
  fr_fat : forall s, exists hs n, fat (f s) = set_handles (fat s) hs n;
  fr_clusterBuffer : forall s, clusterBuffer (f s) = clusterBuffer s;
  fr_FATSectorBuf : forall s, gFATSectorBuf (f s) = gFATSectorBuf s;
  fr_SecNum : forall s, gSecNumInFATBuf (f s) = gSecNumInFATBuf s;
  fr_ata : forall s, ata (f s) = ata s;
  fr_with_ata : forall s a, with_ata (f s) a = f (with_ata s a);
  fr_with_clusterBuffer :
    forall s b, with_clusterBuffer (f s) b = f (with_clusterBuffer s b);
  fr_with_FATSectorBuf :
    forall s b n, with_FATSectorBuf (f s) b n = f (with_FATSectorBuf s b n)
}.

(** The state in which [fat32_newfs] reads the BPB: [fat] reset, with only
    the partition offset set. *)
Definition newfs_reset (offset : Z) (s : fs_state) : fs_state :=
  with_fat s (mk_fat offset 0 0 0 0 0 0 0 0 0 0 0 0 0
                (filehandles fat_zero) (numHandles fat_zero)).

(** The read of the first block of the partition that [fat32_newfs] starts
    with. *)
Definition read_bpb (offset : Z) : M fs_state (Z * list Z) :=
  lift_ata (ATA.ata_readblocks (replicate 4096 0) 0 offset 1).

(** The legal values of the two fields, as the specification lists them. *)
Definition sector_sizes : list Z := [512; 1024; 2048; 4096].

Definition power_of_two_upto_128 (v : Z) : Prop :=
  exists k, 0 <= k <= 7 /\ v = 2 ^ k.

(** What a run leaves when it ends without a file system registered. *)
Definition rejected_with (d : diagnostic) (s : fs_state) (r : res fs_state unit)
  : Prop :=
  exists s', r = Halt d s' /\ registered s' = registered s.

(** What a run leaves when it ends with the partition registered, with
    [bits] bits a FAT entry and the root directory at [root]. *)
Definition mounted_as (part bits root : Z) (s : fs_state)
    (r : res fs_state unit) : Prop :=
  exists s',
    r = Ok tt s'
    /\ bits_per_fat_entry (fat s') = bits
    /\ root_dir_first_cluster (fat s') = root
    /\ registered s' = (u8 part, FAT32_tag) :: registered s.

(** ** Long file names *)

(** The raw entries that [getNextRawEntry] hands out one after the other
    from a position in a directory on, with the position and the state it
    ends in. *)
Inductive yields
  : dir_state -> fs_state -> list (list Z) -> dir_state -> fs_state -> Prop :=
  | yields_nil d s : yields d s [] d s
  | yields_cons d s e d1 s1 es d2 s2 :
      getNextRawEntry d s = Ok (Some e, d1) s1 ->
      yields d1 s1 es d2 s2 ->
      yields d s (e :: es) d2 s2.

(** What a raw entry is, by its first byte and its attribute byte. *)
Inductive entry_kind : Type :=
  | Kind_end
  | Kind_deleted
  | Kind_fragment
  | Kind_normal.

Definition kind_of (entry : list Z) : entry_kind :=
  if byte_at entry 0 =? 0 then Kind_end
  else if byte_at entry 0 =? 0xE5 then Kind_deleted
  else if byte_at entry 0x0B =? 0x0F then Kind_fragment
  else Kind_normal.

Definition is_fragment (entry : list Z) : bool :=
  match kind_of entry with Kind_fragment => true | _ => false end.

(** Bits 0-4 of the sequence byte of a fragment, and the place in the
    assembled name they stand for. *)
Definition seq_number (slot : list Z) : Z := Z.land (byte_at slot 0) 0x1F.
Definition name_offset (slot : list Z) : Z := 13 * (seq_number slot - 1).

(** A usable sequence byte: number 1 to 19, bit 7 clear. *)
Definition seq_ok (slot : list Z) : bool :=
  (1 <=? seq_number slot) && (seq_number slot <=? 19)
  && (Z.land (byte_at slot 0) 0x80 =? 0).

(** The first physical fragment of a group: a usable sequence byte with
    bit 6 set. *)
Definition first_physical (slot : list Z) : bool :=
  seq_ok slot && negb (Z.land (byte_at slot 0) 0x40 =? 0).

Definition alias_checksum (slot : list Z) : Z := byte_at slot 13.

(** The first [n] little-endian UCS-2 code units of a byte string. *)
Fixpoint ucs2 (bytes : list Z) (n : nat) : list Z :=
  match n with
  | O => []
  | S n' => getLE16 bytes 0 :: ucs2 (drop 2 bytes) n'
  end.

(** The thirteen code units of a fragment. *)
Definition code_units (slot : list Z) : list Z :=
  ucs2 (take 10 (drop 1 slot)) 5 ++ ucs2 (take 12 (drop 14 slot)) 6
  ++ ucs2 (take 4 (drop 28 slot)) 2.

Definition printable_ascii (u : Z) : bool := (0x20 <=? u) && (u <=? 0x7E).

(** A code unit the driver takes: the terminator, the padding after it, or
    printable ASCII. *)
Definition mappable (u : Z) : bool :=
  (u =? 0x0000) || (u =? 0xFFFF) || printable_ascii u.

(** The character a code unit becomes in the assembled name. *)
Definition as_char (u : Z) : Z :=
  if (u =? 0x0000) || (u =? 0xFFFF) then 0
  else if printable_ascii u then u
  else 95.

Definition fragment_ok (slot : list Z) : bool :=
  seq_ok slot && forallb mappable (code_units slot).

(** The fragments from the last first-physical one on; none if there is no
    such fragment. *)
Fixpoint last_group (slots : list (list Z)) : list (list Z) :=
  match slots with
  | [] => []
  | sl :: rest =>
      match last_group rest with
      | [] => if first_physical sl then sl :: rest else []
      | g => g
      end
  end.

(** The name buffer a group assembles: each fragment's thirteen characters
    at its offset, over a zeroed buffer. *)
Definition assembled (group : list (list Z)) : list Z :=
  fold_left
    (fun buf sl =>
       memcpy buf (Z.to_nat (name_offset sl)) (map as_char (code_units sl)) 13)
    group (replicate 256 0).

(** The condition under which the long name goes with [entry]. *)
Definition name_attached (slots : list (list Z)) (entry : list Z) : bool :=
  match last_group slots with
  | [] => false
  | first :: rest =>
      forallb fragment_ok (first :: rest)
      && (alias_checksum first =? lfn_checksum entry)
  end.

(** The locals and the name buffer after the fragments [slots]. *)
Definition collect (slots : list (list Z)) (loc : lfn_locals) (buf : list Z)
  : lfn_locals * list Z :=
  fold_left (fun lb sl => lfn_slot sl (fst lb) (snd lb)) slots (loc, buf).

(** The entry a run of [getNextCompleteEntry] hands back, if it does. *)
Definition entry_of (r : res fs_state (dir_result * dir_state))
  : option dir_entry :=
  match r with
  | Ok (Entry e, _) _ => Some e
  | _ => None
  end.

End FAT_props.

(** * Test drives

    Concrete drives and volumes on which the functions above are run. *)

Module Examples.
Import ATA.

(** The two bytes of a word in memory order. *)
Definition bytes_of_words (ws : list Z) : list Z :=
  flat_map (fun w => [w mod 2 ^ 8; w / 2 ^ 8]) ws.

(** An IDENTIFY DEVICE response: the model string in words 27-46 (two
    characters a word, the first in the high byte), bit 10 of word 83 for
    LBA48, the sector count in words 60-61 and 100-103, and [w255] as the
    integrity word. *)
Definition identify_words (model : list Z) (is48 : bool) (nsectors w255 : Z)
  : list Z :=
  map (fun i : nat =>
         if (27 <=? i)%nat && (i <? 47)%nat then
           nth (2 * (i - 27)) model 32 * 2 ^ 8 + nth (2 * (i - 27) + 1) model 32
         else if (i =? 83)%nat then (if is48 then 2 ^ 10 else 0)
         else if (i =? 60)%nat then nsectors mod 2 ^ 16
         else if (i =? 61)%nat then nsectors / 2 ^ 16 mod 2 ^ 12
         else if (i =? 100)%nat then nsectors mod 2 ^ 16
         else if (i =? 101)%nat then nsectors / 2 ^ 16 mod 2 ^ 16
         else if (i =? 102)%nat then nsectors / 2 ^ 32 mod 2 ^ 16
         else if (i =? 255)%nat then w255
         else 0)
      (seq 0 256).

(** The integrity word that makes the 512 bytes of a response add up to
    zero modulo 256: signature [0xA5] below, checksum above. *)
Definition integrity_word (model : list Z) (is48 : bool) (nsectors : Z) : Z :=
  let s := sum_of (bytes_of_words (identify_words model is48 nsectors 0xA5)) in
  (- s) mod 2 ^ 8 * 2 ^ 8 + 0xA5.

(** A medium whose block [lba] is 512 copies of [lba mod 251]. *)
Definition plain_disk (lba : Z) : list Z :=
  replicate 512 (lba mod 251).

Definition drive (disk : Z -> list Z) (model : string) (is48 : bool)
    (nsectors w255 : Z) : hw_state :=
  mk_hw disk (bytes_of_words (identify_words (chars model) is48 nsectors w255))
    (fun _ => 0) NoData [].

(** The driver before [ata_init]: zeroed statics, unallocated cache. *)
Definition power_on (h : hw_state) : ata_state :=
  mk_ata [] [] [] 0 0 0 0 (mk_dev [0; 0; 0] 0 0 0) h.

(** Bring-up as the loader does it: [ata_init], then [ata_identify]. *)
Definition bring_up : M ata_state unit :=
  do ata_init; ata_identify.

(** A 30 GB LBA28 drive, a 30 GB LBA48 drive, and the 80 GB drive of the
    iPod 5.5G whose model string turns the two-block alignment on. *)
Definition drive_lba28 : hw_state :=
  drive plain_disk "HITACHI HTC426030G5CE00" false 58605120 0.
Definition drive_lba48 : hw_state :=
  drive plain_disk "HITACHI HTC426030G5CE00" true 58605120 0.
Definition drive_toshiba : hw_state :=
  drive plain_disk "TOSHIBA MK8010GAH" true 156301488 0.

(** The 30 GB LBA28 drive again, now with the integrity word of ATA-6 in
    its response. *)
Definition drive_checksummed : hw_state :=
  drive plain_disk "HITACHI HTC426030G5CE00" false 58605120
    (integrity_word (chars "HITACHI HTC426030G5CE00") false 58605120).

(** The same response with the checksum byte zeroed. *)
Definition drive_bad_checksum : hw_state :=
  drive plain_disk "HITACHI HTC426030G5CE00" false 58605120 0x00A5.

Definition ata_lba28 : ata_state := final (bring_up (power_on drive_lba28)).
Definition ata_lba48 : ata_state := final (bring_up (power_on drive_lba48)).
Definition ata_toshiba : ata_state := final (bring_up (power_on drive_toshiba)).

(** *** A FAT32 volume

    A partition at LBA 63 with 512-byte sectors, one sector a cluster, 32
    reserved sectors, two FATs of 550 sectors and 70000 sectors in all, which
    makes 68868 clusters.  Its root directory (cluster 2) holds one file,
    "Hello World.txt", 700 bytes in clusters 3 and 4. *)

(** [chunk] laid over [base] at byte offset [off]. *)
Definition overlay (base : list Z) (off : nat) (chunk : list Z) : list Z :=
  memcpy base off chunk (length chunk).

Definition le16 (v : Z) : list Z := [v mod 2 ^ 8; v / 2 ^ 8 mod 2 ^ 8].
Definition le32 (v : Z) : list Z :=
  [v mod 2 ^ 8; v / 2 ^ 8 mod 2 ^ 8; v / 2 ^ 16 mod 2 ^ 8; v / 2 ^ 24 mod 2 ^ 8].

Definition zero_block : list Z := replicate 512 0.

Definition bpb_fat32 : list Z :=
  overlay (overlay (overlay (overlay (overlay (overlay (overlay (overlay
    (overlay zero_block
       11 (le16 512))
       13 [1])
       14 (le16 32))
       16 [2])
       32 (le32 70000))
       36 (le32 550))
       44 (le32 2))
       510 (le16 0xAA55))
       3 (chars "MSDOS5.0").

(** The first sector of the FAT: clusters 0 and 1 reserved, 2 ends the root
    directory, 3 continues in 4, 4 ends the file. *)
Definition fat_sector0 : list Z :=
  overlay zero_block 0
    (le32 0x0FFFFFF8 ++ le32 0x0FFFFFFF ++ le32 0x0FFFFFFF ++ le32 4
     ++ le32 0x0FFFFFFF).

(** UCS-2 code units of a name fragment, padded with one terminator and
    then [0xFFFF] to thirteen. *)
Definition ucs2_padded (cs : list Z) : list Z :=
  flat_map le16 (take 13 (cs ++ (if (length cs <? 13)%nat then [0] else [])
                            ++ replicate 13 0xFFFF)).

(** A long-file-name slot: sequence byte, thirteen code units, checksum. *)
Definition lfn_entry (seq : Z) (cs : list Z) (sum : Z) : list Z :=
  let u := ucs2_padded cs in
  [seq] ++ take 10 u ++ [0x0F; 0; sum] ++ take 12 (drop 10 u) ++ [0; 0]
  ++ drop 22 u.

(** A normal entry: eleven name bytes, attributes, first cluster, length. *)
Definition short_entry (name : list Z) (attr cluster len : Z) : list Z :=
  overlay (overlay (overlay (overlay
    (name ++ [attr] ++ replicate 20 0)
       20 (le16 (cluster / 2 ^ 16)))
       26 (le16 (cluster mod 2 ^ 16)))
       28 (le32 len))
       0 name.

Definition hello_short : list Z := chars "HELLOW~1TXT".

(** The root directory: the two slots of the long name, highest first, the
    8.3 entry they belong to, then the end marker. *)
Definition hello_fragment2 (sum : Z) : list Z :=
  lfn_entry 0x42 (chars "xt") sum.
Definition hello_fragment1 (sum : Z) : list Z :=
  lfn_entry 0x01 (chars "Hello World.t") sum.
Definition hello_entry : list Z := short_entry hello_short 0x20 3 700.

Definition root_dir_with (sum2 sum1 : Z) : list Z :=
  overlay zero_block 0
    (hello_fragment2 sum2 ++ hello_fragment1 sum1 ++ hello_entry).

Definition root_dir (sum : Z) : list Z := root_dir_with sum sum.

Definition fat32_disk (root : list Z) (lba : Z) : list Z :=
  if lba =? 63 then bpb_fat32
  else if lba =? 63 + 32 then fat_sector0
  else if lba =? 63 + 1132 then root
  else plain_disk lba.

Definition volume_drive (root : list Z) : hw_state :=
  drive (fat32_disk root) "HITACHI HTC426030G5CE00" false 58605120 0.

(** The statics of fat32.c before the first mount. *)
Definition fs_power_on (h : hw_state) : FAT32.fs_state :=
  FAT32.mk_fs FAT32.fat_zero None None (u32 (-1)) (replicate 256 0) []
    (power_on h).

(** Bring-up of the drive, then [fat32_newfs (1, 63)]. *)
Definition mount : M FAT32.fs_state unit :=
  do FAT32.lift_ata bring_up;
  FAT32.fat32_newfs 1 63.

(** The drive of the volume brought up, before the mount. *)
Definition volume_up : FAT32.fs_state :=
  final (FAT32.lift_ata bring_up
           (fs_power_on
              (volume_drive (root_dir (FAT32.lfn_checksum hello_short))))).

(** The volume whose long name carries the right checksum, mounted. *)
Definition hello_volume : FAT32.fs_state :=
  final (mount (fs_power_on
                  (volume_drive (root_dir (FAT32.lfn_checksum hello_short))))).

(** A volume whose second fragment carries another checksum than the
    first, mounted. *)
Definition skewed_volume : FAT32.fs_state :=
  final (mount (fs_power_on
                  (volume_drive
                     (root_dir_with (FAT32.lfn_checksum hello_short)
                        (u8 (FAT32.lfn_checksum hello_short + 1)))))).

(** The start of the root directory of these volumes. *)
Definition root_start : FAT32.dir_state := FAT32.mk_dir 1 0 2.

(** Seek to [pos], read [nmemb] items of [size] bytes, and ask for the
    position: the count returned, the position, and the bytes read. *)
Definition seek_read_tell (pos size nmemb : Z)
  : M FAT32.fs_state (Z * Z * list Z) :=
  do FAT32.fat32_seek 0 pos FAT32.VFS_SEEK_SET;
  do (n, buf) <- FAT32.fat32_read (replicate (Z.to_nat (size * nmemb)) 0)
                   size nmemb 0;
  do p <- FAT32.fat32_tell 0;
  ret (n, p, buf).

(** The file of the volume, as [fat32_findfile] allocates it. *)
Definition hello_file : FAT32.fat32_file := FAT32.mk_file 3 1 0 700.

(** The volume with the file opened. *)
Definition hello_opened : FAT32.fs_state :=
  final (FAT32.fat32_open (Some hello_file) hello_volume).

(** The read commands in a log, oldest first. *)
Definition reads_of (st : ata_state) : list hw_cmd :=
  rev (filter (fun c => is_read_cmd c = true) (hw_log (hw st))).

(** The Toshiba drive after bring-up and one cached read, of sector 100. *)
Definition ata_toshiba_warm : ata_state :=
  final (ata_readblock [] 100 ata_toshiba).

(** A file of [0xF0000000] bytes, as [fat32_findfile] allocates it, and the
    volume with it opened. *)
Definition large_file : FAT32.fat32_file := FAT32.mk_file 3 1 0 0xF0000000.

Definition large_opened : FAT32.fs_state :=
  final (FAT32.fat32_open (Some large_file) hello_volume).

End Examples.

(** * Facts about the monad *)

Section MonadFacts.
Context {S : Type}.

Lemma preserves_ret {A} (P : S -> Prop) (a : A) : preserves P (ret a).
Proof. intros s H. exact H. Qed.

Lemma preserves_halt {A} (P : S -> Prop) d : preserves P (@halt S A d).
Proof. intros s H. exact H. Qed.

Lemma preserves_gets {A} (P : S -> Prop) (f : S -> A) : preserves P (gets f).
Proof. intros s H. exact H. Qed.

Lemma preserves_modify (P : S -> Prop) (f : S -> S) :
  (forall s, P s -> P (f s)) -> preserves P (modify f).
Proof. intros Hf s H. apply Hf, H. Qed.

Lemma preserves_bind {A B} (P : S -> Prop) (m : M S A) (k : A -> M S B) :
  preserves P m -> (forall a, preserves P (k a)) -> preserves P (bind m k).
Proof.
  intros Hm Hk s H. unfold bind. specialize (Hm s H).
  destruct (m s) as [a s'|d s']; simpl in *.
  - apply Hk, Hm.
  - exact Hm.
Qed.

Lemma preserves_when (P : S -> Prop) (b : bool) (m : M S unit) :
  preserves P m -> preserves P (when b m).
Proof. intros Hm. destruct b; [exact Hm | apply preserves_ret]. Qed.

Lemma hoare_bind {A B} (P R Q : S -> Prop) (m : M S A) (k : A -> M S B) :
  hoare P m R -> (forall s, R s -> Q s) -> (forall a, hoare R (k a) Q) ->
  hoare P (bind m k) Q.
Proof.
  intros Hm HRQ Hk s H. unfold bind. specialize (Hm s H).
  destruct (m s) as [a s'|d s']; simpl in *.
  - apply Hk, Hm.
  - apply HRQ, Hm.
Qed.

Lemma preserves_hoare {A} (P : S -> Prop) (m : M S A) :
  preserves P m -> hoare P m P.
Proof. intros H; exact H. Qed.

Lemma bind_run {A B} (m : M S A) (k : A -> M S B) s :
  bind m k s
  = match m s with Ok a s' => k a s' | Halt d s' => Halt d s' end.
Proof. reflexivity. Qed.

Lemma bind_ok {A B} (m : M S A) (k : A -> M S B) s b s2 :
  bind m k s = Ok b s2 ->
  exists a s1, m s = Ok a s1 /\ k a s1 = Ok b s2.
Proof.
  unfold bind. destruct (m s) as [a s1|d s1]; [eauto | discriminate].
Qed.
Lemma ok_run_pair {A B} (r : res S (A * B)) (d : A * B) :
  is_ok r = true ->
  r = Ok (fst (value_of r d), snd (value_of r d)) (final r).
Proof. destruct r as [[a b] s | dg s]; [reflexivity | discriminate]. Qed.
Lemma ok_run_value {A} (r : res S A) (d v : A) :
  is_ok r = true -> value_of r d = v -> r = Ok v (final r).
Proof.
  destruct r as [a s | dg s]; cbn; [intros _ <-; reflexivity | discriminate].
Qed.

End MonadFacts.

Ltac preserve :=
  repeat lazymatch goal with
    | |- preserves _ (ret _) => apply preserves_ret
    | |- preserves _ (halt _) => apply preserves_halt
    | |- preserves _ (gets _) => apply preserves_gets
    | |- preserves _ (when _ _) => apply preserves_when
    | |- preserves _ (bind _ _) => apply preserves_bind; [| intros ?]
    | |- preserves _ (match ?x with (_, _) => _ end) => destruct x
    | |- preserves _ (if ?b then _ else _) => destruct b
    end.

(** * Facts about the block driver *)

Module ATA_facts.
Import ATA Requests.

(** ** Bytes of a word *)

Lemma u8_byte0 x : u8 (Z.shiftr (Z.land x 0xFF) 0) = x mod 2 ^ 8.
Proof.
  rewrite Z.shiftr_0_r. change 0xFF with (Z.ones 8).
  rewrite Z.land_ones by lia. unfold u8. now rewrite Z.mod_mod by lia.
Qed.

Lemma u8_byte_n x m n :
  0 <= n -> Z.shiftr m n = Z.ones 8 ->
  u8 (Z.shiftr (Z.land x m) n) = (x / 2 ^ n) mod 2 ^ 8.
Proof.
  intros Hn Hm. rewrite Z.shiftr_land, Hm, Z.land_ones by lia.
  rewrite Z.shiftr_div_pow2 by lia. unfold u8. now rewrite Z.mod_mod by lia.
Qed.

Lemma recompose32 x :
  0 <= x < 2 ^ 32 ->
  (x / 2 ^ 24) mod 2 ^ 8 * 2 ^ 24 + (x / 2 ^ 16) mod 2 ^ 8 * 2 ^ 16
  + (x / 2 ^ 8) mod 2 ^ 8 * 2 ^ 8 + x mod 2 ^ 8 = x.
Proof.
  intros H. change (2 ^ 24) with 16777216. change (2 ^ 16) with 65536.
  change (2 ^ 8) with 256. change (2 ^ 32) with 4294967296 in H.
  Z.div_mod_to_equations. lia.
Qed.

(** The device/head register of an LBA28 read gives back bits 24-27. *)
Lemma devhead_nibble x :
  0 <= x < 2 ^ 28 ->
  Z.land
    (u8 (Z.lor (Z.lor (Z.lor 0xA0 LBA_ADDRESSING) DEVICE_0)
           (Z.shiftr (Z.land x 0x0F000000) 24))) 0x0F
  = x / 2 ^ 24.
Proof.
  intros H. rewrite Z.shiftr_land.
  change (Z.shiftr 0x0F000000 24) with (Z.ones 4).
  rewrite Z.land_ones, Z.shiftr_div_pow2 by lia.
  assert (Hd : 0 <= x / 2 ^ 24 < 16).
  { change (2 ^ 24) with 16777216. change (2 ^ 28) with 268435456 in H.
    Z.div_mod_to_equations. lia. }
  rewrite (Z.mod_small _ (2 ^ 4)) by (change (2 ^ 4) with 16; lia).
  set (h := x / 2 ^ 24) in *.
  assert (Hc : h = 0 \/ h = 1 \/ h = 2 \/ h = 3 \/ h = 4 \/ h = 5 \/ h = 6
               \/ h = 7 \/ h = 8 \/ h = 9 \/ h = 10 \/ h = 11 \/ h = 12
               \/ h = 13 \/ h = 14 \/ h = 15) by lia.
  repeat destruct Hc as [Hc | Hc]; rewrite Hc; reflexivity.
Qed.

(** ** The alignment arithmetic of [ata_readblock2] *)

Lemma one_shl_pow2 k : 0 <= k < 32 -> one_shl k = 2 ^ k.
Proof.
  intros Hk. unfold one_shl, u32. rewrite Z.shiftl_1_l.
  apply Z.mod_small. split; [lia |]. apply Z.pow_lt_mono_r; lia.
Qed.

Lemma sector_mask_land s k :
  0 <= s < 2 ^ 32 -> 0 <= k < 32 ->
  Z.land s (not32 (u32 (one_shl k - 1))) = 2 ^ k * (s / 2 ^ k).
Proof.
  intros Hs Hk. rewrite one_shl_pow2 by lia. unfold not32, u32.
  assert (0 < 2 ^ k <= 2 ^ 31).
  { split; [lia |]. apply Z.pow_le_mono_r; lia. }
  rewrite (Z.mod_small (2 ^ k - 1)) by lia.
  replace (2 ^ k - 1) with (Z.ones k) by (rewrite Z.ones_equiv; lia).
  rewrite <- (Z.land_ones (Z.lnot _)) by lia.
  rewrite (Z.land_comm (Z.lnot _)), Z.land_assoc, (Z.land_ones s) by lia.
  rewrite Z.mod_small by lia.
  rewrite <- Z.ldiff_land, Z.ldiff_ones_r by lia.
  rewrite Z.shiftl_mul_pow2, Z.shiftr_div_pow2 by lia. lia.
Qed.

Lemma sector_to_read_bounds s k :
  0 <= s < 2 ^ 32 -> 0 <= k < 32 ->
  0 <= 2 ^ k * (s / 2 ^ k) <= s.
Proof.
  intros Hs Hk. assert (0 < 2 ^ k) by lia.
  pose proof (Z.mul_div_le s (2 ^ k) ltac:(lia)).
  pose proof (Z.div_pos s (2 ^ k) ltac:(lia) ltac:(lia)). nia.
Qed.

(** ** What a read command leaves behind *)

Lemma ata_send_read_command_any lba count st :
  exists st' c,
    ata_send_read_command lba count st = Ok tt st'
    /\ same_driver st st'
    /\ hw_disk (hw st') = hw_disk (hw st)
    /\ is_read_cmd c = true
    /\ hw_log (hw st') = c :: hw_log (hw st).
Proof.
  unfold ata_send_read_command, ata_command, outb, when, bind, modify, gets.
  cbn. destruct (lba48 (ATAdev st) =? 0); cbn;
    (do 2 eexists; split; [reflexivity |];
     repeat split; reflexivity).
Qed.

Lemma lba28_from_regs lba :
  0 <= lba < 2 ^ 28 ->
  Z.land
    (u8 (Z.lor (Z.lor (Z.lor 0xA0 LBA_ADDRESSING) DEVICE_0)
           (Z.shiftr (Z.land lba 0x0F000000) 24))) 0x0F * 2 ^ 24
  + u8 (Z.shiftr (Z.land lba 0x00FF0000) 16) * 2 ^ 16
  + u8 (Z.shiftr (Z.land lba 0x0000FF00) 8) * 2 ^ 8
  + u8 (Z.shiftr (Z.land lba 0x000000FF) 0) = lba.
Proof.
  intros H28. rewrite devhead_nibble by lia.
  rewrite (u8_byte_n lba _ 16), (u8_byte_n lba _ 8), u8_byte0
    by (reflexivity || lia).
  assert (Hlba : 0 <= lba < 2 ^ 32) by lia.
  pose proof (recompose32 lba Hlba) as Hr.
  rewrite (Z.mod_small (lba / 2 ^ 24)) in Hr; [exact Hr |].
  change (2 ^ 24) with 16777216. change (2 ^ 28) with 268435456 in H28.
  change (2 ^ 8) with 256. Z.div_mod_to_equations. lia.
Qed.

Lemma lba48_from_regs lba :
  0 <= lba < 2 ^ 32 ->
  u8 0 * 2 ^ 40 + u8 0 * 2 ^ 32
  + u8 (Z.shiftr (Z.land lba 0xFF000000) 24) * 2 ^ 24
  + u8 (Z.shiftr (Z.land lba 0x00FF0000) 16) * 2 ^ 16
  + u8 (Z.shiftr (Z.land lba 0x0000FF00) 8) * 2 ^ 8
  + u8 (Z.shiftr (Z.land lba 0x000000FF) 0) = lba.
Proof.
  intros Hlba.
  rewrite (u8_byte_n lba _ 24), (u8_byte_n lba _ 16), (u8_byte_n lba _ 8),
    u8_byte0 by (reflexivity || lia).
  change (u8 0) with 0. rewrite !Z.mul_0_l, !Z.add_0_l.
  apply recompose32, Hlba.
Qed.

Lemma count28_from_regs count :
  0 < count < 2 ^ 8 ->
  (if u8 (Z.shiftr (Z.land count 0x000000FF) 0) =? 0 then 256
   else u8 (Z.shiftr (Z.land count 0x000000FF) 0)) = count.
Proof.
  intros H. rewrite u8_byte0, Z.mod_small by lia.
  destruct (count =? 0) eqn:E; [apply Z.eqb_eq in E; lia | reflexivity].
Qed.

Lemma count48_from_regs count :
  0 < count < 2 ^ 8 ->
  (if u8 (Z.shiftr (Z.land count 0x0000FF00) 8) * 2 ^ 8
      + u8 (Z.shiftr (Z.land count 0x000000FF) 0) =? 0 then 65536
   else u8 (Z.shiftr (Z.land count 0x0000FF00) 8) * 2 ^ 8
        + u8 (Z.shiftr (Z.land count 0x000000FF) 0)) = count.
Proof.
  intros H. rewrite u8_byte0, (u8_byte_n count _ 8) by (reflexivity || lia).
  rewrite (Z.div_small count) by lia.
  rewrite (Z.mod_small count) by lia.
  change (0 mod 2 ^ 8 * 2 ^ 8) with 0. rewrite Z.add_0_l.
  destruct (count =? 0) eqn:E; [apply Z.eqb_eq in E; lia | reflexivity].
Qed.

Lemma ata_send_read_command_spec lba count st :
  0 <= lba < 2 ^ 32 ->
  (lba48 (ATAdev st) = 0 -> lba < 2 ^ 28) ->
  0 < count < 2 ^ 8 ->
  exists st',
    ata_send_read_command lba count st = Ok tt st'
    /\ same_driver st st'
    /\ hw_disk (hw st') = hw_disk (hw st)
    /\ hw_pending (hw st') = DiskData lba count
    /\ hw_log (hw st')
       = mk_cmd (if lba48 (ATAdev st) =? 0 then COMMAND_READ_SECTORS
                 else COMMAND_READ_SECTORS_EXT) lba count
         :: hw_log (hw st).
Proof.
  intros Hlba H28 Hcount.
  unfold ata_send_read_command, ata_command, outb, when, bind, modify, gets.
  cbn. destruct (lba48 (ATAdev st) =? 0) eqn:E; cbn;
    (eexists; split; [reflexivity |]; split; [repeat split; reflexivity |];
     split; [reflexivity |]).
  - apply Z.eqb_eq in E. specialize (H28 E).
    unfold hw_latch.
    change (u8 COMMAND_READ_SECTORS =? COMMAND_READ_SECTORS) with true.
    unfold decode_lba28, decode_count28, reg; cbn.
    unfold insert, fn_insert, REG_DEVICEHEAD, REG_LBA2, REG_LBA1, REG_LBA0,
      REG_SECCOUNT_LOW, REG_CONTROL, REG_FEATURES; cbn.
    repeat (case_decide; try lia).
    split; [f_equal | do 2 f_equal];
      first [apply lba28_from_regs; lia | apply count28_from_regs; lia].
  - unfold hw_latch.
    change (u8 COMMAND_READ_SECTORS_EXT =? COMMAND_READ_SECTORS) with false.
    change (u8 COMMAND_READ_SECTORS_EXT =? COMMAND_READ_SECTORS_EXT) with true.
    unfold decode_lba48, decode_count48, reg; cbn.
    unfold insert, fn_insert, REG_DEVICEHEAD, REG_LBA5, REG_LBA4, REG_LBA3,
      REG_LBA2, REG_LBA1, REG_LBA0, REG_SECCOUNT_HIGH, REG_SECCOUNT_LOW,
      REG_CONTROL, REG_FEATURES; cbn.
    repeat (case_decide; try lia).
    split; [f_equal | do 2 f_equal];
      first [apply lba48_from_regs; lia | apply count48_from_regs; lia].
Qed.

(** ** Steps that leave the command log alone *)

Lemma ata_transfer_block_log n h :
  hw_log (snd (ata_transfer_block n h)) = hw_log h.
Proof.
  revert h. induction n as [|n IH]; intros h; simpl; [reflexivity |].
  unfold hw_next_block.
  destruct (hw_pending h) as [| | lba remaining]; simpl; try reflexivity.
  - specialize (IH (mk_hw (hw_disk h) (hw_ident h) (hw_regs h) NoData (hw_log h))).
    destruct (ata_transfer_block n _) as [bs h'']. exact IH.
  - destruct (0 <? remaining); [| reflexivity].
    specialize (IH (mk_hw (hw_disk h) (hw_ident h) (hw_regs h)
                      (DiskData (lba + 1) (remaining - 1)) (hw_log h))).
    destruct (ata_transfer_block n _) as [bs h'']. exact IH.
Qed.

Lemma receive_quiet L D count : preserves (quiet L D) (ata_receive_read_data count).
Proof.
  intros st [HL HD]. unfold ata_receive_read_data.
  pose proof (ata_transfer_block_log (Z.to_nat count) (hw st)) as Hlog.
  destruct (ata_transfer_block (Z.to_nat count) (hw st)) as [bs h].
  simpl in Hlog. unfold quiet.
  destruct (_ =? _); simpl; split; congruence.
Qed.

Lemma find_quiet L D sector : preserves (quiet L D) (find_cache_entry sector).
Proof.
  intros st H. unfold find_cache_entry.
  destruct (sector =? not32 0); [exact H |].
  destruct (scan_addr _ _ _ _); exact H.
Qed.

Lemma create_quiet L D sector : preserves (quiet L D) (create_cache_entry sector).
Proof.
  unfold create_cache_entry. preserve.
  - apply find_quiet.
  - apply preserves_modify. intros st H; exact H.
Qed.

Lemma get_buffer_preserves (P : ata_state -> Prop) cacheindex :
  preserves P (get_cache_entry_buffer cacheindex).
Proof.
  unfold get_cache_entry_buffer. destruct (_ && _); preserve.
Qed.

Lemma fill_cached_quiet L D run sector dst off :
  preserves (quiet L D) (fill_cached run sector dst off).
Proof.
  revert dst. induction run as [|i run IH]; intros dst; simpl; preserve.
  - apply create_quiet.
  - apply get_buffer_preserves.
  - apply receive_quiet.
  - apply preserves_modify. intros st H; exact H.
  - apply IH.
Qed.

Lemma fill_uncached_quiet L D run sector dst off :
  preserves (quiet L D) (fill_uncached run sector dst off).
Proof.
  revert dst. induction run as [|i run IH]; intros dst; simpl; preserve.
  - apply receive_quiet.
  - apply IH.
Qed.

(** After the read command, the rest of [ata_readblock2] adds nothing to
    the log. *)
Lemma after_command_quiet L D (useCache : bool) run sector dst off :
  preserves (quiet L D)
    (if useCache then
       do dst <- fill_cached run sector dst off;
       do modify (fun st =>
            with_cache st (cacheaddr st) (cachetick st)
              (u32 (cacheticks st + 1)));
       ret (0, dst)
     else
       do dst <- fill_uncached run sector dst off;
       ret (0, dst)).
Proof.
  destruct useCache; preserve.
  - apply fill_cached_quiet.
  - apply preserves_modify. intros st H; exact H.
  - apply fill_uncached_quiet.
Qed.

(** ** The log after one block read *)

(** A block read either adds no command (cache hit, or out-of-range halt)
    or exactly one read command. *)
Lemma ata_readblock2_log dst off sector useCache st :
  log_step st (final (ata_readblock2 dst off sector useCache st)).
Proof.
  unfold ata_readblock2.
  assert (Hfind : quiet (hw_log (hw st)) (ATAdev st)
            (final ((if useCache then find_cache_entry sector else ret (-1)) st))).
  { destruct useCache; [apply find_quiet | ]; split; reflexivity. }
  rewrite bind_run.
  destruct ((if useCache then find_cache_entry sector else ret (-1)) st)
    as [cacheindex st1 | d st1]; simpl in Hfind; destruct Hfind as [HL HD];
    [| simpl; split; [exact HD | left; exact HL]].
  destruct (useCache && (0 <=? cacheindex)).
  - match goal with
    | |- context [final (?m st1)] =>
        assert (Hq : quiet (hw_log (hw st1)) (ATAdev st1) (final (m st1)))
    end.
    { apply preserves_bind;
        [apply get_buffer_preserves | intros; preserve | split; reflexivity]. }
    destruct Hq as [HL' HD']. split; [congruence | left; congruence].
  - rewrite bind_run. unfold gets at 1. cbv beta iota.
    destruct ((lba48 (ATAdev st1) =? 0) && (0x0FFFFFFF <? sector)).
    + simpl. split; [exact HD | left; exact HL].
    + rewrite bind_run.
      destruct (ata_send_read_command_any
                  (Z.land sector (sector_mask_of (ATAdev st1)))
                  (read_size_of (ATAdev st1)) st1)
        as (st2 & c & Hsend & (_ & _ & _ & _ & HD2) & _ & Hc & Hlog).
      rewrite Hsend.
      match goal with
      | |- context [final (?m st2)] =>
          assert (Hq : quiet (hw_log (hw st2)) (ATAdev st2) (final (m st2)))
      end.
      { apply after_command_quiet. split; reflexivity. }
      destruct Hq as [HL' HD'].
      split; [congruence |]. right. exists c. split; [exact Hc | congruence].
Qed.

(** ** Alignment of the commands sent *)

Lemma aligned_since_quiet k L st st' :
  aligned_since k L st -> quiet (hw_log (hw st)) (ATAdev st) st' ->
  aligned_since k L st'.
Proof.
  intros [Hk Hnew] [HL HD]. split; [congruence |]. rewrite HL. exact Hnew.
Qed.

Lemma ata_readblock2_aligned k L dst off sector useCache :
  0 <= k <= 7 -> 0 <= sector < 2 ^ 32 ->
  preserves (aligned_since k L) (ata_readblock2 dst off sector useCache).
Proof.
  intros Hk Hs st Hst. unfold ata_readblock2.
  assert (Hfind : quiet (hw_log (hw st)) (ATAdev st)
            (final ((if useCache then find_cache_entry sector else ret (-1)) st))).
  { destruct useCache; [apply find_quiet | ]; split; reflexivity. }
  rewrite bind_run.
  destruct ((if useCache then find_cache_entry sector else ret (-1)) st)
    as [cacheindex st1 | d st1]; simpl in Hfind;
    pose proof (aligned_since_quiet _ _ _ _ Hst Hfind) as Hst1;
    [| exact Hst1].
  clear Hfind Hst st.
  destruct (useCache && (0 <=? cacheindex)).
  - eapply aligned_since_quiet; [exact Hst1 |].
    apply preserves_bind;
      [apply get_buffer_preserves | intros; preserve | split; reflexivity].
  - rewrite bind_run. unfold gets at 1. cbv beta iota.
    destruct ((lba48 (ATAdev st1) =? 0) && (0x0FFFFFFF <? sector)) eqn:Erange;
      [exact Hst1 |].
    rewrite bind_run.
    destruct Hst1 as [Hal (new & Hlog & Hall)].
    assert (Hrs : read_size_of (ATAdev st1) = 2 ^ k).
    { unfold read_size_of, u16. rewrite Hal, one_shl_pow2 by lia.
      apply Z.mod_small. split; [lia |]. apply Z.pow_lt_mono_r; lia. }
    assert (Hstr : Z.land sector (sector_mask_of (ATAdev st1))
                   = 2 ^ k * (sector / 2 ^ k)).
    { unfold sector_mask_of. rewrite Hal. apply sector_mask_land; lia. }
    pose proof (sector_to_read_bounds sector k Hs ltac:(lia)) as Hb.
    assert (Hpk : 0 < 2 ^ k < 2 ^ 8).
    { split; [lia |]. apply Z.pow_lt_mono_r; lia. }
    destruct (ata_send_read_command_spec
                (Z.land sector (sector_mask_of (ATAdev st1)))
                (read_size_of (ATAdev st1)) st1)
      as (st2 & Hsend & (_ & _ & _ & _ & HD2) & _ & _ & Hlog2).
    { rewrite Hstr. lia. }
    { intros Hz. rewrite Hz in Erange. simpl in Erange.
      apply Z.ltb_ge in Erange. rewrite Hstr.
      change (2 ^ 28) with 268435456. lia. }
    { rewrite Hrs. exact Hpk. }
    rewrite Hsend.
    eapply (aligned_since_quiet k L st2); [| apply after_command_quiet; split; reflexivity].
    split; [congruence |].
    eexists (_ :: new). split; [rewrite Hlog2, Hlog; reflexivity |].
    constructor; [| exact Hall].
    rewrite Hstr, Hrs. repeat split.
    + destruct (lba48 (ATAdev st1) =? 0); reflexivity.
    + simpl. rewrite Z.mul_comm. apply Z.mod_mul. lia.
    + simpl. apply Z.mod_same. lia.
Qed.

Lemma readblocks_loop_aligned k L count useCache :
  0 <= k <= 7 ->
  forall dst off sector,
    0 <= sector < 2 ^ 32 ->
    preserves (aligned_since k L) (readblocks_loop count useCache dst off sector).
Proof.
  intros Hk. induction count as [|count IH]; intros dst off sector Hs; simpl.
  - apply preserves_ret.
  - apply preserves_bind; [apply ata_readblock2_aligned; assumption |].
    intros [err dst']. destruct (negb (err =? 0)); [apply preserves_ret |].
    apply IH. unfold u32. apply Z.mod_pos_bound. lia.
Qed.

(** C2.  For every alignment the drive can be configured with
    ([alignment_log2 = k], here any [k] from 0 to 7) and every requested
    sector, aligned or not, the commands that [ata_readblock],
    [ata_readblocks] and [ata_readblocks_uncached] latch in the drive are
    read commands whose starting LBA and block count, as the drive decodes
    them from its registers, are multiples of [2^k]. *)
Theorem read_commands_aligned (k : Z) (st : ata_state) (dst : list Z)
    (off : nat) (sector count : Z) :
  0 <= k <= 7 ->
  alignment_log2 (ATAdev st) = k ->
  0 <= sector < 2 ^ 32 ->
  issues_aligned k st (ata_readblock dst sector st)
  /\ issues_aligned k st (ata_readblocks dst off sector count st)
  /\ issues_aligned k st (ata_readblocks_uncached dst off sector count st).
Proof.
  intros Hk Hal Hs.
  assert (H0 : aligned_since k (hw_log (hw st)) st).
  { split; [exact Hal |]. exists []. split; [reflexivity | constructor]. }
  repeat split.
  - apply (ata_readblock2_aligned k _ dst 0 sector true Hk Hs st H0).
  - apply (readblocks_loop_aligned k _ (Z.to_nat count) true Hk dst off sector
             Hs st H0).
  - apply (readblocks_loop_aligned k _ (Z.to_nat count) false Hk dst off sector
             Hs st H0).
Qed.

(** The bring-up only ever configures an alignment of 0, 1 or 3. *)
Lemma identify_alignment_values buff nsectors :
  identify_alignment buff nsectors = 0
  \/ identify_alignment buff nsectors = 1
  \/ identify_alignment buff nsectors = 3.
Proof.
  unfold identify_alignment.
  destruct (_ && _); [right; left; reflexivity |].
  destruct (_ <? _); [right; right; reflexivity | left; reflexivity].
Qed.

(** The iPod 5.5G drive reads two blocks at a time: an odd sector, and four
    blocks starting at sector 7, bring in only even-aligned pairs. *)
Lemma read_commands_aligned_witness :
  (0 <= 1 <= 7
   /\ alignment_log2 (ATAdev Examples.ata_toshiba) = 1
   /\ 0 <= 7 < 2 ^ 32)
  /\ issues_aligned 1 Examples.ata_toshiba
       (ata_readblock [] 7 Examples.ata_toshiba)
  /\ issues_aligned 1 Examples.ata_toshiba
       (ata_readblocks [] 0 7 4 Examples.ata_toshiba)
  /\ issues_aligned 1 Examples.ata_toshiba
       (ata_readblocks_uncached [] 0 7 4 Examples.ata_toshiba).
Proof.
  split.
  - split; [lia |]. split; [vm_compute; reflexivity | lia].
  - apply (read_commands_aligned 1 Examples.ata_toshiba [] 0 7 4);
      [lia | vm_compute; reflexivity | lia].
Defined.

(** ** The sentinel sector *)

Lemma find_sentinel st : find_cache_entry 0xFFFFFFFF st = Ok (-1) st.
Proof. reflexivity. Qed.

(** C10, as stated, fails on an LBA28 drive: the cached read of sector
    [0xFFFFFFFF] misses the cache and then halts on the out-of-range test of
    [ata_readblock2], before any command reaches the drive. *)
Lemma sentinel_read_lba28_no_command :
  lba48 (ATAdev Examples.ata_lba28) = 0
  /\ ata_readblock [] 0xFFFFFFFF Examples.ata_lba28
     = Halt (Diag_out_of_bounds_read 0xFFFFFFFF) Examples.ata_lba28
  /\ Examples.reads_of
       (final (ata_readblock [] 0xFFFFFFFF Examples.ata_lba28)) = [].
Proof. repeat split; vm_compute; reflexivity. Qed.

(** C10 (amended).  Sector [0xFFFFFFFF], the value that marks an empty
    slot, is never served from the cache: in every cache state the lookup
    reports a miss and leaves the state alone, so a cached read of it takes
    the miss path, which on an LBA48 drive latches one read command in the
    drive and on an LBA28 drive halts with the out-of-range diagnostic. *)
Theorem sentinel_never_served_from_cache (st : ata_state) (dst : list Z) :
  find_cache_entry 0xFFFFFFFF st = Ok (-1) st
  /\ (lba48 (ATAdev st) <> 0 ->
      exists c,
        is_read_cmd c = true
        /\ hw_log (hw (final (ata_readblock dst 0xFFFFFFFF st)))
           = c :: hw_log (hw st))
  /\ (lba48 (ATAdev st) = 0 ->
      ata_readblock dst 0xFFFFFFFF st
      = Halt (Diag_out_of_bounds_read 0xFFFFFFFF) st).
Proof.
  split; [reflexivity |]. unfold ata_readblock, ata_readblock2.
  split; intros H48;
    rewrite bind_run, find_sentinel; cbv beta iota;
    change (true && (0 <=? -1)) with false; cbv iota;
    rewrite bind_run; unfold gets at 1; cbv beta iota.
  - apply Z.eqb_neq in H48. rewrite H48. cbn [andb].
    rewrite bind_run.
    destruct (ata_send_read_command_any
                (Z.land 0xFFFFFFFF (sector_mask_of (ATAdev st)))
                (read_size_of (ATAdev st)) st)
      as (st2 & c & Hsend & _ & _ & Hc & Hlog).
    rewrite Hsend. exists c. split; [exact Hc |].
    rewrite <- Hlog.
    match goal with
    | |- context [final (?m st2)] =>
        assert (Hq : quiet (hw_log (hw st2)) (ATAdev st2) (final (m st2)))
    end.
    { apply (after_command_quiet _ _ true). split; reflexivity. }
    apply Hq.
  - rewrite H48. reflexivity.
Qed.

Lemma sentinel_never_served_from_cache_witness :
  lba48 (ATAdev Examples.ata_lba48) <> 0
  /\ exists c,
       is_read_cmd c = true
       /\ hw_log (hw (final (ata_readblock [] 0xFFFFFFFF Examples.ata_lba48)))
          = c :: hw_log (hw Examples.ata_lba48).
Proof.
  assert (H : lba48 (ATAdev Examples.ata_lba48) <> 0)
    by (vm_compute; discriminate).
  split; [exact H |].
  exact (proj1 (proj2 (sentinel_never_served_from_cache Examples.ata_lba48 []))
           H).
Defined.

(** ** The cache scans *)

Lemma scan_addr_Some (addr : list Z) sector i n j :
  scan_addr addr sector i n = Some j ->
  (i <= j < i + n)%nat /\ addr !!! j = sector
  /\ forall j', (i <= j' < j)%nat -> addr !!! j' <> sector.
Proof.
  revert i. induction n as [|n IH]; intros i; simpl; [discriminate |].
  destruct (addr !!! i =? sector) eqn:E.
  - intros [= <-]. apply Z.eqb_eq in E. repeat split; [lia | lia | exact E |].
    intros j' Hj'. lia.
  - intros H. apply IH in H as (Hr & Hj & Hmin). repeat split; [lia | lia | exact Hj |].
    intros j' Hj'. destruct (decide (j' = i)) as [-> | Hne].
    + apply Z.eqb_neq, E.
    + apply Hmin. lia.
Qed.

Lemma scan_addr_None (addr : list Z) sector i n :
  scan_addr addr sector i n = None ->
  forall j, (i <= j < i + n)%nat -> addr !!! j <> sector.
Proof.
  revert i. induction n as [|n IH]; intros i; simpl; [intros _ j Hj; lia |].
  destruct (addr !!! i =? sector) eqn:E; [discriminate |].
  intros H j Hj. destruct (decide (j = i)) as [-> | Hne].
  - apply Z.eqb_neq, E.
  - apply (IH _ H). lia.
Qed.

Lemma scan_addr_absent (addr : list Z) sector n :
  (forall j, (j < n)%nat -> addr !!! j <> sector) ->
  scan_addr addr sector 0 n = None.
Proof.
  intros H. destruct (scan_addr addr sector 0 n) as [j|] eqn:E; [| reflexivity].
  apply scan_addr_Some in E as (Hr & Hj & _). exfalso. apply (H j); [lia | exact Hj].
Qed.

Lemma lowest_scan (tick : list Z) (l : list nat) (best : nat) :
  let r := fold_left
             (fun best i => if tick !!! i <? tick !!! best then i else best)
             l best in
  (r = best \/ In r l)
  /\ tick !!! r <= tick !!! best
  /\ forall i, In i l -> tick !!! r <= tick !!! i.
Proof.
  revert best. induction l as [|a l IH]; intros best; simpl.
  - repeat split; [left; reflexivity | lia | intros i []].
  - specialize (IH (if tick !!! a <? tick !!! best then a else best)).
    simpl in IH. destruct IH as (Hin & Hle & Hall).
    destruct (tick !!! a <? tick !!! best) eqn:E.
    + apply Z.ltb_lt in E. repeat split.
      * destruct Hin as [-> | Hin]; right; [left; reflexivity | right; exact Hin].
      * lia.
      * intros i [<- | Hi]; [exact Hle | apply Hall, Hi].
    + apply Z.ltb_ge in E. repeat split.
      * destruct Hin as [-> | Hin]; [left; reflexivity | right; right; exact Hin].
      * exact Hle.
      * intros i [<- | Hi]; [lia | apply Hall, Hi].
Qed.

(** The slot the eviction scan settles on is in the table and no slot has
    a lower tick. *)
Lemma lowest_tick_spec (tick : list Z) :
  (lowest_tick tick < CACHE_NUMBLOCKS)%nat
  /\ forall j, (j < CACHE_NUMBLOCKS)%nat ->
               tick !!! lowest_tick tick <= tick !!! j.
Proof.
  unfold lowest_tick.
  destruct (lowest_scan tick (seq 0 CACHE_NUMBLOCKS) 0%nat) as (Hin & _ & Hall).
  split.
  - destruct Hin as [-> | Hin]; [unfold CACHE_NUMBLOCKS; lia |].
    apply in_seq in Hin. lia.
  - intros j Hj. apply Hall, in_seq. lia.
Qed.

(** ** One slot per sector *)

Lemma find_cache_entry_cases sector st :
  (find_cache_entry sector st = Ok (-1) st
   /\ (sector = not32 0
       \/ forall j, (j < CACHE_NUMBLOCKS)%nat -> cacheaddr st !!! j <> sector))
  \/ exists i,
       (i < CACHE_NUMBLOCKS)%nat
       /\ sector <> not32 0
       /\ cacheaddr st !!! i = sector
       /\ (forall j, (j < i)%nat -> cacheaddr st !!! j <> sector)
       /\ find_cache_entry sector st
          = Ok (Z.of_nat i)
              (with_cache st (cacheaddr st)
                 (<[i := u32 (cacheticks st + 1)]> (cachetick st))
                 (u32 (cacheticks st + 1))).
Proof.
  unfold find_cache_entry.
  destruct (sector =? not32 0) eqn:Es.
  - left. split; [reflexivity | left; apply Z.eqb_eq, Es].
  - destruct (scan_addr (cacheaddr st) sector 0 CACHE_NUMBLOCKS) as [i|] eqn:E.
    + right. exists i. apply scan_addr_Some in E as (Hr & Hi & Hmin).
      repeat split; [lia | apply Z.eqb_neq, Es | exact Hi |].
      intros j Hj. apply Hmin. lia.
    + left. split; [reflexivity | right].
      intros j Hj. apply (scan_addr_None _ _ _ _ E). lia.
Qed.

Lemma find_inv sector : preserves cache_inv (find_cache_entry sector).
Proof.
  intros st Hst.
  destruct (find_cache_entry_cases sector st)
    as [[-> _] | (i & _ & _ & _ & _ & ->)]; [exact Hst |].
  destruct Hst as ((Ha & Ht) & Hone). simpl.
  repeat split; simpl; [exact Ha | rewrite length_insert; exact Ht |].
  exact Hone.
Qed.

Lemma one_slot_insert_fresh (addr : list Z) (victim : nat) (sector : Z) :
  (victim < CACHE_NUMBLOCKS)%nat ->
  length addr = CACHE_NUMBLOCKS ->
  (sector = not32 0
   \/ forall j, (j < CACHE_NUMBLOCKS)%nat -> addr !!! j <> sector) ->
  (forall i j : nat,
     (i < CACHE_NUMBLOCKS)%nat -> (j < CACHE_NUMBLOCKS)%nat ->
     addr !!! i = addr !!! j -> addr !!! i <> not32 0 -> i = j) ->
  forall i j : nat,
    (i < CACHE_NUMBLOCKS)%nat -> (j < CACHE_NUMBLOCKS)%nat ->
    <[victim := sector]> addr !!! i = <[victim := sector]> addr !!! j ->
    <[victim := sector]> addr !!! i <> not32 0 -> i = j.
Proof.
  intros Hv Hlen Hfresh Hone i j Hi Hj.
  destruct (decide (i = victim)) as [-> | Hiv];
    destruct (decide (j = victim)) as [-> | Hjv]; try (intros; reflexivity).
  - rewrite list_lookup_total_insert_eq by lia.
    rewrite list_lookup_total_insert_ne by congruence.
    intros Heq Hvalid. destruct Hfresh as [-> | Hfresh]; [congruence |].
    exfalso. apply (Hfresh j Hj). congruence.
  - rewrite list_lookup_total_insert_eq by lia.
    rewrite list_lookup_total_insert_ne by congruence.
    intros Heq Hvalid. destruct Hfresh as [-> | Hfresh]; [congruence |].
    exfalso. apply (Hfresh i Hi). congruence.
  - rewrite !list_lookup_total_insert_ne by congruence. apply Hone; assumption.
Qed.

(** [create_cache_entry] when the sector is in no slot (or is the
    sentinel): the slot with the lowest tick is taken. *)
Lemma create_cache_entry_miss sector st :
  find_cache_entry sector st = Ok (-1) st ->
  create_cache_entry sector st
  = Ok (Z.of_nat (lowest_tick (cachetick st)))
      (with_cache st
         (<[lowest_tick (cachetick st) := sector]> (cacheaddr st))
         (<[lowest_tick (cachetick st) := cacheticks st]> (cachetick st))
         (cacheticks st)).
Proof.
  intros Hfind. unfold create_cache_entry.
  rewrite bind_run, Hfind. cbv beta iota.
  rewrite bind_run. unfold gets at 1. cbv beta iota.
  change (-1 <? 0) with true. cbv iota.
  rewrite bind_run. unfold modify at 1. cbv beta iota.
  unfold ret. rewrite Nat2Z.id. reflexivity.
Qed.

(** [create_cache_entry] when slot [i] already holds the sector. *)
Lemma create_cache_entry_hit sector st i st1 :
  find_cache_entry sector st = Ok (Z.of_nat i) st1 ->
  create_cache_entry sector st
  = Ok (Z.of_nat i)
      (with_cache st1 (<[i := sector]> (cacheaddr st1))
         (<[i := cacheticks st1]> (cachetick st1)) (cacheticks st1)).
Proof.
  intros Hfind. unfold create_cache_entry.
  rewrite bind_run, Hfind. cbv beta iota.
  rewrite bind_run. unfold gets at 1. cbv beta iota.
  destruct (Z.of_nat i <? 0) eqn:E; [apply Z.ltb_lt in E; lia |].
  rewrite bind_run. unfold modify at 1. cbv beta iota.
  unfold ret. rewrite Nat2Z.id. reflexivity.
Qed.

Lemma create_inv sector : preserves cache_inv (create_cache_entry sector).
Proof.
  intros st Hst.
  destruct (find_cache_entry_cases sector st)
    as [[Hfind Hfresh] | (i & Hi & Hs & Hai & _ & Hfind)].
  - rewrite (create_cache_entry_miss _ _ Hfind).
    destruct Hst as ((Ha & Ht) & Hone).
    destruct (lowest_tick_spec (cachetick st)) as [Hlow _].
    split; [split |]; unfold final, with_cache;
      cbn [cacheaddr cachetick cachedata];
      rewrite ?length_insert; try assumption.
    unfold one_slot_per_sector. cbn [cacheaddr].
    apply one_slot_insert_fresh; assumption.
  - rewrite (create_cache_entry_hit _ _ _ _ Hfind).
    destruct Hst as ((Ha & Ht) & Hone).
    assert (Hid : <[i := sector]> (cacheaddr st) = cacheaddr st).
    { apply list_insert_id. rewrite <- Hai.
      apply list_lookup_lookup_total_lt. lia. }
    split; [split |]; unfold final, with_cache;
      cbn [cacheaddr cachetick cachedata];
      rewrite ?length_insert; try assumption.
    unfold one_slot_per_sector. cbn [cacheaddr]. rewrite Hid. exact Hone.
Qed.

Lemma receive_cache (P : ata_state -> Prop) count :
  (forall st h, P st -> P (with_hw st h)) ->
  preserves P (ata_receive_read_data count).
Proof.
  intros HP st Hst. unfold ata_receive_read_data.
  destruct (ata_transfer_block _ _) as [bs h].
  destruct (_ =? _); simpl; apply HP, Hst.
Qed.

Lemma send_preserves (P : ata_state -> Prop) lba count :
  (forall st st', same_driver st st' -> P st -> P st') ->
  preserves P (ata_send_read_command lba count).
Proof.
  intros HP st Hst.
  destruct (ata_send_read_command_any lba count st)
    as (st' & c & -> & Hsame & _). simpl. eapply HP; eassumption.
Qed.

Lemma cache_inv_same_driver st st' : same_driver st st' -> cache_inv st -> cache_inv st'.
Proof.
  intros (Hd & Ha & Ht & _ & _) ((La & Lt) & Hone).
  repeat split; [congruence | congruence |].
  unfold one_slot_per_sector. rewrite Ha. exact Hone.
Qed.

Lemma fill_cached_inv run sector dst off :
  preserves cache_inv (fill_cached run sector dst off).
Proof.
  revert dst. induction run as [|i run IH]; intros dst; simpl; preserve.
  - apply create_inv.
  - apply get_buffer_preserves.
  - apply receive_cache. intros st h Hst; exact Hst.
  - apply preserves_modify. intros st Hst; exact Hst.
  - apply IH.
Qed.

Lemma fill_uncached_inv run sector dst off :
  preserves cache_inv (fill_uncached run sector dst off).
Proof.
  revert dst. induction run as [|i run IH]; intros dst; simpl; preserve.
  - apply receive_cache. intros st h Hst; exact Hst.
  - apply IH.
Qed.

Lemma ata_readblock2_inv dst off sector useCache :
  preserves cache_inv (ata_readblock2 dst off sector useCache).
Proof.
  unfold ata_readblock2. preserve;
    try apply find_inv; try apply get_buffer_preserves;
    try (apply send_preserves; apply cache_inv_same_driver);
    try apply fill_cached_inv; try apply fill_uncached_inv.
  apply preserves_modify. intros st Hst; exact Hst.
Qed.

Lemma readblocks_loop_inv count useCache :
  forall dst off sector,
    preserves cache_inv (readblocks_loop count useCache dst off sector).
Proof.
  induction count as [|count IH]; intros dst off sector; simpl; preserve.
  - apply ata_readblock2_inv.
  - apply IH.
Qed.

Lemma serve_all_inv rs : preserves cache_inv (serve_all rs).
Proof.
  induction rs as [|r rs IH]; simpl; preserve; [| exact IH].
  destruct r; simpl; [apply ata_readblock2_inv | apply readblocks_loop_inv ..].
Qed.

Lemma clear_cache_inv st : cache_inv (final (clear_cache st)).
Proof.
  unfold clear_cache, modify, final, with_cache.
  split; [split |]; cbn [cacheaddr cachetick cachedata];
    rewrite ?length_replicate; try reflexivity.
  intros i j Hi Hj _ Hvalid. exfalso. apply Hvalid.
  cbn [cacheaddr]. apply lookup_total_replicate_2. exact Hi.
Qed.

(** ** The tick counter *)

Lemma create_ticks sector lo hi :
  0 <= lo -> hi + 1 < 2 ^ 32 ->
  hoare (ticks_in lo hi) (create_cache_entry sector) (ticks_in lo (hi + 1)).
Proof.
  intros Hlo Hhi st [H1 H2]. unfold ticks_in.
  destruct (find_cache_entry_cases sector st)
    as [[Hfind _] | (i & _ & _ & _ & _ & Hfind)].
  - rewrite (create_cache_entry_miss _ _ Hfind). simpl. lia.
  - rewrite (create_cache_entry_hit _ _ _ _ Hfind). simpl.
    unfold u32. rewrite Z.mod_small by lia. lia.
Qed.

Lemma fill_cached_ticks sector off run :
  forall dst lo hi,
    0 <= lo -> hi + Z.of_nat (length run) < 2 ^ 32 ->
    hoare (ticks_in lo hi) (fill_cached run sector dst off)
      (ticks_in lo (hi + Z.of_nat (length run))).
Proof.
  induction run as [|i run IH]; intros dst lo hi Hlo Hhi.
  - intros st [H1 H2]. simpl. unfold ticks_in. lia.
  - simpl fill_cached. simpl length in *.
    assert (Hw : forall st, ticks_in lo (hi + 1) st ->
                 ticks_in lo (hi + Z.of_nat (S (length run))) st).
    { intros st [H1 H2]. unfold ticks_in. lia. }
    apply (hoare_bind _ (ticks_in lo (hi + 1))); [| exact Hw |].
    { apply create_ticks; lia. }
    intros cacheindex.
    apply (hoare_bind _ (ticks_in lo (hi + 1))); [| exact Hw |].
    { apply preserves_hoare, get_buffer_preserves. }
    intros slot.
    apply (hoare_bind _ (ticks_in lo (hi + 1))); [| exact Hw |].
    { apply preserves_hoare, receive_cache. intros st h Hst; exact Hst. }
    intros bs.
    apply (hoare_bind _ (ticks_in lo (hi + 1))); [| exact Hw |].
    { apply preserves_hoare, preserves_modify. intros st Hst; exact Hst. }
    intros _.
    apply (hoare_bind _ (ticks_in lo (hi + 1))); [| exact Hw |].
    { apply preserves_hoare, preserves_gets. }
    intros cachedst.
    replace (hi + Z.of_nat (S (length run)))
      with (hi + 1 + Z.of_nat (length run)) by lia.
    apply IH; lia.
Qed.

Lemma for_range_length lo hi : length (for_range lo hi) = Z.to_nat (hi - lo).
Proof. unfold for_range. apply length_seqZ. Qed.

(** ** The two ways a cached read goes *)

(** A cached read of a sector that slot [i] holds. *)
Lemma ata_readblock_hit dst sector st i st1 :
  (i < CACHE_NUMBLOCKS)%nat ->
  find_cache_entry sector st = Ok (Z.of_nat i) st1 ->
  ata_readblock dst sector st
  = Ok (0, memcpy dst 0 (cachedata st1 !!! i) (Z.to_nat BLOCK_SIZE)) st1.
Proof.
  intros Hi Hfind. unfold ata_readblock, ata_readblock2.
  rewrite bind_run, Hfind. cbv beta iota.
  destruct (0 <=? Z.of_nat i) eqn:E; [| apply Z.leb_gt in E; lia].
  cbn [andb]. unfold get_cache_entry_buffer.
  rewrite E.
  destruct (Z.of_nat i <? Z.of_nat CACHE_NUMBLOCKS) eqn:E2;
    [| apply Z.ltb_ge in E2; lia].
  cbn [andb]. rewrite bind_run. unfold ret at 1. cbv beta iota.
  rewrite bind_run. unfold gets at 1. cbv beta iota.
  rewrite Nat2Z.id. reflexivity.
Qed.

(** A cached read of a sector that no slot holds. *)
Lemma ata_readblock_miss dst sector st :
  find_cache_entry sector st = Ok (-1) st ->
  ata_readblock dst sector st
  = (if (lba48 (ATAdev st) =? 0) && (0x0FFFFFFF <? sector) then
       halt (Diag_out_of_bounds_read sector)
     else
       do ata_send_read_command
            (Z.land sector (sector_mask_of (ATAdev st)))
            (read_size_of (ATAdev st));
       do dst <- fill_cached
                   (for_range (Z.land sector (sector_mask_of (ATAdev st)))
                      (u32 (Z.land sector (sector_mask_of (ATAdev st))
                            + read_size_of (ATAdev st))))
                   sector dst 0;
       do modify (fun st =>
            with_cache st (cacheaddr st) (cachetick st)
              (u32 (cacheticks st + 1)));
       ret (0, dst)) st.
Proof.
  intros Hfind. unfold ata_readblock, ata_readblock2.
  rewrite bind_run, Hfind. cbv beta iota.
  change (true && (0 <=? -1)) with false. cbv iota.
  rewrite bind_run. unfold gets at 1. cbv beta iota. reflexivity.
Qed.

(** Every cached read that returns leaves the tick counter higher than it
    found it, short of the 32-bit wrap. *)
Lemma ata_readblock_ticks dst sector st r st' :
  0 <= sector < 2 ^ 32 ->
  0 <= cacheticks st < 2 ^ 32 - 2 ^ 16 ->
  ata_readblock dst sector st = Ok r st' ->
  cacheticks st < cacheticks st'.
Proof.
  intros Hs Hc Hrun.
  destruct (find_cache_entry_cases sector st)
    as [[Hfind _] | (i & Hi & _ & _ & _ & Hfind)].
  - rewrite (ata_readblock_miss _ _ _ Hfind) in Hrun.
    destruct (_ && _); [discriminate |].
    apply bind_ok in Hrun as ([] & st1 & Hsend & Hrun).
    destruct (ata_send_read_command_any
                (Z.land sector (sector_mask_of (ATAdev st)))
                (read_size_of (ATAdev st)) st)
      as (st1' & c & Hsend' & (_ & _ & _ & Ht1 & _) & _).
    rewrite Hsend in Hsend'. injection Hsend' as <-.
    apply bind_ok in Hrun as (dst' & st2 & Hfill & Hrun).
    set (a := Z.land sector (sector_mask_of (ATAdev st))) in *.
    set (rs := read_size_of (ATAdev st)) in *.
    assert (Hrs : 0 <= rs < 2 ^ 16).
    { unfold rs, read_size_of, u16. apply Z.mod_pos_bound. lia. }
    assert (Ha : 0 <= a) by (apply Z.land_nonneg; lia).
    assert (Hlen : Z.of_nat (length (for_range a (u32 (a + rs)))) <= rs).
    { rewrite for_range_length.
      assert (u32 (a + rs) <= a + rs) by (apply Z.mod_le; lia). lia. }
    pose proof (fill_cached_ticks sector 0%nat (for_range a (u32 (a + rs)))
                  dst (cacheticks st) (cacheticks st) ltac:(lia)
                  ltac:(change (2 ^ 16) with 65536 in *;
                        change (2 ^ 32) with 4294967296 in *; lia) st1)
      as Hfill'.
    rewrite Hfill in Hfill'. simpl in Hfill'.
    destruct Hfill' as [H1 H2]; [unfold ticks_in; lia |].
    apply bind_ok in Hrun as ([] & st3 & Hmod & Hrun).
    unfold modify in Hmod. injection Hmod as <-.
    unfold ret in Hrun. injection Hrun as _ <-. simpl.
    unfold u32. rewrite Z.mod_small;
      change (2 ^ 16) with 65536 in *; change (2 ^ 32) with 4294967296 in *;
      lia.
  - rewrite (ata_readblock_hit _ _ _ _ _ Hi Hfind) in Hrun.
    injection Hrun as _ <-. simpl.
    unfold u32. rewrite Z.mod_small;
      change (2 ^ 16) with 65536 in *; change (2 ^ 32) with 4294967296 in *;
      lia.
Qed.

(** ** The cache: slots, eviction and ticks *)

(** C4.  After [clear_cache] and any sequence of reads, at most one slot
    maps a valid sector; when the requested sector is in no slot,
    [create_cache_entry] takes a slot whose tick no other of the sixteen
    slots undercuts, and maps it to the sector; and every cached read that
    returns, hit or fill, leaves the tick counter higher than before (the
    counter being a [uint32], as long as it is at least 2^16 short of
    wrapping). *)
Theorem cache_slots_eviction_ticks :
  (forall (st0 : ata_state) (rs : list request),
     one_slot_per_sector (final (serve_all rs (final (clear_cache st0)))))
  /\ (forall (st : ata_state) (sector : Z),
        length (cacheaddr st) = CACHE_NUMBLOCKS ->
        (forall j, (j < CACHE_NUMBLOCKS)%nat -> cacheaddr st !!! j <> sector) ->
        exists (victim : nat) (st' : ata_state),
          create_cache_entry sector st = Ok (Z.of_nat victim) st'
          /\ (victim < CACHE_NUMBLOCKS)%nat
          /\ (forall j, (j < CACHE_NUMBLOCKS)%nat ->
                        cachetick st !!! victim <= cachetick st !!! j)
          /\ cacheaddr st' !!! victim = sector)
  /\ (forall (st st' : ata_state) (dst : list Z) (sector : Z) r,
        0 <= sector < 2 ^ 32 ->
        0 <= cacheticks st < 2 ^ 32 - 2 ^ 16 ->
        ata_readblock dst sector st = Ok r st' ->
        cacheticks st < cacheticks st').
Proof.
  split; [| split].
  - intros st0 rs. apply serve_all_inv, clear_cache_inv.
  - intros st sector Hlen Habsent.
    assert (Hfind : find_cache_entry sector st = Ok (-1) st).
    { unfold find_cache_entry. destruct (sector =? not32 0); [reflexivity |].
      rewrite (scan_addr_absent _ _ _ Habsent). reflexivity. }
    destruct (lowest_tick_spec (cachetick st)) as [Hlow Hmin].
    exists (lowest_tick (cachetick st)). eexists.
    split; [apply create_cache_entry_miss, Hfind |].
    split; [exact Hlow |]. split; [exact Hmin |].
    simpl. apply list_lookup_total_insert_eq. lia.
  - intros st st' dst sector r Hs Hc Hrun.
    eapply ata_readblock_ticks; eassumption.
Qed.

(** The cache of the 30 GB drive after sectors 0 to 15 were read and
    sector 3 was read again: sector 16 is in no slot.  On the fresh cache
    sector 1 took slot 0 from sector 0, all ticks being equal, so slot 15
    was never used: it has the lowest tick and is the one taken. *)
Lemma cache_slots_eviction_ticks_witness :
  let st := final (serve_all
                     [ReadBlocks 0 16; ReadBlock 3] Examples.ata_lba28) in
  (length (cacheaddr st) = CACHE_NUMBLOCKS
   /\ (forall j, (j < CACHE_NUMBLOCKS)%nat -> cacheaddr st !!! j <> 16)
   /\ 0 <= 16 < 2 ^ 32
   /\ 0 <= cacheticks st < 2 ^ 32 - 2 ^ 16)
  /\ (exists (victim : nat) (st' : ata_state),
        create_cache_entry 16 st = Ok (Z.of_nat victim) st'
        /\ (victim < CACHE_NUMBLOCKS)%nat
        /\ (forall j, (j < CACHE_NUMBLOCKS)%nat ->
                      cachetick st !!! victim <= cachetick st !!! j)
        /\ cacheaddr st' !!! victim = 16)
  /\ (forall st' r, ata_readblock [] 16 st = Ok r st' ->
                    cacheticks st < cacheticks st').
Proof.
  intros st.
  assert (Hlen : length (cacheaddr st) = CACHE_NUMBLOCKS)
    by (vm_compute; reflexivity).
  assert (Habs : forall j, (j < CACHE_NUMBLOCKS)%nat -> cacheaddr st !!! j <> 16).
  { intros j Hj. unfold CACHE_NUMBLOCKS in Hj.
    do 16 (destruct j as [|j]; [vm_compute; discriminate |]). lia. }
  assert (Hs : 0 <= 16 < 2 ^ 32) by lia.
  assert (Hc : 0 <= cacheticks st < 2 ^ 32 - 2 ^ 16)
    by (vm_compute; split; [discriminate | reflexivity]).
  split; [repeat split; try assumption; apply Hc |].
  split.
  - exact (proj1 (proj2 cache_slots_eviction_ticks) st 16 Hlen Habs).
  - intros st' r Hrun.
    exact (proj2 (proj2 cache_slots_eviction_ticks) st st' [] 16 r Hs Hc Hrun).
Defined.

(** ** Reading the same sector again *)

Lemma create_cache_entry_ok sector st :
  exists (v : nat) (st' : ata_state),
    create_cache_entry sector st = Ok (Z.of_nat v) st'
    /\ (v < CACHE_NUMBLOCKS)%nat
    /\ cacheaddr st' = <[v := sector]> (cacheaddr st)
    /\ cachedata st' = cachedata st
    /\ hw st' = hw st.
Proof.
  destruct (find_cache_entry_cases sector st)
    as [[Hfind _] | (i & Hi & _ & _ & _ & Hfind)].
  - destruct (lowest_tick_spec (cachetick st)) as [Hlow _].
    exists (lowest_tick (cachetick st)). eexists.
    split; [apply create_cache_entry_miss, Hfind |].
    repeat split; [exact Hlow ..].
  - exists i. eexists.
    split; [apply (create_cache_entry_hit _ _ _ _ Hfind) |].
    repeat split; [exact Hi ..].
Qed.

Lemma get_buffer_ok (v : nat) st :
  (v < CACHE_NUMBLOCKS)%nat ->
  get_cache_entry_buffer (Z.of_nat v) st = Ok v st.
Proof.
  intros Hv. unfold get_cache_entry_buffer.
  destruct (0 <=? Z.of_nat v) eqn:E1; [| apply Z.leb_gt in E1; lia].
  destruct (Z.of_nat v <? Z.of_nat CACHE_NUMBLOCKS) eqn:E2;
    [| apply Z.ltb_ge in E2; lia].
  cbn [andb]. unfold ret. rewrite Nat2Z.id. reflexivity.
Qed.

Lemma receive_one_ok st bs st' :
  ata_receive_read_data 1 st = Ok bs st' ->
  length bs = 1%nat
  /\ cacheaddr st' = cacheaddr st /\ cachedata st' = cachedata st.
Proof.
  unfold ata_receive_read_data.
  destruct (ata_transfer_block (Z.to_nat 1) (hw st)) as [bs' h] eqn:E.
  destruct (_ =? _) eqn:Eb; [| discriminate].
  intros [= <- <-]. apply Z.eqb_eq in Eb.
  change (u32 (1 * BLOCK_SIZE)) with 512 in Eb. unfold BLOCK_SIZE in Eb.
  repeat split. lia.
Qed.

(** One turn of the cached loop. *)
Lemma fill_cached_one j s dstc off st dst' st' :
  length (cacheaddr st) = CACHE_NUMBLOCKS -> data_shape st ->
  fill_cached [j] s dstc off st = Ok dst' st' ->
  exists (v : nat) (B : list Z),
    (v < CACHE_NUMBLOCKS)%nat
    /\ cacheaddr st' = <[v := j]> (cacheaddr st)
    /\ cachedata st' = <[v := B]> (cachedata st)
    /\ dst' = (if j =? s then memcpy dstc off B (Z.to_nat BLOCK_SIZE) else dstc).
Proof.
  intros Hla Hld Hrun. simpl in Hrun.
  destruct (create_cache_entry_ok j st) as (v & sb & Hcreate & Hv & Ha & Hd & _).
  apply bind_ok in Hrun as (ci & sb' & Hc & Hrun).
  rewrite Hcreate in Hc. injection Hc as <- <-.
  apply bind_ok in Hrun as (slot & sb' & Hg & Hrun).
  rewrite (get_buffer_ok v sb Hv) in Hg. injection Hg as <- <-.
  apply bind_ok in Hrun as (bs & sc & Hr & Hrun).
  apply receive_one_ok in Hr as (Hbs & Ha' & Hd').
  apply bind_ok in Hrun as ([] & sd & Hm & Hrun).
  unfold modify in Hm. injection Hm as <-.
  apply bind_ok in Hrun as (cachedst & se & Hgets & Hrun).
  unfold gets in Hgets. injection Hgets as <- <-.
  unfold ret in Hrun. injection Hrun as <- <-.
  exists v, (concat bs). cbn [cachedata cacheaddr with_cachedata].
  rewrite Ha', Hd', Ha, Hd, Hbs.
  repeat split; [exact Hv |].
  rewrite list_lookup_total_insert_eq by (unfold data_shape in Hld; lia).
  reflexivity.
Qed.

Lemma fill_cached_cons j run s dstc off st :
  fill_cached (j :: run) s dstc off st
  = (do d <- fill_cached [j] s dstc off; fill_cached run s d off) st.
Proof.
  simpl. unfold bind.
  destruct (create_cache_entry j st) as [ci s1|]; [| reflexivity].
  destruct (get_cache_entry_buffer ci s1) as [slot s2|]; [| reflexivity].
  destruct (ata_receive_read_data 1 s2) as [bs s3|]; [| reflexivity].
  reflexivity.
Qed.

(** The loop over a run without repetition, started with [s] in no slot:
    if [s] is not in the run it is still in no slot and the destination is
    untouched; if it is, every slot that maps [s] at the end holds the block
    that was copied to the destination. *)
Lemma fill_cached_holds s off run :
  NoDup run ->
  forall dstc st dst' st',
    length (cacheaddr st) = CACHE_NUMBLOCKS -> data_shape st ->
    fill_cached run s dstc off st = Ok dst' st' ->
    (forall B, holds s B st -> ~ In s run -> holds s B st' /\ dst' = dstc)
    /\ (absent s st ->
        (~ In s run /\ absent s st' /\ dst' = dstc)
        \/ (In s run
            /\ exists B, holds s B st'
                         /\ dst' = memcpy dstc off B (Z.to_nat BLOCK_SIZE)
                         /\ (run = [s] -> ~ absent s st'))).
Proof.
  induction 1 as [|j run Hj Hnd IH]; intros dstc st dst' st' Hla Hld Hrun;
    [| rewrite list_elem_of_In in Hj].
  - simpl in Hrun. unfold ret in Hrun. injection Hrun as <- <-.
    split; [intros B HB _; split; [exact HB | reflexivity] |].
    intros Habs. left. repeat split; [intros [] | exact Habs].
  - rewrite fill_cached_cons in Hrun.
    apply bind_ok in Hrun as (dm & sm & Hone & Hrest).
    destruct (fill_cached_one _ _ _ _ _ _ _ Hla Hld Hone)
      as (v & B1 & Hv & Ha & Hd & Hdm).
    assert (Hla' : length (cacheaddr sm) = CACHE_NUMBLOCKS)
      by (rewrite Ha, length_insert; exact Hla).
    assert (Hld' : data_shape sm)
      by (unfold data_shape; rewrite Hd, length_insert; exact Hld).
    destruct (IH _ _ _ _ Hla' Hld' Hrest) as [IHh IHa].
    assert (Hother : forall w, (w < CACHE_NUMBLOCKS)%nat -> j <> s ->
              cacheaddr sm !!! w = s ->
              w <> v /\ cacheaddr st !!! w = s
              /\ cachedata sm !!! w = cachedata st !!! w).
    { intros w Hw Hjs Hws. rewrite Ha in Hws.
      destruct (decide (w = v)) as [-> | Hne].
      - rewrite list_lookup_total_insert_eq in Hws by lia. congruence.
      - rewrite list_lookup_total_insert_ne in Hws by congruence.
        repeat split; [exact Hne | exact Hws |].
        rewrite Hd. apply list_lookup_total_insert_ne. congruence. }
    split.
    + intros B HB Hnin.
      assert (Hjs : j <> s) by (intros ->; apply Hnin; left; reflexivity).
      assert (HB' : holds s B sm).
      { intros w Hw Hws.
        destruct (Hother w Hw Hjs Hws) as (_ & Hws' & ->). apply HB; assumption. }
      destruct (IHh B HB') as [Hh ->]; [intros Hin; apply Hnin; right; exact Hin |].
      split; [exact Hh |]. rewrite Hdm.
      destruct (j =? s) eqn:E; [apply Z.eqb_eq in E; congruence | reflexivity].
    + intros Habs. destruct (decide (j = s)) as [-> | Hjs].
      * right. split; [left; reflexivity |]. exists B1.
        assert (HB1 : holds s B1 sm).
        { intros w Hw Hws. rewrite Ha in Hws. rewrite Hd.
          destruct (decide (w = v)) as [-> | Hne].
          - apply list_lookup_total_insert_eq. unfold data_shape in Hld. lia.
          - rewrite list_lookup_total_insert_ne in Hws by congruence.
            exfalso. apply (Habs w Hw Hws). }
        destruct (IHh B1 HB1 Hj) as [Hh ->].
        split; [exact Hh |]. rewrite Hdm, Z.eqb_refl.
        split; [reflexivity |].
        intros [= ->] Habs'. simpl in Hrest. unfold ret in Hrest.
        assert (Hsm : sm = st') by congruence. subst st'.
        apply (Habs' v Hv). rewrite Ha.
        apply list_lookup_total_insert_eq. lia.
      * assert (Habs' : absent s sm).
        { intros w Hw Hws. destruct (Hother w Hw Hjs Hws) as (_ & Hws' & _).
          apply (Habs w Hw Hws'). }
        assert (Hdm' : dm = dstc).
        { rewrite Hdm. destruct (j =? s) eqn:E;
            [apply Z.eqb_eq in E; congruence | reflexivity]. }
        destruct (IHa Habs') as [(Hnin & Habs'' & ->) | (Hin & B & HB & -> & Hsingle)].
        -- left. repeat split; [| exact Habs'' | exact Hdm'].
           intros [-> | Hin]; [congruence | apply Hnin, Hin].
        -- right. split; [right; exact Hin |]. exists B.
           split; [exact HB |]. split; [rewrite Hdm'; reflexivity |].
           intros [= -> ->]. destruct Hin.
Qed.

Lemma run_of_one_block st sector :
  alignment_log2 (ATAdev st) = 0 ->
  0 <= sector < 2 ^ 32 -> sector <> 0xFFFFFFFF ->
  for_range (Z.land sector (sector_mask_of (ATAdev st)))
    (u32 (Z.land sector (sector_mask_of (ATAdev st)) + read_size_of (ATAdev st)))
  = [sector].
Proof.
  intros Hk Hs Hne.
  assert (Ha : Z.land sector (sector_mask_of (ATAdev st)) = sector).
  { unfold sector_mask_of. rewrite Hk, sector_mask_land by lia.
    change (2 ^ 0) with 1. rewrite Z.div_1_r. lia. }
  assert (Hr : read_size_of (ATAdev st) = 1).
  { unfold read_size_of. rewrite Hk. reflexivity. }
  rewrite Ha, Hr. unfold u32.
  rewrite Z.mod_small by (change (2 ^ 32) with 4294967296 in *; lia).
  unfold for_range. replace (sector + 1 - sector) with 1 by lia. reflexivity.
Qed.

Lemma NoDup_for_range lo hi : NoDup (for_range lo hi).
Proof. apply NoDup_seqZ. Qed.

(** *** Slots older than the run

    The victim of [create_cache_entry] is a slot with the lowest tick, and
    the blocks of one run all get the tick counter as it stands.  A block
    of the run keeps its slot against the blocks that follow as long as a
    slot with a tick below the counter is left for each of them. *)

Lemma older_slots_spec st :
  NoDup (older_slots st)
  /\ forall v, v ∈ older_slots st ->
               (v < CACHE_NUMBLOCKS)%nat /\ cachetick st !!! v < cacheticks st.
Proof.
  unfold older_slots. split.
  - apply NoDup_ListNoDup, List.NoDup_filter, NoDup_ListNoDup, NoDup_seq.
  - intros v Hv. apply list_elem_of_In, filter_In in Hv as [Hin Hlt].
    apply in_seq in Hin. apply Z.ltb_lt in Hlt. split; [lia | exact Hlt].
Qed.

Lemma receive_tables n st bs st' :
  ata_receive_read_data n st = Ok bs st' ->
  cacheaddr st' = cacheaddr st /\ cachetick st' = cachetick st
  /\ cacheticks st' = cacheticks st.
Proof.
  unfold ata_receive_read_data.
  destruct (ata_transfer_block (Z.to_nat n) (hw st)) as [bs' h].
  destruct (_ =? _); [| discriminate].
  intros [= <- <-]. repeat split.
Qed.

(** One slot less in a list of slots without repetition. *)
Lemma without_slot (v : nat) (olds : list nat) :
  NoDup olds ->
  exists olds',
    NoDup olds' /\ (length olds <= S (length olds'))%nat
    /\ forall w, w ∈ olds' -> w ∈ olds /\ w <> v.
Proof.
  intros Hnd. destruct (decide (v ∈ olds)) as [Hin | Hout].
  - apply elem_of_Permutation in Hin as [olds' Hperm].
    rewrite Hperm in Hnd. apply list.NoDup_cons in Hnd as [Hv Hnd'].
    exists olds'. split; [exact Hnd' |].
    split; [rewrite Hperm; cbn [length]; lia |].
    intros w Hw. split; [rewrite Hperm; right; exact Hw |].
    intros ->. apply Hv, Hw.
  - exists olds. split; [exact Hnd |]. split; [lia |].
    intros w Hw. split; [exact Hw |]. intros ->. apply Hout, Hw.
Qed.

(** Making the entry of a block while a slot with a tick below [C0] is
    left: the slot taken gets the block and a tick of at least [C0], and no
    slot that maps another sector with a tick of at least [C0] is taken. *)
Lemma create_spares C0 j olds st :
  length (cacheaddr st) = CACHE_NUMBLOCKS ->
  length (cachetick st) = CACHE_NUMBLOCKS ->
  0 <= cacheticks st -> C0 <= cacheticks st -> cacheticks st + 1 < 2 ^ 32 ->
  (forall v, v ∈ olds ->
             (v < CACHE_NUMBLOCKS)%nat /\ cachetick st !!! v < C0) ->
  (1 <= length olds)%nat ->
  exists (v : nat) (st1 : ata_state),
    create_cache_entry j st = Ok (Z.of_nat v) st1
    /\ (v < CACHE_NUMBLOCKS)%nat
    /\ cacheaddr st1 = <[v := j]> (cacheaddr st)
    /\ cachetick st1 = <[v := cacheticks st1]> (cachetick st)
    /\ cacheticks st <= cacheticks st1 <= cacheticks st + 1
    /\ forall i, (i < CACHE_NUMBLOCKS)%nat -> cacheaddr st !!! i <> j ->
                 C0 <= cachetick st !!! i -> v <> i.
Proof.
  intros Hla Hlt Hc0 HC Hwrap Holds Hlen.
  destruct (find_cache_entry_cases j st)
    as [[Hfind _] | (v & Hv & Hne & Hav & _ & Hfind)].
  - destruct (lowest_tick_spec (cachetick st)) as [Hlow Hmin].
    exists (lowest_tick (cachetick st)). eexists.
    split; [apply create_cache_entry_miss, Hfind |].
    cbn [cacheaddr cachetick cacheticks with_cache].
    split; [exact Hlow |]. split; [reflexivity |]. split; [reflexivity |].
    split; [lia |].
    intros i Hi _ Hti Heq.
    destruct olds as [|w olds]; [cbn [length] in Hlen; lia |].
    destruct (Holds w ltac:(left)) as [Hw Hold].
    specialize (Hmin w Hw). rewrite Heq in Hmin. lia.
  - exists v. eexists.
    split; [apply (create_cache_entry_hit _ _ _ _ Hfind) |].
    cbn [cacheaddr cachetick cacheticks with_cache].
    assert (Hu : u32 (cacheticks st + 1) = cacheticks st + 1)
      by (unfold u32; apply Z.mod_small; lia).
    rewrite Hu.
    split; [exact Hv |]. split; [reflexivity |].
    split; [rewrite list_insert_insert_eq; reflexivity |].
    split; [lia |].
    intros i Hi Haddr _ Heq. subst i. apply Haddr, Hav.
Qed.

(** The cached loop keeps the requested sector in its slot as long as the
    cache has a slot with a tick below [C0] for every block of the run. *)
Lemma fill_cached_retains C0 s off run :
  forall olds dstc st dst' st',
    length (cacheaddr st) = CACHE_NUMBLOCKS ->
    length (cachetick st) = CACHE_NUMBLOCKS ->
    0 <= cacheticks st -> C0 <= cacheticks st ->
    cacheticks st + Z.of_nat (length run) < 2 ^ 32 ->
    NoDup olds ->
    (forall v, v ∈ olds ->
               (v < CACHE_NUMBLOCKS)%nat /\ cachetick st !!! v < C0) ->
    (length run <= length olds)%nat ->
    fill_cached run s dstc off st = Ok dst' st' ->
    In s run
    \/ (exists i, (i < CACHE_NUMBLOCKS)%nat /\ cacheaddr st !!! i = s
                  /\ C0 <= cachetick st !!! i) ->
    exists i, (i < CACHE_NUMBLOCKS)%nat /\ cacheaddr st' !!! i = s.
Proof.
  induction run as [|j run IH];
    intros olds dstc st dst' st' Hla Hlt Hc0 HC Hwrap Hnd Holds Hlen Hrun Hs.
  - cbn [fill_cached] in Hrun. unfold ret in Hrun. injection Hrun as _ <-.
    destruct Hs as [[] | (i & Hi & Hai & _)]. exists i. split; assumption.
  - cbn [length] in Hlen, Hwrap. cbn [fill_cached] in Hrun.
    destruct (create_spares C0 j olds st Hla Hlt Hc0 HC ltac:(lia) Holds
                ltac:(lia))
      as (v & st1 & Hcreate & Hv & Ha1 & Ht1 & Hc1 & Hspare).
    apply bind_ok in Hrun as (ci & sb & Hc & Hrun).
    rewrite Hcreate in Hc. injection Hc as <- <-.
    apply bind_ok in Hrun as (slot & sb & Hg & Hrun).
    rewrite (get_buffer_ok v st1 Hv) in Hg. injection Hg as <- <-.
    apply bind_ok in Hrun as (bs & sc & Hr & Hrun).
    apply receive_tables in Hr as (Ha2 & Ht2 & Hc2).
    apply bind_ok in Hrun as ([] & sd & Hm & Hrun).
    unfold modify in Hm. injection Hm as <-.
    apply bind_ok in Hrun as (cachedst & se & Hgets & Hrun).
    unfold gets in Hgets. injection Hgets as <- <-.
    destruct (without_slot v olds Hnd) as (olds' & Hnd' & Hlen' & Hsub).
    apply (IH olds') in Hrun; [exact Hrun | ..];
      cbn [cacheaddr cachetick cacheticks with_cachedata];
      rewrite ?Ha2, ?Ht2, ?Hc2.
    + rewrite Ha1, length_insert. exact Hla.
    + rewrite Ht1, length_insert. exact Hlt.
    + lia.
    + lia.
    + lia.
    + exact Hnd'.
    + intros w Hw. destruct (Hsub w Hw) as [Hin Hwv].
      destruct (Holds w Hin) as [Hw16 Hold]. split; [exact Hw16 |].
      rewrite Ht1, list_lookup_total_insert_ne by congruence. exact Hold.
    + lia.
    + destruct (decide (j = s)) as [-> | Hjs].
      * right. exists v. split; [exact Hv |].
        rewrite Ha1, Ht1, !list_lookup_total_insert_eq by lia.
        split; [reflexivity | lia].
      * destruct Hs as [[Hj | Hin] | (i & Hi & Hai & Hti)];
          [congruence | left; exact Hin |].
        right. exists i. split; [exact Hi |].
        assert (Hvi : v <> i).
        { apply Hspare; [exact Hi | rewrite Hai; congruence | exact Hti]. }
        rewrite Ha1, Ht1, !list_lookup_total_insert_ne by exact Hvi.
        split; assumption.
Qed.

Lemma read_size_pow2 dev :
  0 <= alignment_log2 dev <= 7 ->
  read_size_of dev = 2 ^ alignment_log2 dev.
Proof.
  intros Hk. unfold read_size_of. rewrite one_shl_pow2 by lia.
  apply Z.mod_small. split; [lia |].
  apply Z.lt_le_trans with (2 ^ 8); [| change (2 ^ 8 <= 2 ^ 16); lia].
  apply Z.pow_lt_mono_r; lia.
Qed.

(** The run of a sector below the last aligned run: the blocks from the
    aligned start on, the sector among them. *)
Lemma aligned_run dev sector :
  0 <= alignment_log2 dev <= 7 ->
  0 <= sector < 2 ^ 32 - 2 ^ alignment_log2 dev ->
  let lba := Z.land sector (sector_mask_of dev) in
  for_range lba (u32 (lba + read_size_of dev))
  = seqZ lba (2 ^ alignment_log2 dev)
  /\ lba <= sector < lba + 2 ^ alignment_log2 dev.
Proof.
  intros Hk Hs lba. set (k := alignment_log2 dev) in *.
  assert (Hp : 0 < 2 ^ k <= 128).
  { split; [lia |]. change 128 with (2 ^ 7). apply Z.pow_le_mono_r; lia. }
  assert (Hl : lba = 2 ^ k * (sector / 2 ^ k)).
  { unfold lba, sector_mask_of. fold k.
    apply sector_mask_land; [change (2 ^ 32) with 4294967296 in *|]; lia. }
  clearbody lba.
  pose proof (Z.div_mod sector (2 ^ k) ltac:(lia)) as Hdm.
  pose proof (Z.mod_pos_bound sector (2 ^ k) ltac:(lia)) as Hmod.
  assert (Hl0 : 0 <= 2 ^ k * (sector / 2 ^ k))
    by (apply Z.mul_nonneg_nonneg; [lia | apply Z.div_pos; lia]).
  split; [| lia].
  unfold for_range. rewrite read_size_pow2 by exact Hk. fold k.
  unfold u32. rewrite Z.mod_small by lia. f_equal. lia.
Qed.

Lemma older_slots_length st : (length (older_slots st) <= 16)%nat.
Proof.
  unfold older_slots.
  etransitivity; [apply List.filter_length_le | rewrite length_seq; reflexivity].
Qed.

(** A cached read that goes to the drive leaves the sector in a slot when
    the cache has a slot with a tick below the counter for every block of
    the run. *)
Lemma fill_leaves_the_sector dst sector st r1 st1 :
  cache_inv st ->
  find_cache_entry sector st = Ok (-1) st ->
  ata_readblock dst sector st = Ok r1 st1 ->
  0 <= alignment_log2 (ATAdev st) ->
  0 <= sector < 2 ^ 32 - 2 ^ alignment_log2 (ATAdev st) ->
  (Z.to_nat (2 ^ alignment_log2 (ATAdev st)) <= length (older_slots st))%nat ->
  0 <= cacheticks st ->
  cacheticks st + 2 ^ alignment_log2 (ATAdev st) < 2 ^ 32 ->
  exists i, (i < CACHE_NUMBLOCKS)%nat /\ cacheaddr st1 !!! i = sector.
Proof.
  intros ((Hla & Hlt) & _) Hfind Hrun Hk0 Hs Hold Hc0 Hwrap.
  set (k := alignment_log2 (ATAdev st)) in *.
  assert (Hk : 0 <= k <= 7).
  { split; [exact Hk0 |]. destruct (Z.le_gt_cases k 7) as [H | H]; [exact H |].
    exfalso. pose proof (older_slots_length st) as Hlen.
    assert (2 ^ 8 <= 2 ^ k) by (apply Z.pow_le_mono_r; lia).
    change (2 ^ 8) with 256 in *. lia. }
  destruct (aligned_run (ATAdev st) sector Hk Hs) as [Hrange Hin].
  fold k in Hrange, Hin.
  rewrite (ata_readblock_miss _ _ _ Hfind) in Hrun.
  destruct (_ && _); [discriminate |].
  apply bind_ok in Hrun as ([] & sa & Hsend & Hrun).
  destruct (ata_send_read_command_any
              (Z.land sector (sector_mask_of (ATAdev st)))
              (read_size_of (ATAdev st)) st)
    as (sa' & c & Hsend' & (Hd & Ha & Ht & Hc & _) & _).
  rewrite Hsend in Hsend'. injection Hsend' as <-.
  apply bind_ok in Hrun as (d & sf & Hfill & Hrun).
  apply bind_ok in Hrun as ([] & sg & Hmod & Hrun).
  unfold modify in Hmod. injection Hmod as <-.
  unfold ret in Hrun. injection Hrun as _ <-.
  cbn [cacheaddr with_cache]. rewrite Hrange in Hfill.
  destruct (older_slots_spec st) as [Hnd Holds].
  apply (fill_cached_retains (cacheticks st) sector 0%nat _ (older_slots st))
    in Hfill; [exact Hfill | ..].
  - congruence.
  - congruence.
  - lia.
  - lia.
  - rewrite length_seqZ, Hc. lia.
  - exact Hnd.
  - intros v Hv. rewrite Ht. apply Holds, Hv.
  - rewrite length_seqZ. exact Hold.
  - left. apply list_elem_of_In, elem_of_seqZ. lia.
Qed.

(** *** How the cache ages

    After [clear_cache] no tick is above the counter, and it stays so; every
    cached read that returns leaves the counter above all ticks but at most
    the one of the slot it hit. *)

Lemma ticks_below_tables lo hi st st' :
  cachetick st' = cachetick st -> cacheticks st' = cacheticks st ->
  ticks_below lo hi st -> ticks_below lo hi st'.
Proof. unfold ticks_below, ticks_in. intros -> ->. exact id. Qed.

Lemma ticks_below_weaken lo hi hi' st :
  hi <= hi' -> ticks_below lo hi st -> ticks_below lo hi' st.
Proof.
  intros H (Hl & Hle & Hin). split; [exact Hl |]. split; [exact Hle |].
  unfold ticks_in in *. lia.
Qed.

Lemma create_ticks_below sector lo hi :
  0 <= lo -> hi + 1 < 2 ^ 32 ->
  hoare (ticks_below lo hi) (create_cache_entry sector)
    (ticks_below lo (hi + 1)).
Proof.
  intros Hlo Hhi st (Hl & Hle & [H1 H2]). unfold ticks_below, ticks_in.
  destruct (find_cache_entry_cases sector st)
    as [[Hfind _] | (i & Hi & _ & _ & _ & Hfind)].
  - rewrite (create_cache_entry_miss _ _ Hfind).
    cbn [final cachetick cacheticks with_cache]. rewrite length_insert.
    split; [exact Hl |]. split; [| lia].
    intros v Hv. destruct (decide (v = lowest_tick (cachetick st))) as [-> | Hne].
    + rewrite list_lookup_total_insert_eq by lia. lia.
    + rewrite list_lookup_total_insert_ne by congruence. apply Hle, Hv.
  - rewrite (create_cache_entry_hit _ _ _ _ Hfind).
    cbn [final cachetick cacheticks with_cache]. rewrite !length_insert.
    assert (Hu : u32 (cacheticks st + 1) = cacheticks st + 1)
      by (unfold u32; apply Z.mod_small; lia).
    rewrite Hu. split; [exact Hl |]. split; [| lia].
    intros v Hv. destruct (decide (v = i)) as [-> | Hne].
    + rewrite list_lookup_total_insert_eq by (rewrite length_insert; lia). lia.
    + rewrite !list_lookup_total_insert_ne by congruence.
      specialize (Hle v Hv). lia.
Qed.

Lemma fill_cached_ticks_below sector off run :
  forall dst lo hi,
    0 <= lo -> hi + Z.of_nat (length run) < 2 ^ 32 ->
    hoare (ticks_below lo hi) (fill_cached run sector dst off)
      (ticks_below lo (hi + Z.of_nat (length run))).
Proof.
  induction run as [|i run IH]; intros dst lo hi Hlo Hhi.
  - intros st H. simpl. apply (ticks_below_weaken lo hi); [lia | exact H].
  - simpl fill_cached. simpl length in *.
    assert (Hw : forall st, ticks_below lo (hi + 1) st ->
                 ticks_below lo (hi + Z.of_nat (S (length run))) st).
    { intros st. apply ticks_below_weaken. lia. }
    apply (hoare_bind _ (ticks_below lo (hi + 1))); [| exact Hw |].
    { apply create_ticks_below; lia. }
    intros cacheindex.
    apply (hoare_bind _ (ticks_below lo (hi + 1))); [| exact Hw |].
    { apply preserves_hoare, get_buffer_preserves. }
    intros slot.
    apply (hoare_bind _ (ticks_below lo (hi + 1))); [| exact Hw |].
    { apply preserves_hoare, receive_cache. intros st h Hst; exact Hst. }
    intros bs.
    apply (hoare_bind _ (ticks_below lo (hi + 1))); [| exact Hw |].
    { apply preserves_hoare, preserves_modify. intros st Hst; exact Hst. }
    intros _.
    apply (hoare_bind _ (ticks_below lo (hi + 1))); [| exact Hw |].
    { apply preserves_hoare, preserves_gets. }
    intros cachedst.
    replace (hi + Z.of_nat (S (length run)))
      with (hi + 1 + Z.of_nat (length run)) by lia.
    apply IH; lia.
Qed.

(** All slots but one pass a test: at least fifteen of the sixteen are
    kept. *)
Lemma filter_all_but_one (f : nat -> bool) (i : nat) (l : list nat) :
  List.NoDup l -> (forall v, In v l -> v <> i -> f v = true) ->
  (length l <= S (length (List.filter f l)))%nat.
Proof.
  induction 1 as [|x l Hx Hnd IH]; intros Hall; [cbn; lia |].
  cbn [List.filter length]. destruct (Nat.eq_dec x i) as [-> | Hne].
  - assert (Hrest : List.filter f l = l).
    { apply forallb_filter_id, forallb_forall. intros v Hv.
      apply Hall; [right; exact Hv | intros ->; apply Hx, Hv]. }
    destruct (f i); cbn [length]; rewrite Hrest; lia.
  - rewrite (Hall x (or_introl eq_refl) Hne). cbn [length].
    specialize (IH (fun v Hv => Hall v (or_intror Hv))). lia.
Qed.

(** Every cached read that returns leaves at least fifteen slots with a
    tick below the tick counter. *)
Lemma read_ages_the_cache dst sector st r st' :
  ticks_below 0 (2 ^ 32 - 2 ^ 16 - 1) st ->
  ata_readblock dst sector st = Ok r st' ->
  (15 <= length (older_slots st'))%nat
  /\ length (cachetick st') = CACHE_NUMBLOCKS
  /\ (forall v, (v < CACHE_NUMBLOCKS)%nat ->
                cachetick st' !!! v <= cacheticks st')
  /\ cacheticks st < cacheticks st'.
Proof.
  intros Hb Hrun.
  assert (Hall : forall i,
    length (cachetick st') = CACHE_NUMBLOCKS ->
    (forall v, (v < CACHE_NUMBLOCKS)%nat -> v <> i ->
               cachetick st' !!! v < cacheticks st') ->
    (15 <= length (older_slots st'))%nat).
  { intros i Hl Hlt.
    pose proof (filter_all_but_one
                  (fun v => cachetick st' !!! v <? cacheticks st') i
                  (seq 0 CACHE_NUMBLOCKS) (List.seq_NoDup _ _)) as H.
    change (List.filter _ _) with (older_slots st') in H.
    rewrite length_seq in H.
    assert (H16 : (16 <= S (length (older_slots st')))%nat); [| lia].
    apply H. intros v Hv Hne. apply Z.ltb_lt, Hlt; [| exact Hne].
    apply in_seq in Hv. lia. }
  destruct (find_cache_entry_cases sector st)
    as [[Hfind _] | (i & Hi & _ & _ & _ & Hfind)].
  - rewrite (ata_readblock_miss _ _ _ Hfind) in Hrun.
    destruct (_ && _); [discriminate |].
    apply bind_ok in Hrun as ([] & st1 & Hsend & Hrun).
    destruct (ata_send_read_command_any
                (Z.land sector (sector_mask_of (ATAdev st)))
                (read_size_of (ATAdev st)) st)
      as (st1' & c & Hsend' & (_ & _ & Ht1 & Hc1 & _) & _).
    rewrite Hsend in Hsend'. injection Hsend' as <-.
    apply bind_ok in Hrun as (dst' & st2 & Hfill & Hrun).
    set (a := Z.land sector (sector_mask_of (ATAdev st))) in *.
    set (rs := read_size_of (ATAdev st)) in *.
    assert (Hrs : 0 <= rs < 2 ^ 16).
    { unfold rs, read_size_of, u16. apply Z.mod_pos_bound. lia. }
    assert (Ha : 0 <= a).
    { apply Z.land_nonneg. right.
      unfold sector_mask_of, not32, u32. apply Z.mod_pos_bound. lia. }
    assert (Hlen : Z.of_nat (length (for_range a (u32 (a + rs)))) < 2 ^ 16).
    { rewrite for_range_length.
      assert (u32 (a + rs) <= a + rs) by (apply Z.mod_le; lia). lia. }
    pose proof (fill_cached_ticks_below sector 0%nat
                  (for_range a (u32 (a + rs))) dst 0 (2 ^ 32 - 2 ^ 16 - 1)
                  ltac:(lia)
                  ltac:(change (2 ^ 16) with 65536 in *;
                        change (2 ^ 32) with 4294967296 in *; lia) st1)
      as Hfill'.
    rewrite Hfill in Hfill'. cbn [final] in Hfill'.
    destruct Hfill' as (Hl2 & Hle2 & [Hlo2 Hhi2]).
    { apply (ticks_below_tables _ _ st); assumption. }
    pose proof (fill_cached_ticks sector 0%nat (for_range a (u32 (a + rs)))
                  dst (cacheticks st) (cacheticks st) ltac:(destruct Hb as (_ & _ & []); lia)
                  ltac:(destruct Hb as (_ & _ & [? ?]);
                        change (2 ^ 16) with 65536 in *;
                        change (2 ^ 32) with 4294967296 in *; lia) st1)
      as Hmono.
    rewrite Hfill in Hmono. cbn [final] in Hmono.
    destruct Hmono as [Hm1 _]; [unfold ticks_in; lia |].
    apply bind_ok in Hrun as ([] & st3 & Hmod & Hrun).
    unfold modify in Hmod. injection Hmod as <-.
    unfold ret in Hrun. injection Hrun as _ <-.
    cbn [cachetick cacheticks with_cache] in *.
    assert (Hu : u32 (cacheticks st2 + 1) = cacheticks st2 + 1).
    { unfold u32. apply Z.mod_small.
      change (2 ^ 16) with 65536 in *; change (2 ^ 32) with 4294967296 in *.
      lia. }
    assert (Hlt : forall v, (v < CACHE_NUMBLOCKS)%nat ->
              cachetick st2 !!! v < u32 (cacheticks st2 + 1)).
    { intros v Hv. rewrite Hu. specialize (Hle2 v Hv). lia. }
    split; [apply (Hall 0%nat); [exact Hl2 | intros v Hv _; apply Hlt, Hv] |].
    split; [exact Hl2 |].
    split; [intros v Hv; specialize (Hlt v Hv); lia | rewrite Hu; lia].
  - rewrite (ata_readblock_hit _ _ _ _ _ Hi Hfind) in Hrun.
    injection Hrun as _ Hst.
    destruct Hb as (Hl & Hle & [Hlo Hhi]).
    assert (Hu : u32 (cacheticks st + 1) = cacheticks st + 1).
    { unfold u32. apply Z.mod_small.
      change (2 ^ 16) with 65536 in *; change (2 ^ 32) with 4294967296 in *.
      lia. }
    assert (Ht' : cachetick st' = <[i := cacheticks st + 1]> (cachetick st))
      by (subst st'; cbn [cachetick with_cache]; rewrite Hu; reflexivity).
    assert (Hc' : cacheticks st' = cacheticks st + 1)
      by (subst st'; cbn [cacheticks with_cache]; exact Hu).
    assert (Hl' : length (cachetick st') = CACHE_NUMBLOCKS)
      by (rewrite Ht', length_insert; exact Hl).
    assert (Hlt : forall v, (v < CACHE_NUMBLOCKS)%nat -> v <> i ->
              cachetick st' !!! v < cacheticks st').
    { intros v Hv Hne. rewrite Ht', Hc'.
      rewrite list_lookup_total_insert_ne by congruence.
      specialize (Hle v Hv). lia. }
    split; [apply (Hall i); assumption |].
    split; [exact Hl' |]. split; [| lia].
    intros v Hv. destruct (decide (v = i)) as [-> | Hne].
    + rewrite Ht', Hc', list_lookup_total_insert_eq by lia. lia.
    + specialize (Hlt v Hv Hne). lia.
Qed.

Lemma clear_cache_ticks_below st :
  ticks_below 0 0 (final (clear_cache st)).
Proof.
  unfold clear_cache, modify, final, with_cache, ticks_below, ticks_in.
  cbn [cachetick cacheticks]. rewrite length_replicate.
  split; [reflexivity |]. split; [| lia].
  intros v Hv. rewrite lookup_total_replicate_2 by exact Hv. lia.
Qed.

(** C3 (amended).  For every sector other than the sentinel [0xFFFFFFFF]:
    when a cached read of the sector has returned, and the sector was in a
    slot before it, or the drive is read one block at a time
    ([alignment_log2 = 0]), or the sector lies below the last aligned run
    and the cache had, for every block of the run ([2 ^ alignment_log2] of
    them), a slot with a tick below the tick counter and the counter was
    that many short of wrapping, then the cached read that follows returns
    the same 512 bytes, those of the slot of the sector, changes nothing in
    the drive (no command, no register write, no transfer), and sets the
    slot's tick to the incremented tick counter. *)
Theorem repeated_read_served_from_cache
    (st st1 : ata_state) (dst dst2 : list Z) (sector : Z) (r1 : Z * list Z) :
  cache_inv st -> data_shape st ->
  sector <> 0xFFFFFFFF ->
  ata_readblock dst sector st = Ok r1 st1 ->
  (exists i, (i < CACHE_NUMBLOCKS)%nat /\ cacheaddr st !!! i = sector)
  \/ (alignment_log2 (ATAdev st) = 0 /\ 0 <= sector < 2 ^ 32)
  \/ (0 <= alignment_log2 (ATAdev st)
      /\ 0 <= sector < 2 ^ 32 - 2 ^ alignment_log2 (ATAdev st)
      /\ (Z.to_nat (2 ^ alignment_log2 (ATAdev st))
          <= length (older_slots st))%nat
      /\ 0 <= cacheticks st
      /\ cacheticks st + 2 ^ alignment_log2 (ATAdev st) < 2 ^ 32) ->
  exists (i : nat) (st2 : ata_state),
    (i < CACHE_NUMBLOCKS)%nat
    /\ cacheaddr st1 !!! i = sector
    /\ r1 = (0, memcpy dst 0 (cachedata st1 !!! i) (Z.to_nat BLOCK_SIZE))
    /\ ata_readblock dst2 sector st1
       = Ok (0, memcpy dst2 0 (cachedata st1 !!! i) (Z.to_nat BLOCK_SIZE)) st2
    /\ hw st2 = hw st1
    /\ cachedata st2 = cachedata st1
    /\ cacheaddr st2 = cacheaddr st1
    /\ cacheticks st2 = u32 (cacheticks st1 + 1)
    /\ cachetick st2 !!! i = cacheticks st2.
Proof.
  intros Hinv Hds Hsent Hrun Hleft.
  assert (Hinv1 : cache_inv st1).
  { pose proof (ata_readblock2_inv dst 0 sector true st Hinv) as H.
    unfold ata_readblock in Hrun. rewrite Hrun in H. exact H. }
  (* what the first read did *)
  assert (Hfirst :
    (absent sector st1 -> False)
    /\ forall i, (i < CACHE_NUMBLOCKS)%nat -> cacheaddr st1 !!! i = sector ->
         (forall j, (j < i)%nat -> cacheaddr st1 !!! j <> sector) ->
         r1 = (0, memcpy dst 0 (cachedata st1 !!! i) (Z.to_nat BLOCK_SIZE))).
  { destruct (find_cache_entry_cases sector st)
      as [[Hfind Hfresh] | (i1 & Hi1 & _ & Hai1 & Hmin1 & Hfind)].
    - (* miss: the run is read into the cache *)
      destruct Hfresh as [-> | Habs]; [exfalso; apply Hsent; reflexivity |].
      assert (Hkept :
        (exists i, (i < CACHE_NUMBLOCKS)%nat /\ cacheaddr st1 !!! i = sector)
        \/ (alignment_log2 (ATAdev st) = 0 /\ 0 <= sector < 2 ^ 32)).
      { destruct Hleft as [(i & Hi & Hmap) | [Hone | Haged]].
        - exfalso. apply (Habs i Hi Hmap).
        - right. exact Hone.
        - left. destruct Haged as (Hk & Hs & Hold & Hc0 & Hwrap).
          apply (fill_leaves_the_sector dst sector st r1 st1); assumption. }
      clear Hleft.
      rewrite (ata_readblock_miss _ _ _ Hfind) in Hrun.
      destruct (_ && _); [discriminate |].
      apply bind_ok in Hrun as ([] & sa & Hsend & Hrun).
      destruct (ata_send_read_command_any
                  (Z.land sector (sector_mask_of (ATAdev st)))
                  (read_size_of (ATAdev st)) st)
        as (sa' & c & Hsend' & (Hd & Ha & _ & _ & _) & _).
      rewrite Hsend in Hsend'. injection Hsend' as <-.
      apply bind_ok in Hrun as (d & sf & Hfill & Hrun).
      apply bind_ok in Hrun as ([] & sg & Hmod & Hrun).
      unfold modify in Hmod. injection Hmod as <-.
      unfold ret in Hrun. injection Hrun as <- <-.
      destruct Hinv as ((Hla & _) & _).
      destruct (fill_cached_holds sector 0%nat _
                  (NoDup_for_range
                     (Z.land sector (sector_mask_of (ATAdev st)))
                     (u32 (Z.land sector (sector_mask_of (ATAdev st))
                           + read_size_of (ATAdev st))))
                  dst sa d sf) as [_ Hcase];
        [congruence | unfold data_shape in *; congruence | exact Hfill |].
      assert (Habsa : absent sector sa).
      { intros v Hv. rewrite Ha. apply Habs, Hv. }
      destruct (Hcase Habsa)
        as [(Hnin & Habsf & _) | (Hin & B & HB & -> & Hsingle)].
      + (* the run did not contain the sector *)
        split.
        * intros _. destruct Hkept as [(i & Hi & Hmap) | [Hk Hs]].
          -- apply (Habsf i Hi Hmap).
          -- apply Hnin. rewrite run_of_one_block by assumption.
             left; reflexivity.
        * intros i Hi Hmap _. exfalso. apply (Habsf i Hi Hmap).
      + split.
        * intros Habsf. destruct Hkept as [(i & Hi & Hmap) | [Hk Hs]].
          -- apply (Habsf i Hi Hmap).
          -- apply Hsingle; [apply run_of_one_block; assumption | exact Habsf].
        * intros i Hi Hmap _. cbn [cachedata with_cache].
          rewrite (HB i Hi Hmap). reflexivity.
    - (* hit *)
      rewrite (ata_readblock_hit _ _ _ _ _ Hi1 Hfind) in Hrun.
      injection Hrun as <- <-. cbn [cacheaddr cachedata with_cache].
      split.
      + intros Habs. apply (Habs i1 Hi1 Hai1).
      + intros i Hi Hmap Hmin.
        assert (i = i1).
        { destruct (Nat.lt_trichotomy i i1) as [Hlt | [Heq | Hgt]];
            [exfalso; apply (Hmin1 i Hlt Hmap) | exact Heq
            | exfalso; apply (Hmin i1 Hgt Hai1)]. }
        subst i. reflexivity. }
  destruct Hfirst as [Hpresent Hdata].
  (* the second read *)
  destruct (find_cache_entry_cases sector st1)
    as [[Hfind Hfresh] | (i & Hi & _ & Hai & Hmin & Hfind)].
  { exfalso. destruct Hfresh as [-> | Habs];
      [apply Hsent; reflexivity | apply Hpresent; exact Habs]. }
  exists i. eexists.
  split; [exact Hi |]. split; [exact Hai |].
  split; [apply Hdata; assumption |].
  split; [apply (ata_readblock_hit _ _ _ _ _ Hi Hfind) |].
  cbn [hw cachedata cacheaddr cacheticks cachetick with_cache].
  repeat split.
  apply list_lookup_total_insert_eq.
  destruct Hinv1 as ((_ & Hlt) & _). lia.
Qed.

Lemma cache_inv_lba28 : cache_inv Examples.ata_lba28 /\ data_shape Examples.ata_lba28.
Proof.
  split; [split; [split |] |]; try (vm_compute; reflexivity).
  intros i j Hi Hj _ Hvalid. exfalso. apply Hvalid.
  unfold CACHE_NUMBLOCKS in Hi.
  do 16 (destruct i as [|i]; [vm_compute; reflexivity |]). lia.
Qed.

Lemma cache_inv_toshiba_warm :
  cache_inv Examples.ata_toshiba_warm /\ data_shape Examples.ata_toshiba_warm.
Proof.
  split; [| vm_compute; reflexivity].
  apply (ata_readblock2_inv [] 0 100 true Examples.ata_toshiba).
  split; [split |]; try (vm_compute; reflexivity).
  intros i j Hi Hj _ Hvalid. exfalso. apply Hvalid.
  unfold CACHE_NUMBLOCKS in Hi.
  do 16 (destruct i as [|i]; [vm_compute; reflexivity |]). lia.
Qed.

(** Sector 5 of the 30 GB drive, read twice after bring-up, one block at
    a time; and sector 0 of the Toshiba drive, whose runs are two blocks,
    read twice after an earlier read has aged the cache: the first read
    fetches the sectors 0 and 1, the second is served from the slot of
    sector 0. *)
Lemma repeated_read_served_from_cache_witness :
  (let r := ata_readblock (replicate 512 0) 5 Examples.ata_lba28 in
   exists r1 st1,
     r = Ok r1 st1
     /\ exists (i : nat) (st2 : ata_state),
          (i < CACHE_NUMBLOCKS)%nat
          /\ cacheaddr st1 !!! i = 5
          /\ r1 = (0, memcpy (replicate 512 0) 0 (cachedata st1 !!! i)
                        (Z.to_nat BLOCK_SIZE))
          /\ ata_readblock [] 5 st1
             = Ok (0, memcpy [] 0 (cachedata st1 !!! i) (Z.to_nat BLOCK_SIZE))
                 st2
          /\ hw st2 = hw st1
          /\ cachedata st2 = cachedata st1
          /\ cacheaddr st2 = cacheaddr st1
          /\ cacheticks st2 = u32 (cacheticks st1 + 1)
          /\ cachetick st2 !!! i = cacheticks st2)
  /\ (let r := ata_readblock (replicate 512 0) 0 Examples.ata_toshiba_warm in
      exists r1 st1,
        r = Ok r1 st1
        /\ exists (i : nat) (st2 : ata_state),
             (i < CACHE_NUMBLOCKS)%nat
             /\ cacheaddr st1 !!! i = 0
             /\ r1 = (0, memcpy (replicate 512 0) 0 (cachedata st1 !!! i)
                           (Z.to_nat BLOCK_SIZE))
             /\ ata_readblock [] 0 st1
                = Ok (0, memcpy [] 0 (cachedata st1 !!! i)
                          (Z.to_nat BLOCK_SIZE)) st2
             /\ hw st2 = hw st1
             /\ cachedata st2 = cachedata st1
             /\ cacheaddr st2 = cacheaddr st1
             /\ cacheticks st2 = u32 (cacheticks st1 + 1)
             /\ cachetick st2 !!! i = cacheticks st2).
Proof.
  split.
  - intros r.
    assert (E : r = Ok (value_of r (0, [])) (final r)).
    { rewrite (ok_run_pair r (0, [])) at 1 by (vm_compute; reflexivity).
      destruct (value_of r (0, [])); reflexivity. }
    exists (value_of r (0, [])), (final r). split; [exact E |].
    apply (repeated_read_served_from_cache Examples.ata_lba28 (final r)
             (replicate 512 0) [] 5 (value_of r (0, []))).
    + apply cache_inv_lba28.
    + apply cache_inv_lba28.
    + discriminate.
    + exact E.
    + right. left. split; [vm_compute; reflexivity | lia].
  - intros r.
    assert (E : r = Ok (value_of r (0, [])) (final r)).
    { rewrite (ok_run_pair r (0, [])) at 1 by (vm_compute; reflexivity).
      destruct (value_of r (0, [])); reflexivity. }
    exists (value_of r (0, [])), (final r). split; [exact E |].
    apply (repeated_read_served_from_cache Examples.ata_toshiba_warm (final r)
             (replicate 512 0) [] 0 (value_of r (0, []))).
    + apply cache_inv_toshiba_warm.
    + apply cache_inv_toshiba_warm.
    + discriminate.
    + exact E.
    + right. right.
      split; [vm_compute; discriminate |].
      split; [vm_compute; split; [discriminate | reflexivity] |].
      split; [vm_compute; lia |].
      split; [vm_compute; discriminate | vm_compute; reflexivity].
Defined.

(** C3, as stated, fails for the sentinel sector: on the LBA48 drive two
    cached reads of sector [0xFFFFFFFF] in a row both return, and each sends
    a read command to the drive. *)
Lemma repeated_sentinel_read_hits_drive_twice :
  let run := (do ata_readblock [] 0xFFFFFFFF; ata_readblock [] 0xFFFFFFFF)
               Examples.ata_lba48 in
  is_ok run = true
  /\ Examples.reads_of (final run)
     = [mk_cmd COMMAND_READ_SECTORS_EXT 0xFFFFFFFF 1;
        mk_cmd COMMAND_READ_SECTORS_EXT 0xFFFFFFFF 1].
Proof. split; vm_compute; reflexivity. Qed.

(** On the drive with two-block alignment the first fill after bring-up
    puts both blocks of the run in slot 0, all ticks being equal, so that
    only the second block stays cached: sector 0 read twice goes to the
    drive twice. *)
Lemma fresh_cache_aligned_fill_keeps_last_block :
  let st1 := final (ata_readblock [] 0 Examples.ata_toshiba) in
  take 2 (cacheaddr st1) = [1; 0xFFFFFFFF]
  /\ Examples.reads_of (final (ata_readblock [] 0 st1))
     = [mk_cmd COMMAND_READ_SECTORS_EXT 0 2; mk_cmd COMMAND_READ_SECTORS_EXT 0 2].
Proof. split; vm_compute; reflexivity. Qed.

(** ** The IDENTIFY checksum *)

Lemma sum_of_app l1 l2 : sum_of (l1 ++ l2) = sum_of l1 + sum_of l2.
Proof.
  unfold sum_of. induction l1 as [|x l1 IH]; simpl; [reflexivity | lia].
Qed.

Lemma all_bytes_at (buff : list Z) (k : nat) :
  all_bytes buff -> (k < length buff)%nat ->
  buff !! k = Some (byte_at buff k) /\ 0 <= byte_at buff k < 2 ^ 8.
Proof.
  intros Hall Hk. unfold byte_at.
  assert (H : buff !! k = Some (buff !!! k))
    by (apply list_lookup_lookup_total_lt; exact Hk).
  split; [exact H |].
  unfold all_bytes in Hall. rewrite Forall_lookup in Hall.
  apply (Hall k _ H).
Qed.

Lemma word_bytes (buff : list Z) (i : nat) :
  all_bytes buff -> (2 * i + 1 < length buff)%nat ->
  Z.land (word_at buff i) 0x00FF = byte_at buff (2 * i)
  /\ Z.shiftr (word_at buff i) 8 = byte_at buff (2 * i + 1).
Proof.
  intros Hall Hi.
  destruct (all_bytes_at buff (2 * i) Hall ltac:(lia)) as [_ H0].
  destruct (all_bytes_at buff (2 * i + 1) Hall ltac:(lia)) as [_ H1].
  unfold word_at. change 0x00FF with (Z.ones 8).
  rewrite Z.land_ones, Z.shiftr_div_pow2 by lia.
  change (2 ^ 8) with 256 in *. split; Z.div_mod_to_equations; lia.
Qed.

Lemma identify_sum_prefix (buff : list Z) (n : nat) :
  all_bytes buff -> (2 * n <= length buff)%nat ->
  fold_left
    (fun calculated_sum i =>
       let calculated_sum := u8 (calculated_sum + Z.land (word_at buff i) 0x00FF) in
       u8 (calculated_sum + Z.shiftr (word_at buff i) 8))
    (seq 0 n) 0
  = sum_of (take (2 * n) buff) mod 2 ^ 8.
Proof.
  intros Hall. induction n as [|n IH]; intros Hn; [reflexivity |].
  rewrite seq_S, fold_left_app, IH by lia. cbn [fold_left Nat.add].
  destruct (word_bytes buff n Hall ltac:(lia)) as [-> ->].
  destruct (all_bytes_at buff (2 * n) Hall ltac:(lia)) as [L0 _].
  destruct (all_bytes_at buff (2 * n + 1) Hall ltac:(lia)) as [L1 _].
  replace (2 * S n)%nat with (S (S (2 * n))) by lia.
  replace (2 * n + 1)%nat with (S (2 * n)) in * by lia.
  rewrite (take_S_r _ _ _ L1), (take_S_r _ _ _ L0), !sum_of_app.
  unfold sum_of. cbn [fold_right]. unfold u8.
  rewrite Z.add_mod_idemp_l, <- Z.add_assoc, Z.add_mod_idemp_l by lia.
  f_equal. lia.
Qed.

(** The loop of [ata_identify] adds up the 512 bytes modulo 256. *)
Lemma identify_sum_bytes (buff : list Z) :
  all_bytes buff -> length buff = 512%nat ->
  identify_sum buff = sum_of_bytes buff mod 2 ^ 8.
Proof.
  intros Hall Hlen. unfold identify_sum, sum_of_bytes.
  apply (identify_sum_prefix buff 256 Hall). lia.
Qed.

Lemma identify_command_run st :
  exists sa,
    identify_command st = Ok tt sa
    /\ hw_pending (hw sa) = IdentData
    /\ hw_ident (hw sa) = hw_ident (hw st).
Proof. eexists. split; [reflexivity |]. split; reflexivity. Qed.

Lemma receive_ident sa :
  hw_pending (hw sa) = IdentData ->
  exists sb, ata_receive_read_data 1 sa = Ok [hw_ident (hw sa)] sb.
Proof.
  intros Hp. unfold ata_receive_read_data.
  change (Z.to_nat 1) with 1%nat. cbn [ata_transfer_block].
  unfold hw_next_block. rewrite Hp. cbn [ata_transfer_block length].
  eexists. reflexivity.
Qed.

(** What [ata_identify] does with the response of the drive. *)
Lemma ata_identify_run st :
  exists sb,
    ata_identify st
    = (do identify_check (hw_ident (hw st));
       let buff := hw_ident (hw st) in
       let lba48 :=
         if Z.land (word_at buff 83) (Z.shiftl 1 10) =? 0 then 0 else 1 in
       let sectors := identify_sectors lba48 buff in
       modify (fun st =>
         with_dev st
           (mk_dev [word_at buff 1; word_at buff 3; word_at buff 6] lba48
              (identify_alignment buff sectors) sectors))) sb.
Proof.
  destruct (identify_command_run st) as (sa & Hcmd & Hp & Hid).
  destruct (receive_ident sa Hp) as (sb & Hrecv).
  exists sb. unfold ata_identify.
  rewrite bind_run, Hcmd. cbv beta iota.
  rewrite bind_run, Hrecv. cbv beta iota zeta.
  cbn [concat]. rewrite app_nil_r, Hid. reflexivity.
Qed.

(** C8 (amended).  When the low byte of word 255 of the IDENTIFY response is
    the signature [0xA5], identification halts with the checksum diagnostic
    exactly when the sum of all 512 bytes of the response (both bytes of each
    of the 256 words), taken modulo 256, is not zero; with no signature, or
    with a zero sum, identification goes on and returns. *)
Theorem identify_checksum_is_byte_sum (st : ata_state) :
  all_bytes (hw_ident (hw st)) -> length (hw_ident (hw st)) = 512%nat ->
  let buff := hw_ident (hw st) in
  (byte_at buff 510 = 0xA5 /\ sum_of_bytes buff mod 2 ^ 8 <> 0 ->
   exists s',
     ata_identify st
     = Halt (Diag_identify_checksum (word_at buff 255)
               (sum_of_bytes buff mod 2 ^ 8)) s')
  /\ (byte_at buff 510 <> 0xA5 \/ sum_of_bytes buff mod 2 ^ 8 = 0 ->
      exists s', ata_identify st = Ok tt s').
Proof.
  intros Hall Hlen buff.
  destruct (ata_identify_run st) as (sb & ->). fold buff.
  assert (Hsig : Z.land (word_at buff 255) 0x00FF = byte_at buff 510).
  { apply (word_bytes buff 255 Hall). unfold buff. lia. }
  unfold identify_check, when. rewrite Hsig, (identify_sum_bytes buff Hall Hlen).
  rewrite bind_run.
  split.
  - intros [Hs Hsum]. rewrite Hs. cbn [Z.eqb Pos.eqb].
    destruct (sum_of_bytes buff mod 2 ^ 8 =? 0) eqn:E;
      [apply Z.eqb_eq in E; contradiction |].
    cbn [negb]. eexists. reflexivity.
  - intros Hor.
    destruct (byte_at buff 510 =? 0xA5) eqn:Es.
    + destruct Hor as [Hne | Hz]; [apply Z.eqb_eq in Es; contradiction |].
      rewrite Hz. cbn [Z.eqb negb]. eexists. reflexivity.
    + eexists. reflexivity.
Qed.

Lemma all_bytes_check (l : list Z) :
  forallb (fun b => (0 <=? b) && (b <? 2 ^ 8)) l = true -> all_bytes l.
Proof.
  intros H. unfold all_bytes. rewrite Forall_forall. intros b Hb.
  rewrite forallb_forall in H.
  specialize (H b Hb). apply andb_true_iff in H as [H0 H1].
  apply Z.leb_le in H0. apply Z.ltb_lt in H1. lia.
Qed.

(** The drive whose response carries a correct integrity word is
    identified; the one whose checksum byte is zeroed halts the loader. *)
Lemma identify_checksum_is_byte_sum_witness :
  (exists s', ata_identify (Examples.power_on Examples.drive_checksummed)
              = Ok tt s')
  /\ (exists s', ata_identify (Examples.power_on Examples.drive_bad_checksum)
                 = Halt (Diag_identify_checksum 0x00A5 79) s').
Proof.
  split.
  - refine (proj2 (identify_checksum_is_byte_sum
                     (Examples.power_on Examples.drive_checksummed) _ _) _).
    + apply all_bytes_check. vm_compute. reflexivity.
    + vm_compute. reflexivity.
    + right. vm_compute. reflexivity.
  - refine (proj1 (identify_checksum_is_byte_sum
                     (Examples.power_on Examples.drive_bad_checksum) _ _) _).
    + apply all_bytes_check. vm_compute. reflexivity.
    + vm_compute. reflexivity.
    + split; vm_compute; [reflexivity | discriminate].
Defined.

(** C8, as stated, fails: the response of [drive_checksummed] carries the
    signature and its 256 words add up to 337886, which is zero neither as
    an integer nor modulo 2^16 nor modulo 2^8, yet identification goes
    through, because its 512 bytes add up to zero modulo 256. *)
Lemma identify_accepts_nonzero_word_sum :
  let buff := hw_ident Examples.drive_checksummed in
  byte_at buff 510 = 0xA5
  /\ sum_of_words buff = 337886
  /\ sum_of_words buff mod 2 ^ 16 <> 0
  /\ sum_of_words buff mod 2 ^ 8 <> 0
  /\ sum_of_bytes buff mod 2 ^ 8 = 0
  /\ is_ok (ata_identify (Examples.power_on Examples.drive_checksummed)) = true.
Proof. repeat split; vm_compute; (reflexivity || discriminate). Qed.

End ATA_facts.

(** * Facts about the FAT driver *)

Module FAT_facts.
Import FAT32 FAT_props.

(** ** Integer conversions *)

Lemma s32_small x : - 2 ^ 31 <= x < 2 ^ 31 -> s32 x = x.
Proof.
  intros H. unfold s32.
  rewrite Z.mod_small; change (2 ^ 31) with 2147483648 in *;
    change (2 ^ 32) with 4294967296; lia.
Qed.

Lemma s32_range x : - 2 ^ 31 <= s32 x < 2 ^ 31.
Proof.
  unfold s32. pose proof (Z.mod_pos_bound (x + 2 ^ 31) (2 ^ 32) ltac:(lia)).
  change (2 ^ 31) with 2147483648 in *. change (2 ^ 32) with 4294967296 in *.
  lia.
Qed.

Lemma u32_small x : 0 <= x < 2 ^ 32 -> u32 x = x.
Proof. intros H. apply Z.mod_small, H. Qed.

(** ** Handles *)

Lemma handle_ok fd s h s' :
  handle fd s = Ok h s' ->
  s' = s /\ 0 <= fd /\ filehandles (fat s) !! Z.to_nat fd = Some (Some h).
Proof.
  unfold handle. rewrite bind_run. unfold gets. cbv beta iota.
  destruct (0 <=? fd) eqn:E; [| discriminate].
  apply Z.leb_le in E.
  destruct (filehandles (fat s) !! Z.to_nat fd) as [[h'|]|] eqn:El;
    try discriminate.
  unfold ret. intros [= <- <-]. split; [reflexivity |].
  split; [exact E | reflexivity].
Qed.

Lemma handle_of_lookup fd s h :
  0 <= fd -> filehandles (fat s) !! Z.to_nat fd = Some (Some h) ->
  handle fd s = Ok h s.
Proof.
  intros Hfd Hl. unfold handle. rewrite bind_run. unfold gets. cbv beta iota.
  destruct (0 <=? fd) eqn:E; [| apply Z.leb_gt in E; lia].
  rewrite Hl. reflexivity.
Qed.

Lemma set_position_ok fd pos s h :
  handle fd s = Ok h s ->
  set_position fd pos s = Ok tt (with_handle s fd (moved h pos)).
Proof.
  intros Hh. unfold set_position. rewrite bind_run, Hh. reflexivity.
Qed.

Lemma handle_with_handle fd s h h' :
  handle fd s = Ok h s ->
  handle fd (with_handle s fd h') = Ok h' (with_handle s fd h').
Proof.
  intros Hh. apply handle_ok in Hh as (_ & Hfd & Hl).
  apply handle_of_lookup; [exact Hfd |].
  cbn [fat with_handle with_fat filehandles set_handles].
  apply list_lookup_insert_eq. apply lookup_lt_Some in Hl. exact Hl.
Qed.

(** ** Seeking *)

(** C5 (amended).  [fat32_seek] takes the offset relative to the start of
    the file, to the current position or to the end of the file
    ([seek_base]).  When the file is shorter than 2 GiB (length and position
    below 2^31), or the resulting absolute position, offset plus base, is
    below 2^31 -- the positions the 32-bit [long] of the code can hold -- a
    resulting position outside [0, length] gives a negative result and
    leaves the whole state, the position included, as it was; one inside
    gives 0 and a handle whose position is the resulting position. *)
Theorem seek_within_bounds
    (s : fs_state) (fd offset : Z) (whence : whence_t) (h : fat32_file) :
  handle fd s = Ok h s ->
  - 2 ^ 31 <= offset < 2 ^ 31 ->
  0 <= file_length h < 2 ^ 32 ->
  0 <= position h < 2 ^ 32 ->
  (forall w, whence <> VFS_SEEK_other w) ->
  let target := offset + seek_base h whence in
  (file_length h < 2 ^ 31 /\ position h < 2 ^ 31) \/ target < 2 ^ 31 ->
  (target < 0 \/ file_length h < target ->
   fat32_seek fd offset whence s = Ok (-1) s)
  /\ (0 <= target <= file_length h ->
      fat32_seek fd offset whence s = Ok 0 (with_handle s fd (moved h target))
      /\ handle fd (with_handle s fd (moved h target))
         = Ok (moved h target) (with_handle s fd (moved h target))).
Proof.
  intros Hh Hoff Hlen Hpos Hw target Hfits.
  assert (Hbase : 0 <= seek_base h whence < 2 ^ 32)
    by (destruct whence; cbn [seek_base]; lia).
  assert (Ht : seek_target h offset whence = s32 target).
  { unfold target. destruct whence; cbn [seek_target seek_base];
      [reflexivity | rewrite Z.add_0_r, s32_small by lia; reflexivity
      | reflexivity | exfalso; apply (Hw w); reflexivity]. }
  assert (Hrun : fat32_seek fd offset whence s
                 = if (s32 target <? 0) || (file_length h <? u32 (s32 target))
                   then Ok (-1) s
                   else Ok 0 (with_handle s fd (moved h (u32 (s32 target))))).
  { unfold fat32_seek.
    destruct whence; try (exfalso; apply (Hw w); reflexivity);
      rewrite bind_run, Hh; cbv beta iota zeta; rewrite Ht;
      (destruct ((s32 target <? 0) || (file_length h <? u32 (s32 target)));
       [reflexivity |
        rewrite bind_run, (set_position_ok _ _ _ _ Hh); reflexivity]). }
  (* the 32-bit [long] holds the target, or wraps it to a negative number *)
  assert (Hlong : s32 target = target
                  \/ (file_length h < target /\ s32 target < 0)).
  { destruct (Z.lt_ge_cases target (2 ^ 31)) as [Hlt | Hge].
    - left. apply s32_small. unfold target. lia.
    - right. destruct Hfits as [[Hl Hp] | Hlt]; [| lia].
      assert (Hb : seek_base h whence < 2 ^ 31)
        by (destruct whence; cbn [seek_base]; lia).
      split; [lia |].
      unfold s32. replace (target + 2 ^ 31) with (target - 2 ^ 31 + 1 * 2 ^ 32)
        by lia.
      unfold target in *.
      rewrite Z.mod_add, Z.mod_small
        by (change (2 ^ 31) with 2147483648 in *;
            change (2 ^ 32) with 4294967296 in *; lia).
      change (2 ^ 31) with 2147483648 in *.
      change (2 ^ 32) with 4294967296 in *. lia. }
  split.
  - intros Hout. rewrite Hrun.
    pose proof (s32_range target) as Hrange.
    destruct Hlong as [Heq | [_ Hneg]].
    + rewrite Heq in *.
      destruct (target <? 0) eqn:E0; [reflexivity |].
      apply Z.ltb_ge in E0. rewrite u32_small by lia.
      destruct (file_length h <? target) eqn:E1; [reflexivity |].
      apply Z.ltb_ge in E1. lia.
    + replace (s32 target <? 0) with true
        by (symmetry; apply Z.ltb_lt; exact Hneg).
      reflexivity.
  - intros Hin. pose proof (s32_range target) as Hrange.
    destruct Hlong as [Heq | [Hgt _]]; [| lia].
    rewrite Heq in Hrange. rewrite Hrun, Heq, u32_small by lia.
    destruct (target <? 0) eqn:E0; [apply Z.ltb_lt in E0; lia |].
    destruct (file_length h <? target) eqn:E1; [apply Z.ltb_lt in E1; lia |].
    split; [reflexivity | apply (handle_with_handle _ _ _ _ Hh)].
Qed.

(** On the opened file of the test volume, 700 bytes long: 100 bytes before
    the end is accepted, one byte past the end is refused. *)
Lemma seek_within_bounds_witness :
  fat32_seek 0 (-100) VFS_SEEK_END Examples.hello_opened
  = Ok 0 (with_handle Examples.hello_opened 0 (moved Examples.hello_file 600))
  /\ fat32_seek 0 1 VFS_SEEK_END Examples.hello_opened
     = Ok (-1) Examples.hello_opened.
Proof.
  assert (Hh : handle 0 Examples.hello_opened
               = Ok Examples.hello_file Examples.hello_opened)
    by (apply handle_of_lookup; [lia | vm_compute; reflexivity]).
  assert (Hlen : 0 <= file_length Examples.hello_file < 2 ^ 32)
    by (vm_compute; split; [discriminate | reflexivity]).
  assert (Hpos : 0 <= position Examples.hello_file < 2 ^ 32)
    by (vm_compute; split; [discriminate | reflexivity]).
  assert (Hw : forall w, VFS_SEEK_END <> VFS_SEEK_other w)
    by (intros w; discriminate).
  split.
  - refine (proj1 (proj2
      (seek_within_bounds Examples.hello_opened 0 (-100) VFS_SEEK_END
         Examples.hello_file Hh _ Hlen Hpos Hw _) _)).
    + vm_compute. split; [discriminate | reflexivity].
    + left. vm_compute. split; reflexivity.
    + vm_compute. split; discriminate.
  - refine (proj1
      (seek_within_bounds Examples.hello_opened 0 1 VFS_SEEK_END
         Examples.hello_file Hh _ Hlen Hpos Hw _) _).
    + vm_compute. split; [discriminate | reflexivity].
    + left. vm_compute. split; reflexivity.
    + right. vm_compute. reflexivity.
Defined.

(** C5, as stated, fails for a file of 2 GiB or more.  On the open file
    of [0xF0000000] bytes at position 0, [seek (0x10000000, VFS_SEEK_END)]
    asks for the position 2^32, outside [0, length]: the 32-bit [long] of
    the code holds 0, and the call returns 0 and sets the position to 0.
    [seek (0, VFS_SEEK_END)] asks for the position [length], inside: the
    [long] holds a negative number and the call returns -1. *)
Lemma seek_wraps_on_a_large_file :
  let nothing := mk_file 0 0 1 0 in
  let past := fat32_seek 0 0x10000000 VFS_SEEK_END Examples.large_opened in
  let last := fat32_seek 0 0 VFS_SEEK_END Examples.large_opened in
  value_of (handle 0 Examples.large_opened) nothing = Examples.large_file
  /\ file_length Examples.large_file
     < 0x10000000 + seek_base Examples.large_file VFS_SEEK_END
  /\ is_ok past = true /\ value_of past (-3) = 0
  /\ position (value_of (handle 0 (final past)) nothing) = 0
  /\ 0 <= 0 + seek_base Examples.large_file VFS_SEEK_END
     <= file_length Examples.large_file
  /\ is_ok last = true /\ value_of last (-3) = -1.
Proof. repeat split; vm_compute; first [reflexivity | discriminate]. Qed.

(** ** Operations blind to a change of the state *)

Lemma blind_ret {A} f (a : A) : blind_to f (ret a).
Proof. intros s. reflexivity. Qed.

Lemma blind_halt {A} f d : blind_to f (@halt fs_state A d).
Proof. intros s. reflexivity. Qed.

Lemma blind_bind {A B} f (m : M fs_state A) (k : A -> M fs_state B) :
  blind_to f m -> (forall a, blind_to f (k a)) -> blind_to f (bind m k).
Proof.
  intros Hm Hk s. rewrite !bind_run, Hm.
  destruct (m s) as [a s1 | d s1]; simpl; [apply Hk | reflexivity].
Qed.

Lemma blind_gets {A} f (g : fs_state -> A) :
  (forall s, g (f s) = g s) -> blind_to f (gets g).
Proof. intros Hg s. unfold gets. rewrite Hg. reflexivity. Qed.

Lemma blind_modify f (g : fs_state -> fs_state) :
  (forall s, g (f s) = f (g s)) -> blind_to f (modify g).
Proof. intros Hg s. unfold modify. rewrite Hg. reflexivity. Qed.

Lemma blind_lift_ata {A} f (m : M ATA.ata_state A) :
  frame f -> blind_to f (lift_ata m).
Proof.
  intros Hf s. unfold lift_ata. rewrite (fr_ata f Hf).
  destruct (m (ata s)) as [a st | d st]; simpl;
    rewrite (fr_with_ata f Hf); reflexivity.
Qed.

(** Code that reads [fat] for its geometry only. *)
Lemma blind_gets_fat {A} f (k : fat_t -> M fs_state A) :
  frame f ->
  (forall fa, blind_to f (k fa)) ->
  (forall fa hs n s0, k (set_handles fa hs n) s0 = k fa s0) ->
  blind_to f (bind (gets fat) k).
Proof.
  intros Hf Hk Hgeo s. rewrite !bind_run. unfold gets. cbv beta iota.
  destruct (fr_fat f Hf s) as (hs & n & ->). rewrite Hgeo. apply Hk.
Qed.

Ltac blind :=
  repeat lazymatch goal with
    | |- blind_to _ (ret _) => apply blind_ret
    | |- blind_to _ (halt _) => apply blind_halt
    | |- blind_to _ (lift_ata _) => apply blind_lift_ata; assumption
    | |- blind_to _ (bind (gets fat) _) =>
        apply blind_gets_fat;
        [assumption | intros ? | intros; reflexivity]
    | |- blind_to _ (bind _ _) => apply blind_bind; [| intros ?]
    | |- blind_to _ (match ?x with (_, _) => _ end) => destruct x
    | |- blind_to _ (if ?b then _ else _) => destruct b
    end.

Lemma readToSectorBuf_blind f sector :
  frame f -> blind_to f (readToSectorBuf sector).
Proof.
  intros Hf. unfold readToSectorBuf. blind.
  - apply blind_gets. apply (fr_SecNum f Hf).
  - apply blind_gets. intros s. rewrite (fr_FATSectorBuf f Hf). reflexivity.
  - apply blind_modify. intros s. apply (fr_with_FATSectorBuf f Hf).
Qed.

Lemma fat32_findnextcluster_blind f prev_cluster :
  frame f -> blind_to f (fat32_findnextcluster prev_cluster).
Proof.
  intros Hf. unfold fat32_findnextcluster. blind;
    try (apply readToSectorBuf_blind; assumption);
    apply blind_gets; intros s; rewrite (fr_FATSectorBuf f Hf); reflexivity.
Qed.

Lemma read_clusterBuffer_blind f lba count :
  frame f -> blind_to f (read_clusterBuffer lba count).
Proof.
  intros Hf. unfold read_clusterBuffer. blind.
  - apply blind_gets. intros s. rewrite (fr_clusterBuffer f Hf). reflexivity.
  - apply blind_modify. intros s. apply (fr_with_clusterBuffer f Hf).
Qed.

Lemma ffwd_blind f clusterNum :
  frame f -> forall cluster, blind_to f (ffwd clusterNum cluster).
Proof.
  intros Hf. induction clusterNum as [|n IH]; intros cluster; simpl; blind.
  - apply fat32_findnextcluster_blind, Hf.
  - apply IH.
Qed.

Lemma complete_clusters_blind f turns bound :
  frame f ->
  forall read cluster ptr,
    blind_to f (complete_clusters turns bound read cluster ptr).
Proof.
  intros Hf. induction turns as [|n IH]; intros read cluster ptr; simpl; blind.
  - apply fat32_findnextcluster_blind, Hf.
  - apply read_clusterBuffer_blind, Hf.
  - apply IH.
Qed.

Lemma getNextRawEntry_blind f state :
  frame f -> blind_to f (getNextRawEntry state).
Proof.
  intros Hf. unfold getNextRawEntry. blind;
    try (apply fat32_findnextcluster_blind; assumption);
    try (apply blind_gets; intros s; rewrite (fr_clusterBuffer f Hf);
         reflexivity);
    apply blind_modify; intros s; apply (fr_with_clusterBuffer f Hf).
Qed.

(** ** Closing a descriptor *)

Lemma frame_set_count n : frame (set_count n).
Proof.
  constructor; try (intros; reflexivity).
  intros s. exists (filehandles (fat s)), n. reflexivity.
Qed.

Lemma handle_blind_count n fd : blind_to (set_count n) (handle fd).
Proof.
  intros s. unfold handle. rewrite !bind_run. unfold gets. cbv beta iota.
  cbn [fat set_count with_fat filehandles set_handles].
  destruct (if 0 <=? fd then filehandles (fat s) !! Z.to_nat fd else None)
    as [[h|]|]; reflexivity.
Qed.

Lemma set_position_blind_count n fd pos :
  blind_to (set_count n) (set_position fd pos).
Proof.
  unfold set_position. apply blind_bind; [apply handle_blind_count |].
  intros h. apply blind_modify. intros s. reflexivity.
Qed.

Lemma fat32_tell_blind_count n fd : blind_to (set_count n) (fat32_tell fd).
Proof.
  unfold fat32_tell. apply blind_bind; [apply handle_blind_count |].
  intros h. apply blind_ret.
Qed.

Lemma fat32_seek_blind_count n fd offset whence :
  blind_to (set_count n) (fat32_seek fd offset whence).
Proof.
  unfold fat32_seek.
  destruct whence; try apply blind_ret;
    (apply blind_bind; [apply handle_blind_count |]; intros h;
     destruct (_ || _); [apply blind_ret |];
     apply blind_bind; [apply set_position_blind_count | intros; apply blind_ret]).
Qed.

Lemma fat32_read_blind_count n ptr size nmemb fd :
  blind_to (set_count n) (fat32_read ptr size nmemb fd).
Proof.
  pose proof (frame_set_count n) as Hf.
  unfold fat32_read. apply blind_bind; [apply handle_blind_count |].
  intros h. blind;
    try (apply ffwd_blind; assumption);
    try (apply read_clusterBuffer_blind; assumption);
    try (apply complete_clusters_blind; assumption);
    try (apply fat32_findnextcluster_blind; assumption).
  apply set_position_blind_count.
Qed.

Lemma fat32_open_slot (s : fs_state) (file : fat32_file) :
  0 <= numHandles (fat s) < MAX_HANDLES ->
  exists s',
    fat32_open (Some file) s = Ok (numHandles (fat s)) s'
    /\ filehandles (fat s')
       = <[Z.to_nat (numHandles (fat s)) := Some file]> (filehandles (fat s))
    /\ numHandles (fat s') = numHandles (fat s) + 1.
Proof.
  intros Hn. unfold MAX_HANDLES in Hn. unfold fat32_open.
  rewrite bind_run. unfold gets at 1. cbv beta iota.
  destruct (numHandles (fat s) <? MAX_HANDLES) eqn:E;
    [| apply Z.ltb_ge in E; unfold MAX_HANDLES in E; lia].
  rewrite bind_run. unfold modify at 1. cbv beta iota.
  rewrite bind_run. unfold gets at 1. cbv beta iota.
  cbn [fat with_fat numHandles filehandles set_handles]. unfold ret.
  rewrite (u32_small (numHandles (fat s) + 1))
    by (change (2 ^ 32) with 4294967296; lia).
  replace (numHandles (fat s) + 1 - 1) with (numHandles (fat s)) by lia.
  rewrite s32_small by (change (2 ^ 31) with 2147483648; lia).
  eexists. split; [reflexivity |]. split; reflexivity.
Qed.

(** C9.  [fat32_close] of the descriptor that is the last one counted
    ([fd = numHandles - 1], compared as the code does, modulo 2^32)
    decrements the count of open handles and changes nothing else, so that
    the next [fat32_open] hands the same descriptor out again; for any other
    descriptor it changes nothing at all.  In both cases the table of
    handles and the files behind it are kept, and [fat32_tell], [fat32_seek]
    and [fat32_read] on any descriptor do after the close what they did
    before it: the same result, the same halts, and the same final state up
    to the count. *)
Theorem close_keeps_the_files (s : fs_state) (fd : Z) :
  let n := numHandles (fat s) in
  (u32 fd = u32 (n - 1) ->
   fat32_close fd s = Ok tt (set_count (u32 (n - 1)) s))
  /\ (0 < n <= MAX_HANDLES -> fd = n - 1 ->
      forall file, exists s',
        fat32_open (Some file) (final (fat32_close fd s)) = Ok fd s'
        /\ filehandles (fat s')
           = <[Z.to_nat fd := Some file]> (filehandles (fat s)))
  /\ (u32 fd <> u32 (n - 1) -> fat32_close fd s = Ok tt s)
  /\ filehandles (fat (final (fat32_close fd s))) = filehandles (fat s)
  /\ forall n' fd' ptr size nmemb offset whence,
       fat32_tell fd' (set_count n' s)
       = map_state (set_count n') (fat32_tell fd' s)
       /\ fat32_seek fd' offset whence (set_count n' s)
          = map_state (set_count n') (fat32_seek fd' offset whence s)
       /\ fat32_read ptr size nmemb fd' (set_count n' s)
          = map_state (set_count n') (fat32_read ptr size nmemb fd' s).
Proof.
  intros n.
  assert (Hrun : fat32_close fd s
                 = if u32 fd =? u32 (n - 1)
                   then Ok tt (set_count (u32 (n - 1)) s) else Ok tt s)
    by (unfold fat32_close; rewrite bind_run; unfold gets; cbv beta iota;
        fold n; destruct (u32 fd =? u32 (n - 1)); reflexivity).
  split; [| split; [| split; [| split]]].
  - intros H. rewrite Hrun. apply Z.eqb_eq in H. rewrite H. reflexivity.
  - intros Hn Hfd file. unfold MAX_HANDLES in Hn. rewrite Hrun, Hfd, Z.eqb_refl.
    cbn [final].
    destruct (fat32_open_slot (set_count (u32 (n - 1)) s) file)
      as (s' & Hopen & Hslot & _).
    { cbn [fat set_count with_fat numHandles set_handles].
      rewrite u32_small by (change (2 ^ 32) with 4294967296; lia).
      unfold MAX_HANDLES. lia. }
    cbn [fat set_count with_fat numHandles filehandles set_handles] in Hopen, Hslot.
    rewrite u32_small in Hopen, Hslot by (change (2 ^ 32) with 4294967296; lia).
    rewrite (u32_small (n - 1)) by (change (2 ^ 32) with 4294967296; lia).
    exists s'. split; [exact Hopen | exact Hslot].
  - intros H. rewrite Hrun. apply Z.eqb_neq in H. rewrite H. reflexivity.
  - rewrite Hrun. destruct (u32 fd =? u32 (n - 1)); reflexivity.
  - intros n' fd' ptr size nmemb offset whence. repeat split.
    + apply fat32_tell_blind_count.
    + apply fat32_seek_blind_count.
    + apply fat32_read_blind_count.
Qed.

(** The file of the test volume, opened as descriptor 0, closed and opened
    again, and the file of an earlier descriptor closed under a later one. *)
Lemma close_keeps_the_files_witness :
  fat32_close 0 Examples.hello_opened
  = Ok tt (set_count 0 Examples.hello_opened)
  /\ (exists s',
        fat32_open (Some Examples.hello_file)
          (final (fat32_close 0 Examples.hello_opened)) = Ok 0 s'
        /\ filehandles (fat s')
           = <[0%nat := Some Examples.hello_file]>
               (filehandles (fat Examples.hello_opened)))
  /\ fat32_close 5 Examples.hello_opened = Ok tt Examples.hello_opened.
Proof.
  pose proof (close_keeps_the_files Examples.hello_opened 0) as (H0 & H1 & _).
  pose proof (close_keeps_the_files Examples.hello_opened 5) as (_ & _ & H5 & _).
  split; [| split].
  - apply H0. vm_compute. reflexivity.
  - apply (H1 ltac:(vm_compute; split; [reflexivity | discriminate])
             ltac:(vm_compute; reflexivity) Examples.hello_file).
  - apply H5. vm_compute. discriminate.
Defined.

(** ** Mounting *)

Lemma legal_BytsPerSec_spec v :
  legal_BytsPerSec v = true <-> In v sector_sizes.
Proof.
  unfold legal_BytsPerSec, sector_sizes. cbn [In].
  rewrite !orb_true_iff, !Z.eqb_eq. intuition congruence.
Qed.

Lemma legal_SecPerClus_spec v :
  legal_SecPerClus v = true <-> power_of_two_upto_128 v.
Proof.
  unfold legal_SecPerClus, power_of_two_upto_128.
  rewrite !orb_true_iff, !Z.eqb_eq. split.
  - intros [[[[[[[H|H]|H]|H]|H]|H]|H]|H]; subst v;
      [exists 0 | exists 1 | exists 2 | exists 3 | exists 4 | exists 5
       | exists 6 | exists 7]; (split; [lia | reflexivity]).
  - intros (k & Hk & ->).
    assert (k = 0 \/ k = 1 \/ k = 2 \/ k = 3 \/ k = 4 \/ k = 5 \/ k = 6
            \/ k = 7) as [->|[->|[->|[->|[->|[->|[->| ->]]]]]]] by lia;
      cbn; tauto.
Qed.

Lemma newfs_run (s s1 : fs_state) (part offset n : Z) (bpb : list Z) :
  read_bpb offset (newfs_reset offset s) = Ok (n, bpb) s1 ->
  fat32_newfs part offset s
  = (if negb (getLE16 bpb 510 =? 0xAA55) then halt Diag_not_fat_superblock
     else if negb (legal_BytsPerSec (BPB_BytsPerSec bpb)) then
       halt (Diag_invalid_BytsPerSec (BPB_BytsPerSec bpb))
     else
       do modify (fun s =>
         with_fat s (mk_fat offset 0 0 0 0 (BPB_BytsPerSec bpb) 0 0 0 0 0 0 0 0
                       (filehandles fat_zero) (numHandles fat_zero)));
       if negb (legal_SecPerClus (BPB_SecPerClus bpb)) then
         halt (Diag_invalid_SecPerClus (BPB_SecPerClus bpb))
       else
         do modify (fun s => with_fat s (fat_geometry offset bpb));
         if countofClusters bpb <? 4085 then
           halt (Diag_fat12 (countofClusters bpb))
         else
           do modify (fun s =>
             with_fat s
               (if countofClusters bpb <? 65525 then
                  set_fat_type (fat s) 16
                    (u16 (BPB_ResvdSecCnt bpb
                          + BPB_NumFATs bpb * BPB_FATSz16 bpb))
                else set_fat_type (fat s) 32 (BPB_RootClus bpb)));
           do modify (fun s =>
             mk_fs (fat s)
               (match clusterBuffer s with
                | None =>
                    Some (replicate (Z.to_nat (bytes_per_cluster (fat s))) 0)
                | Some b => Some b
                end)
               (Some bpb) (gSecNumInFATBuf s) (longname s) (registered s)
               (ata s));
           modify (fun s =>
             with_registered s ((u8 part, FAT32_tag) :: registered s))) s1.
Proof.
  intros Hread. unfold fat32_newfs. rewrite bind_run. unfold modify at 1.
  cbv beta iota. rewrite bind_run. unfold read_bpb, newfs_reset in Hread.
  rewrite Hread. reflexivity.
Qed.

Lemma read_bpb_registered (s s1 : fs_state) (offset n : Z) (bpb : list Z) :
  read_bpb offset (newfs_reset offset s) = Ok (n, bpb) s1 ->
  registered s1 = registered s.
Proof.
  unfold read_bpb, lift_ata. intros H.
  destruct (ATA.ata_readblocks _ _ _ _ _) as [a st | d st];
    [| discriminate].
  injection H as _ <-. reflexivity.
Qed.

(** C6.  [fat32_newfs], once the first block of the partition is read and
    carries the signature [0xAA55]: a bytes-per-sector field outside 512,
    1024, 2048, 4096 ends the mount with the diagnostic for that field, and
    so does, after it, a sectors-per-cluster field that is not a power of two
    between 1 and 128; in both cases no file system is registered.  With
    both fields legal the volume is classified by its count of clusters:
    below 4085 it is FAT12 and the mount ends with the FAT12 diagnostic,
    nothing registered; below 65525 it is FAT16, with the root directory
    recorded as the sector after the reserved sectors and the FATs (as 16
    bits hold it); from 65525 on it is FAT32, with the root directory taken
    from the root-cluster field of the BPB.  In the last two cases the
    partition is registered. *)
Theorem newfs_validates_and_classifies
    (s s1 : fs_state) (part offset n : Z) (bpb : list Z) :
  read_bpb offset (newfs_reset offset s) = Ok (n, bpb) s1 ->
  getLE16 bpb 510 = 0xAA55 ->
  let bps := BPB_BytsPerSec bpb in
  let spc := BPB_SecPerClus bpb in
  let count := countofClusters bpb in
  (~ In bps sector_sizes ->
   rejected_with (Diag_invalid_BytsPerSec bps) s (fat32_newfs part offset s))
  /\ (In bps sector_sizes -> ~ power_of_two_upto_128 spc ->
      rejected_with (Diag_invalid_SecPerClus spc) s (fat32_newfs part offset s))
  /\ (In bps sector_sizes -> power_of_two_upto_128 spc ->
      (count < 4085 ->
       rejected_with (Diag_fat12 count) s (fat32_newfs part offset s))
      /\ (4085 <= count < 65525 ->
          mounted_as part 16
            (u16 (BPB_ResvdSecCnt bpb + BPB_NumFATs bpb * BPB_FATSz16 bpb))
            s (fat32_newfs part offset s))
      /\ (65525 <= count ->
          mounted_as part 32 (BPB_RootClus bpb) s (fat32_newfs part offset s))).
Proof.
  intros Hread Hsig bps spc count.
  pose proof (read_bpb_registered _ _ _ _ _ Hread) as Hreg.
  rewrite (newfs_run _ _ part _ _ _ Hread).
  apply Z.eqb_eq in Hsig. rewrite Hsig. cbn [negb].
  fold bps spc count.
  split; [| split].
  - intros Hbps.
    destruct (legal_BytsPerSec bps) eqn:E;
      [apply legal_BytsPerSec_spec in E; contradiction |].
    cbn [negb]. eexists. split; [reflexivity | exact Hreg].
  - intros Hbps Hspc. apply legal_BytsPerSec_spec in Hbps. rewrite Hbps.
    cbn [negb]. rewrite bind_run. unfold modify at 1. cbv beta iota.
    destruct (legal_SecPerClus spc) eqn:E;
      [apply legal_SecPerClus_spec in E; contradiction |].
    cbn [negb]. eexists. split; [reflexivity | exact Hreg].
  - intros Hbps Hspc. apply legal_BytsPerSec_spec in Hbps. rewrite Hbps.
    apply legal_SecPerClus_spec in Hspc. cbn [negb].
    rewrite bind_run. unfold modify at 1. cbv beta iota.
    rewrite Hspc. cbn [negb].
    rewrite bind_run. unfold modify at 1. cbv beta iota.
    split; [| split].
    + intros Hc. apply Z.ltb_lt in Hc. rewrite Hc.
      eexists. split; [reflexivity | exact Hreg].
    + intros [Hlo Hhi]. apply Z.ltb_ge in Hlo. apply Z.ltb_lt in Hhi.
      rewrite Hlo, Hhi. eexists. split; [reflexivity |].
      cbn. split; [reflexivity |]. split; [reflexivity |].
      rewrite Hreg. reflexivity.
    + intros Hc.
      assert (Hlo : (count <? 4085) = false) by (apply Z.ltb_ge; lia).
      assert (Hhi : (count <? 65525) = false) by (apply Z.ltb_ge; lia).
      rewrite Hlo, Hhi. eexists. split; [reflexivity |].
      cbn. split; [reflexivity |]. split; [reflexivity |].
      rewrite Hreg. reflexivity.
Qed.

(** The test volume, 68868 clusters of one 512-byte sector, is mounted as
    FAT32 with its root directory in cluster 2. *)
Lemma newfs_validates_and_classifies_witness :
  mounted_as 1 32 2 Examples.volume_up (fat32_newfs 1 63 Examples.volume_up).
Proof.
  pose (run := read_bpb 63 (newfs_reset 63 Examples.volume_up)).
  assert (Hread : run = Ok (fst (value_of run (0, [])),
                            snd (value_of run (0, []))) (final run))
    by (apply ok_run_pair; vm_compute; reflexivity).
  assert (Hroot : BPB_RootClus (snd (value_of run (0, []))) = 2)
    by (vm_compute; reflexivity).
  rewrite <- Hroot.
  refine (proj2 (proj2 (proj2 (proj2
    (newfs_validates_and_classifies Examples.volume_up (final run) 1 63 _ _
       Hread _)) _ _)) _).
  - vm_compute. reflexivity.
  - vm_compute. left. reflexivity.
  - exists 0. split; [lia | vm_compute; reflexivity].
  - vm_compute. discriminate.
Defined.

(** ** Long file names *)

Lemma frame_with_longname l : frame (fun s => with_longname s l).
Proof.
  constructor; try (intros; reflexivity).
  intros s. exists (filehandles (fat s)), (numHandles (fat s)).
  cbn [fat with_longname]. destruct (fat s); reflexivity.
Qed.

Lemma raw_entry_any_longname d s l :
  getNextRawEntry d (with_longname s l)
  = map_state (fun s => with_longname s l) (getNextRawEntry d s).
Proof. apply (getNextRawEntry_blind _ d (frame_with_longname l)). Qed.

Lemma kind_normal e :
  kind_of e = Kind_normal ->
  (byte_at e 0 =? 0) = false /\ (byte_at e 0 =? 0xE5) = false
  /\ (byte_at e 0x0B =? 0x0F) = false.
Proof.
  unfold kind_of.
  destruct (byte_at e 0 =? 0), (byte_at e 0 =? 0xE5),
    (byte_at e 0x0B =? 0x0F); intros H; try discriminate H; auto.
Qed.

Lemma kind_deleted e :
  kind_of e = Kind_deleted ->
  (byte_at e 0 =? 0) = false /\ (byte_at e 0 =? 0xE5) = true.
Proof.
  unfold kind_of.
  destruct (byte_at e 0 =? 0), (byte_at e 0 =? 0xE5),
    (byte_at e 0x0B =? 0x0F); intros H; try discriminate H; auto.
Qed.

Lemma kind_fragment e :
  kind_of e = Kind_fragment ->
  (byte_at e 0 =? 0) = false /\ (byte_at e 0 =? 0xE5) = false
  /\ (byte_at e 0x0B =? 0x0F) = true.
Proof.
  unfold kind_of.
  destruct (byte_at e 0 =? 0), (byte_at e 0 =? 0xE5),
    (byte_at e 0x0B =? 0x0F); intros H; try discriminate H; auto.
Qed.

Lemma loop_run entry d2 s2 spare :
  kind_of entry = Kind_normal ->
  forall raws dstate s loc buf,
    yields dstate s (raws ++ [entry]) d2 s2 ->
    Forall (fun r => kind_of r = Kind_deleted \/ kind_of r = Kind_fragment)
      raws ->
    getNextCompleteEntry_loop (length raws + 1 + spare) dstate loc
      (with_longname s buf)
    = let lb := collect (List.filter is_fragment raws) loc buf in
      let be := normal_entry (fat s2) entry (fst lb) (snd lb) in
      Ok (Entry (snd be), d2) (with_longname s2 (fst be)).
Proof.
  intros Hn. induction raws as [|r raws IH]; intros dstate s loc buf Hy Hk.
  - cbn [app] in Hy. inversion Hy as [|? ? ? d1 s1 ? ? ? Hraw Hrest]; subst.
    inversion Hrest; subst.
    cbn [length Nat.add getNextCompleteEntry_loop].
    rewrite bind_run, raw_entry_any_longname, Hraw. cbn [map_state].
    destruct (kind_normal _ Hn) as (E0 & E1 & E2). rewrite E0, E1, E2.
    rewrite bind_run. unfold gets at 1. cbv beta iota.
    rewrite bind_run. unfold gets at 1. cbv beta iota.
    cbn [collect List.filter fold_left fst snd longname with_longname fat].
    destruct (normal_entry (fat s2) entry loc buf) as [b e].
    reflexivity.
  - cbn [app] in Hy. inversion Hy as [|? ? ? d1 s1 ? ? ? Hraw Hrest]; subst.
    inversion Hk as [|? ? Hr Hk']; subst.
    cbn [length Nat.add getNextCompleteEntry_loop].
    rewrite bind_run, raw_entry_any_longname, Hraw. cbn [map_state].
    cbn [List.filter].
    destruct Hr as [Hr | Hr].
    + assert (Hf : is_fragment r = false)
        by (unfold is_fragment; rewrite Hr; reflexivity).
      rewrite Hf.
      destruct (kind_deleted _ Hr) as (E0 & E1). rewrite E0, E1.
      apply (IH _ _ _ _ Hrest Hk').
    + assert (Hf : is_fragment r = true)
        by (unfold is_fragment; rewrite Hr; reflexivity).
      rewrite Hf.
      destruct (kind_fragment _ Hr) as (E0 & E1 & E2). rewrite E0, E1, E2.
      rewrite bind_run. unfold gets at 1. cbv beta iota.
      cbn [longname with_longname].
      unfold collect. cbn [fold_left fst snd]. fold (collect (List.filter is_fragment raws)).
      destruct (lfn_slot r loc buf) as [loc' buf'] eqn:El.
      rewrite bind_run. unfold modify at 1. cbv beta iota.
      change (with_longname (with_longname s1 buf) buf')
        with (with_longname s1 buf').
      rewrite (IH _ _ _ _ Hrest Hk'). reflexivity.
Qed.

Lemma ucs2cpy_spec n :
  forall src,
    fst (ucs2cpy src n) = map as_char (ucs2 src n)
    /\ 0 <= snd (ucs2cpy src n)
    /\ (snd (ucs2cpy src n) = 0 <-> forallb mappable (ucs2 src n) = true).
Proof.
  induction n as [|n IH]; intros src; cbn [ucs2cpy ucs2 map forallb].
  - cbn [fst snd]. repeat split; auto with zarith.
  - specialize (IH (drop 2 src)).
    destruct (ucs2cpy (drop 2 src) n) as [dest k]. cbn [fst snd] in IH.
    destruct IH as (Hd & Hk & Hz).
    change (u16 (Z.lor (byte_at src 0) (Z.shiftl (byte_at src 1) 8)))
      with (getLE16 src 0).
    set (u := getLE16 src 0).
    unfold as_char, mappable, printable_ascii.
    destruct (u =? 0); [| destruct (u =? 65535);
                          [| destruct ((32 <=? u) && (u <=? 126)) eqn:Ep]];
      cbn [orb andb fst snd]; rewrite Hd;
      (split; [try reflexivity | split; [lia |]]).
    + rewrite Z.add_0_l. exact Hz.
    + rewrite Z.add_0_l. exact Hz.
    + f_equal. apply andb_true_iff in Ep as [Hlo Hhi].
      apply Z.leb_le in Hlo. apply Z.leb_le in Hhi.
      change 255 with (Z.ones 8). rewrite Z.land_ones by lia.
      apply Z.mod_small. change (2 ^ 8) with 256. lia.
    + rewrite Z.add_0_l. exact Hz.
    + split; [lia | discriminate].
Qed.

Lemma lfn_slot_spec x loc buf :
  lfn_slot x loc buf
  = if seq_ok x then
      let loc1 :=
        if first_physical x then mk_lfn (alias_checksum x) 1 else loc in
      let buf1 := if first_physical x then replicate 256 0 else buf in
      if namegood loc1 =? 0 then (loc1, buf1)
      else
        (if forallb mappable (code_units x) then loc1
         else mk_lfn (chksum loc1) 0,
         memcpy buf1 (Z.to_nat (name_offset x))
           (map as_char (code_units x)) 13)
    else (mk_lfn (chksum loc) 0, buf).
Proof.
  unfold lfn_slot. cbv zeta.
  assert (Hc : (0 <=? 13 * (Z.land (byte_at x 0) 31 - 1))
               && (13 * (Z.land (byte_at x 0) 31 - 1) <? 256 - 1 - 13)
               && (Z.land (byte_at x 0) 128 =? 0) = seq_ok x).
  { unfold seq_ok, seq_number. f_equal.
    apply eq_true_iff_eq.
    rewrite !andb_true_iff, !Z.leb_le, Z.ltb_lt. lia. }
  rewrite Hc. unfold first_physical.
  destruct (seq_ok x); [| reflexivity]. cbn [andb].
  pose proof (ucs2cpy_spec 5 (take 10 (drop 1 x))) as (F0 & P0 & Z0).
  pose proof (ucs2cpy_spec 6 (take 12 (drop 14 x))) as (F5 & P5 & Z5).
  pose proof (ucs2cpy_spec 2 (take 4 (drop 28 x))) as (F11 & P11 & Z11).
  assert (Hnames :
    forall l b,
      (let '(n0, i0) := ucs2cpy (take 10 (drop 1 x)) 5 in
       let '(n5, i5) := ucs2cpy (take 12 (drop 14 x)) 6 in
       let '(n11, i11) := ucs2cpy (take 4 (drop 28 x)) 2 in
       (if 0 <? i0 + i5 + i11 then mk_lfn (chksum l) 0 else l,
        memcpy b (Z.to_nat (13 * (Z.land (byte_at x 0) 31 - 1)))
          (n0 ++ n5 ++ n11) 13))
      = (if forallb mappable (code_units x) then l else mk_lfn (chksum l) 0,
         memcpy b (Z.to_nat (name_offset x)) (map as_char (code_units x)) 13)).
  { intros l b.
    destruct (ucs2cpy (take 10 (drop 1 x)) 5) as [n0 i0].
    destruct (ucs2cpy (take 12 (drop 14 x)) 6) as [n5 i5].
    destruct (ucs2cpy (take 4 (drop 28 x)) 2) as [n11 i11].
    cbn [fst snd] in *. unfold code_units.
    rewrite !map_app, <- F0, <- F5, <- F11, !forallb_app.
    f_equal.
    destruct (0 <? i0 + i5 + i11) eqn:E.
    - apply Z.ltb_lt in E.
      destruct (forallb mappable (ucs2 (take 10 (drop 1 x)) 5)) eqn:E0;
        [| reflexivity].
      destruct (forallb mappable (ucs2 (take 12 (drop 14 x)) 6)) eqn:E5;
        [| reflexivity].
      destruct (forallb mappable (ucs2 (take 4 (drop 28 x)) 2)) eqn:E11;
        [| reflexivity].
      exfalso.
      assert (i0 = 0) by (apply Z0; reflexivity).
      assert (i5 = 0) by (apply Z5; reflexivity).
      assert (i11 = 0) by (apply Z11; reflexivity). lia.
    - apply Z.ltb_ge in E.
      assert (H0 : i0 = 0) by lia. assert (H5 : i5 = 0) by lia.
      assert (H11 : i11 = 0) by lia.
      apply Z0 in H0. apply Z5 in H5. apply Z11 in H11.
      rewrite H0, H5, H11. reflexivity. }
  destruct (negb (Z.land (byte_at x 0) 64 =? 0)).
  - cbn [namegood negb Z.eqb]. apply Hnames.
  - destruct (namegood loc =? 0); cbn [negb]; [reflexivity | apply Hnames].
Qed.

Lemma last_group_snoc l x :
  last_group (l ++ [x])
  = if first_physical x then [x]
    else match last_group l with [] => [] | g => g ++ [x] end.
Proof.
  induction l as [|a l IH]; cbn [app last_group].
  - destruct (first_physical x); reflexivity.
  - rewrite IH. destruct (first_physical x); [reflexivity |].
    destruct (last_group l) as [|f r]; cbn [app].
    + destruct (first_physical a); reflexivity.
    + reflexivity.
Qed.

Lemma collect_snoc l x loc buf :
  collect (l ++ [x]) loc buf
  = lfn_slot x (fst (collect l loc buf)) (snd (collect l loc buf)).
Proof. unfold collect. rewrite fold_left_app. reflexivity. Qed.

Lemma fragment_ok_seq x : seq_ok x = false -> fragment_ok x = false.
Proof. unfold fragment_ok. intros ->. reflexivity. Qed.

Lemma first_physical_seq x : seq_ok x = false -> first_physical x = false.
Proof. unfold first_physical. intros ->. reflexivity. Qed.

Lemma collect_spec slots buf0 :
  let lb := collect slots (mk_lfn 0 0) buf0 in
  match last_group slots with
  | [] => namegood (fst lb) = 0
  | first :: rest =>
      if forallb fragment_ok (first :: rest)
      then fst lb = mk_lfn (alias_checksum first) 1
           /\ snd lb = assembled (first :: rest)
      else namegood (fst lb) = 0
  end.
Proof.
  induction slots as [|x l IH] using rev_ind; [reflexivity |].
  cbv zeta in *. rewrite collect_snoc, last_group_snoc, lfn_slot_spec.
  destruct (seq_ok x) eqn:Es.
  - unfold fragment_ok in *. destruct (first_physical x) eqn:Ef; cbv zeta.
    + cbn [namegood Z.eqb forallb]. rewrite Es, andb_true_r. cbn [andb].
      destruct (forallb mappable (code_units x)); cbn [fst snd];
        [split; reflexivity | reflexivity].
    + destruct (last_group l) as [|f r].
      * rewrite IH. change (0 =? 0) with true. cbv iota. cbn [fst].
        exact IH.
      * change ((f :: r) ++ [x]) with (f :: (r ++ [x])). cbv iota.
        change (forallb (fun sl => seq_ok sl && forallb mappable (code_units sl))
                  (f :: (r ++ [x])))
          with (forallb (fun sl => seq_ok sl && forallb mappable (code_units sl))
                  ((f :: r) ++ [x])).
        rewrite forallb_app. cbn [forallb] in *. rewrite Es, andb_true_r.
        cbn [andb].
        destruct (seq_ok f && forallb mappable (code_units f)
                  && forallb
                       (fun sl => seq_ok sl && forallb mappable (code_units sl))
                       r).
        -- destruct IH as [Hl Hb]. rewrite Hl, Hb. cbn [namegood Z.eqb andb].
           destruct (forallb mappable (code_units x)); cbn [fst snd];
             [| reflexivity].
           split; [reflexivity |].
           unfold assembled. 
           change (f :: (r ++ [x])) with ((f :: r) ++ [x]).
           rewrite fold_left_app. reflexivity.
        -- rewrite IH. change (0 =? 0) with true. cbv iota. cbn [fst].
           exact IH.
  - rewrite (first_physical_seq _ Es).
    destruct (last_group l) as [|f r]; [reflexivity |].
    change ((f :: r) ++ [x]) with (f :: (r ++ [x])). cbv iota.
    replace (forallb fragment_ok (f :: (r ++ [x]))) with false; [reflexivity |].
    change (f :: (r ++ [x])) with ((f :: r) ++ [x]).
    rewrite forallb_app. cbn [forallb]. rewrite (fragment_ok_seq _ Es).
    rewrite andb_false_r. reflexivity. 
Qed.

Lemma cstr_zeroed buf : cstr (<[0%nat := 0]> buf) = [].
Proof. destruct buf; reflexivity. Qed.

Lemma with_longname_same s : with_longname s (longname s) = s.
Proof. destruct s; reflexivity. Qed.

Lemma mappable_spec u :
  mappable u = true <-> u = 0 \/ u = 0xFFFF \/ 0x20 <= u <= 0x7E.
Proof.
  unfold mappable, printable_ascii.
  rewrite !orb_true_iff, andb_true_iff, !Z.eqb_eq, !Z.leb_le. tauto.
Qed.

Lemma fragment_ok_spec sl :
  fragment_ok sl = true ->
  seq_ok sl = true
  /\ Forall (fun u => u = 0 \/ u = 0xFFFF \/ 0x20 <= u <= 0x7E) (code_units sl).
Proof.
  unfold fragment_ok. rewrite andb_true_iff. intros [Hs Hc].
  split; [exact Hs |].
  apply Forall_forall. intros u Hu. apply mappable_spec.
  rewrite forallb_forall in Hc. apply Hc, Hu.
Qed.

(** C7.  [getNextCompleteEntry] over a group of raw entries, fragments of a
    long name and deleted entries, ended by a normal entry: it returns that
    entry with its 8.3 name.  The long name is attached only if the group
    has a first physical fragment (bit 6 of the sequence byte set), the
    checksum byte of the last such fragment equals the 8.3 checksum of the
    ending entry, and that fragment and every fragment after it has a usable
    sequence byte (number 1 to 19 in bits 0-4, bit 7 clear) and holds only
    code units that are [0x0000], [0xFFFF] or printable ASCII.  When these
    conditions hold the name is the string that starts the buffer in which
    each of these fragments put its thirteen characters at offset
    [13 * (number - 1)]; when one of them fails the long name is empty and
    the entry has its 8.3 name only. *)
Theorem long_name_attached
    (dstate d2 : dir_state) (s s2 : fs_state) (raws : list (list Z))
    (entry : list Z) (spare : nat) :
  yields dstate s (raws ++ [entry]) d2 s2 ->
  Forall (fun r => kind_of r = Kind_deleted \/ kind_of r = Kind_fragment)
    raws ->
  kind_of entry = Kind_normal ->
  let slots := List.filter is_fragment raws in
  exists e s',
    getNextCompleteEntry (length raws + 1 + spare) dstate s
    = Ok (Entry e, d2) s'
    /\ e_shortname e = short_name_of entry (byte_at entry 0x0B)
    /\ (e_longname e <> [] ->
        exists first rest,
          last_group slots = first :: rest
          /\ alias_checksum first = lfn_checksum entry
          /\ Forall
               (fun sl =>
                  seq_ok sl = true
                  /\ Forall (fun u => u = 0 \/ u = 0xFFFF \/ 0x20 <= u <= 0x7E)
                       (code_units sl))
               (first :: rest))
    /\ e_longname e
       = (if name_attached slots entry
          then cstr (assembled (last_group slots)) else []).
Proof.
  intros Hy Hk Hn slots.
  pose proof (loop_run entry d2 s2 spare Hn raws dstate s (mk_lfn 0 0)
                (longname s) Hy Hk) as Hrun.
  rewrite with_longname_same in Hrun. cbv zeta in Hrun. fold slots in Hrun.
  pose proof (collect_spec slots (longname s)) as Hc. cbv zeta in Hc.
  set (lb := collect slots (mk_lfn 0 0) (longname s)) in *.
  assert (Hlong :
    e_longname (snd (normal_entry (fat s2) entry (fst lb) (snd lb)))
    = if name_attached slots entry
      then cstr (assembled (last_group slots)) else []).
  { unfold normal_entry, name_attached. cbn [snd e_longname].
    destruct (last_group slots) as [|first rest].
    - rewrite Hc. cbn [Z.eqb orb]. apply cstr_zeroed.
    - destruct (forallb fragment_ok (first :: rest)).
      + destruct Hc as [Hl Hb]. rewrite Hl, Hb. cbn [namegood chksum Z.eqb orb andb].
        destruct (alias_checksum first =? lfn_checksum entry); cbn [negb];
          [reflexivity | apply cstr_zeroed].
      + rewrite Hc. cbn [Z.eqb orb andb]. apply cstr_zeroed. }
  eexists _, _. split; [exact Hrun |]. split; [reflexivity |].
  split; [| exact Hlong].
  rewrite Hlong. unfold name_attached.
  destruct (last_group slots) as [|first rest];
    [intros H; exfalso; apply H; reflexivity |].
  destruct (forallb fragment_ok (first :: rest)) eqn:Eg;
    [| intros H; exfalso; apply H; reflexivity].
  destruct (alias_checksum first =? lfn_checksum entry) eqn:Ea;
    [| intros H; exfalso; apply H; reflexivity].
  intros _. exists first, rest. split; [reflexivity |].
  split; [apply Z.eqb_eq, Ea |].
  apply Forall_forall. intros sl Hsl. apply fragment_ok_spec.
  rewrite forallb_forall in Eg. apply Eg, Hsl.
Qed.

(** The root directory of the test volume: two fragments and the entry of
    "Hello World.txt". *)
Lemma long_name_attached_witness :
  exists e s',
    getNextCompleteEntry 10 Examples.root_start Examples.hello_volume
    = Ok (Entry e, mk_dir 1 3 2) s'
    /\ e_shortname e = chars "HELLOW~1.TXT"
    /\ e_longname e = chars "Hello World.txt".
Proof.
  pose (c := lfn_checksum Examples.hello_short).
  pose (r1 := getNextRawEntry Examples.root_start Examples.hello_volume).
  pose (r2 := getNextRawEntry (mk_dir 1 1 2) (final r1)).
  pose (r3 := getNextRawEntry (mk_dir 1 2 2) (final r2)).
  assert (H1 : r1 = Ok (Some (Examples.hello_fragment2 c), mk_dir 1 1 2) (final r1)).
  { apply (ok_run_value r1 (None, Examples.root_start)); vm_compute; reflexivity. }
  assert (H2 : r2 = Ok (Some (Examples.hello_fragment1 c), mk_dir 1 2 2) (final r2)).
  { apply (ok_run_value r2 (None, Examples.root_start)); vm_compute; reflexivity. }
  assert (H3 : r3 = Ok (Some Examples.hello_entry, mk_dir 1 3 2) (final r3)).
  { apply (ok_run_value r3 (None, Examples.root_start)); vm_compute; reflexivity. }
  destruct (long_name_attached Examples.root_start (mk_dir 1 3 2) Examples.hello_volume (final r3)
              [Examples.hello_fragment2 c; Examples.hello_fragment1 c] Examples.hello_entry 7)
    as (e & s' & Hrun & Hshort & _ & Hlong).
  - apply (yields_cons _ _ _ _ _ _ _ _ H1).
    apply (yields_cons _ _ _ _ _ _ _ _ H2).
    apply (yields_cons _ _ _ _ _ _ _ _ H3).
    apply yields_nil.
  - repeat constructor; right; vm_compute; reflexivity.
  - vm_compute. reflexivity.
  - exists e, s'. split; [exact Hrun |]. split.
    + rewrite Hshort. vm_compute. reflexivity.
    + rewrite Hlong. vm_compute. reflexivity.
Defined.

(** C7, as stated, fails: the second fragment of this directory carries a
    checksum byte that is not the 8.3 checksum of the entry, and the first
    holds the code units [0xFFFF] after its terminator, none of them
    printable ASCII; the long name is attached all the same. *)
Lemma long_name_attached_despite_fragment_checksum :
  option_map e_longname
    (entry_of (getNextCompleteEntry 10 Examples.root_start Examples.skewed_volume))
  = Some (chars "Hello World.txt")
  /\ alias_checksum (Examples.hello_fragment1 (u8 (lfn_checksum Examples.hello_short + 1)))
     <> lfn_checksum Examples.hello_entry
  /\ In 0xFFFF (code_units (Examples.hello_fragment2 (lfn_checksum Examples.hello_short))).
Proof.
  split; [vm_compute; reflexivity |].
  split; [vm_compute; discriminate |].
  vm_compute. tauto.
Qed.

(** ** Reading

    The file of the test volume is 700 bytes long, in clusters of 512
    bytes. *)

(** C1.  Forty bytes asked for at position 680, twenty before the end of
    the file: [fat32_read] bounds the request by length plus position, 1380,
    so it returns 40 and leaves the position at 720, past the end. *)
Theorem read_clamp_adds_the_position :
  let r := Examples.seek_read_tell 680 1 40 Examples.hello_opened in
  is_ok r = true
  /\ fst (value_of r (0, 0, [])) = (40, 720)
  /\ file_length Examples.hello_file = 700.
Proof. vm_compute. repeat split. Qed.

(** Eight bytes at position 50 are the eight bytes of the file there, and
    the position moves by eight. *)
Lemma read_within_the_file :
  let r := Examples.seek_read_tell 50 1 8 Examples.hello_opened in
  is_ok r = true /\ value_of r (0, 0, []) = (8, 58, replicate 8 192).
Proof. vm_compute. repeat split. Qed.

(** Six hundred bytes asked for at position 100: after the 412 bytes left
    in the first cluster the loop over whole clusters copies all of the
    second, and 924 is returned for a position moved by 600. *)
Lemma read_overshoots_whole_clusters :
  let r := Examples.seek_read_tell 100 1 600 Examples.hello_opened in
  is_ok r = true /\ fst (value_of r (0, 0, [])) = (924, 700).
Proof. vm_compute. repeat split. Qed.

End FAT_facts.
